(** * qml-imu: the orientation estimator of [src/IMU.cpp]

    A shallow embedding of the class [IMU] (an extended Kalman filter
    over a quaternion state, driven by gyroscope, accelerometer and
    magnetometer readings) and the properties of its sample handlers,
    quaternion helpers and output conversion.

    Conventions of the embedding.
    - [qreal] is the field of real numbers: rounding, infinities and NaN
      are not represented.  The one place where the source tests for NaN
      ([calculateObservation]) is written as the domain test that
      produces it.
    - [quint64] timestamps are integers in [0, 2^64); the subtraction
      of two of them wraps modulo [2^64] as in C++.
    - A [cv::Mat] is the list of its rows.  A function that assigns every
      entry of a matrix through raw pointers is written as building the
      matrix; entries it does not assign are read back from the old one.
    - [emit rotationChanged()] and the [qDebug()] lines are recorded, most
      recent first, in the ghost field [out].
    - The Kalman kernel ([filter.predict], [filter.correct]) and the
      header [IMU.h] are not part of [src/]; what is taken from the
      specification instead is marked where it is defined. *)

From Stdlib Require Import Reals Lra Lia ZArith List String Bool.
Import ListNotations.

Open Scope R_scope.

(** ** Numeric types *)

Abbreviation qreal := R (only parsing).
Abbreviation quint64 := Z (only parsing).

Definition DBL_EPSILON : qreal := / 2 ^ 52.
Definition FLT_EPSILON : qreal := / 2 ^ 23.

(** [<QtMath>] *)
Definition qDegreesToRadians (degrees : qreal) : qreal := degrees * (PI / 180).
Definition qRadiansToDegrees (radians : qreal) : qreal := radians * (180 / PI).

(** [atan2] of [<cmath>], by quadrant. *)
Definition atan2 (y x : qreal) : qreal :=
  if Rlt_dec 0 x then atan (y / x)
  else if Rlt_dec x 0 then
         if Rle_dec 0 y then atan (y / x) + PI else atan (y / x) - PI
  else if Rlt_dec 0 y then PI / 2
  else if Rlt_dec y 0 then - (PI / 2)
  else 0.

(** [((qreal)(timestamp - last))/1000000.0f], the expression the three
    handlers share (lines 258, 301 and 332): the difference is taken in
    [quint64] and only then converted. *)
Definition elapsed (timestamp last : quint64) : qreal :=
  IZR ((timestamp - last) mod 2 ^ 64) / 1000000.

(** ** Qt value types *)

Module QVector3D.
Record t := mk { x : qreal; y : qreal; z : qreal }.
Definition length (v : t) : qreal :=
  sqrt (x v * x v + y v * y v + z v * z v).
End QVector3D.

(** What [sensor->reading()] gives a handler: the time stamp and the
    three axes. *)
Module QSensorReading.
Record t := mk { timestamp : quint64; x : qreal; y : qreal; z : qreal }.
End QSensorReading.

(** ** Matrices *)

Definition Mat := list (list qreal).

Definition at_ (m : Mat) (i j : nat) : qreal := nth j (nth i m []) 0.

(** [cv::Mat_<qreal>(n,1) << ...] *)
Definition colvec (l : list qreal) : Mat := map (fun v => [v]) l.

Definition zipWith {A B C} (f : A -> B -> C) (u : list A) (v : list B) : list C :=
  map (fun p => f (fst p) (snd p)) (combine u v).

Fixpoint upd {A} (l : list A) (i : nat) (v : A) : list A :=
  match l, i with
  | [], _ => []
  | _ :: l', O => v :: l'
  | h :: l', S i' => h :: upd l' i' v
  end.

(** [m.at<qreal>(i,j) = v]; nothing is written out of range. *)
Definition set_at (m : Mat) (i j : nat) (v : qreal) : Mat :=
  upd m i (upd (nth i m []) j v).

Definition madd (A B : Mat) : Mat := zipWith (zipWith Rplus) A B.
Definition msub (A B : Mat) : Mat := zipWith (zipWith Rminus) A B.
Definition mscale (A : Mat) (k : qreal) : Mat := map (map (fun v => v * k)) A.

Fixpoint transpose (A : Mat) : Mat :=
  match A with
  | [] => []
  | [r] => map (fun v => [v]) r
  | r :: A' => zipWith cons r (transpose A')
  end.

Definition dotlist (u v : list qreal) : qreal :=
  fold_right Rplus 0 (zipWith Rmult u v).

Definition mmul (A B : Mat) : Mat :=
  map (fun row => map (dotlist row) (transpose B)) A.

Definition eye (n : nat) : Mat :=
  map (fun i => map (fun j => if Nat.eqb i j then 1 else 0) (seq 0 n)) (seq 0 n).

(** Dot product and Euclidean norm of the first four entries of a
    column vector, as [normalizeQuat] and [shortestPathQuat] read them. *)
Definition quatDot (q p : Mat) : qreal :=
  at_ q 0 0 * at_ p 0 0 + at_ q 1 0 * at_ p 1 0
  + at_ q 2 0 * at_ p 2 0 + at_ q 3 0 * at_ p 3 0.

Definition quatNorm (q : Mat) : qreal := sqrt (quatDot q q).

(** ** The Kalman kernel's state *)

Module KalmanFilter.
Record t := mk {
  statePre : Mat;
  statePost : Mat;
  transitionMatrix : Mat;
  processNoiseCov : Mat;
  observationMatrix : Mat;
  observationNoiseCov : Mat;
  errorCovPre : Mat;
  errorCovPost : Mat
}.
End KalmanFilter.
Import KalmanFilter.

Definition eta_filter (f : KalmanFilter.t) : KalmanFilter.t :=
  KalmanFilter.mk (statePre f) (statePost f) (transitionMatrix f)
    (processNoiseCov f) (observationMatrix f) (observationNoiseCov f)
    (errorCovPre f) (errorCovPost f).

(** Assignment to one member: the record rebuilt with that field
    replaced. *)
Ltac set_field eta p v s :=
  let e := eval cbv beta delta [eta] in (eta s) in
  match eval pattern (p s) in e with
  | ?f _ => let r := eval cbv beta in (f v) in exact r
  end.

Definition set_statePre (v : Mat) (f : KalmanFilter.t) : KalmanFilter.t :=
  ltac:(set_field eta_filter statePre v f).
Definition set_statePost (v : Mat) (f : KalmanFilter.t) : KalmanFilter.t :=
  ltac:(set_field eta_filter statePost v f).
Definition set_transitionMatrix (v : Mat) (f : KalmanFilter.t) : KalmanFilter.t :=
  ltac:(set_field eta_filter transitionMatrix v f).
Definition set_processNoiseCov (v : Mat) (f : KalmanFilter.t) : KalmanFilter.t :=
  ltac:(set_field eta_filter processNoiseCov v f).
Definition set_observationMatrix (v : Mat) (f : KalmanFilter.t) : KalmanFilter.t :=
  ltac:(set_field eta_filter observationMatrix v f).
Definition set_observationNoiseCov (v : Mat) (f : KalmanFilter.t) : KalmanFilter.t :=
  ltac:(set_field eta_filter observationNoiseCov v f).
Definition set_errorCovPre (v : Mat) (f : KalmanFilter.t) : KalmanFilter.t :=
  ltac:(set_field eta_filter errorCovPre v f).
Definition set_errorCovPost (v : Mat) (f : KalmanFilter.t) : KalmanFilter.t :=
  ltac:(set_field eta_filter errorCovPost v f).

(** Modelled from the spec: [filter.predict(process)], whose class is not
    in [src/].  "x_prior <- f; P_prior <- F * P_post * F^T + Q_k; leave
    x_post unchanged." *)
Definition predict (f : KalmanFilter.t) (process : Mat) : KalmanFilter.t :=
  let f := set_statePre process f in
  set_errorCovPre
    (madd (mmul (mmul (transitionMatrix f) (errorCovPost f))
                (transpose (transitionMatrix f)))
          (processNoiseCov f)) f.

(** Modelled from the spec: [filter.correct(observation,
    predictedObservation)], whose class is not in [src/].
    "S <- H * P_prior * H^T + R_k; K <- P_prior * H^T * S^-1;
    x_post <- x_prior + K * (z - h); P_post <- (I - K * H) * P_prior."
    The matrix inverse is the library's and is taken as [invert]. *)
Definition correct (invert : Mat -> Mat) (f : KalmanFilter.t)
    (observation predictedObservation : Mat) : KalmanFilter.t :=
  let H := observationMatrix f in
  let S := madd (mmul (mmul H (errorCovPre f)) (transpose H))
                (observationNoiseCov f) in
  let K := mmul (mmul (errorCovPre f) (transpose H)) (invert S) in
  let f := set_statePost
             (madd (statePre f) (mmul K (msub observation predictedObservation))) f in
  set_errorCovPost
    (mmul (msub (eye (List.length (errorCovPre f))) (mmul K H)) (errorCovPre f)) f.

(** ** The estimator *)

Module IMU.

(** The lines the class writes with [qDebug()]. *)
Inductive DebugLine :=
| StartupIsOver
| CannotOperateWithoutGyroscope
| GyroscopeSilent (cycles : Z)
| OperatingWithoutAccelerometer
| AccelerometerSilent (cycles : Z)
| OperatingWithoutMagnetometer
| MagnetometerSilent (cycles : Z).

Inductive Output :=
| rotationChanged
| qDebug (line : DebugLine).

(** The data members of the class.  The sensor handles [gyro], [acc] and
    [mag] are left out: a handler receives the reading they would hold.
    The widths of the silent-cycle counters are declared in [IMU.h]; they
    are counted in [Z]. *)
Record t := mk {
  gyroId : string;
  accId : string;
  magId : string;
  lastGyroTimestamp : quint64;
  lastAccTimestamp : quint64;
  lastMagTimestamp : quint64;
  gyroSilentCycles : Z;
  accSilentCycles : Z;
  magSilentCycles : Z;
  filter : KalmanFilter.t;
  startupTime : qreal;
  R_g_startup : qreal;
  R_y_startup : qreal;
  R_g_k_0 : qreal;
  R_g_k_w : qreal;
  R_g_k_g : qreal;
  R_y_k_0 : qreal;
  R_y_k_w : qreal;
  R_y_k_g : qreal;
  R_y_k_n : qreal;
  R_y_k_d : qreal;
  magDataReady : bool;
  m_norm_mean : qreal;
  m_dip_angle_mean : qreal;
  m_mean_alpha : qreal;
  process : Mat;
  statePreHistory : Mat;
  statePostHistory : Mat;
  observation : Mat;
  predictedObservation : Mat;
  Q : Mat;
  w : QVector3D.t;
  w_norm : qreal;
  wDeltaT : qreal;
  a : QVector3D.t;
  a_norm : qreal;
  m : QVector3D.t;
  m_norm : qreal;
  rotAxis : QVector3D.t;
  rotAngle : qreal;
  out : list Output
}.

Definition eta (s : t) : t :=
  mk (gyroId s) (accId s) (magId s)
     (lastGyroTimestamp s) (lastAccTimestamp s) (lastMagTimestamp s)
     (gyroSilentCycles s) (accSilentCycles s) (magSilentCycles s)
     (filter s) (startupTime s)
     (R_g_startup s) (R_y_startup s) (R_g_k_0 s) (R_g_k_w s) (R_g_k_g s)
     (R_y_k_0 s) (R_y_k_w s) (R_y_k_g s) (R_y_k_n s) (R_y_k_d s)
     (magDataReady s) (m_norm_mean s) (m_dip_angle_mean s) (m_mean_alpha s)
     (process s) (statePreHistory s) (statePostHistory s)
     (observation s) (predictedObservation s) (Q s)
     (w s) (w_norm s) (wDeltaT s) (a s) (a_norm s) (m s) (m_norm s)
     (rotAxis s) (rotAngle s) (out s).

Definition set_lastGyroTimestamp (v : quint64) (s : t) : t :=
  ltac:(set_field eta lastGyroTimestamp v s).
Definition set_lastAccTimestamp (v : quint64) (s : t) : t :=
  ltac:(set_field eta lastAccTimestamp v s).
Definition set_lastMagTimestamp (v : quint64) (s : t) : t :=
  ltac:(set_field eta lastMagTimestamp v s).
Definition set_gyroSilentCycles (v : Z) (s : t) : t :=
  ltac:(set_field eta gyroSilentCycles v s).
Definition set_accSilentCycles (v : Z) (s : t) : t :=
  ltac:(set_field eta accSilentCycles v s).
Definition set_magSilentCycles (v : Z) (s : t) : t :=
  ltac:(set_field eta magSilentCycles v s).
Definition set_filter (v : KalmanFilter.t) (s : t) : t :=
  ltac:(set_field eta filter v s).
Definition set_startupTime (v : qreal) (s : t) : t :=
  ltac:(set_field eta startupTime v s).
Definition set_magDataReady (v : bool) (s : t) : t :=
  ltac:(set_field eta magDataReady v s).
Definition set_m_norm_mean (v : qreal) (s : t) : t :=
  ltac:(set_field eta m_norm_mean v s).
Definition set_m_dip_angle_mean (v : qreal) (s : t) : t :=
  ltac:(set_field eta m_dip_angle_mean v s).
Definition set_process (v : Mat) (s : t) : t :=
  ltac:(set_field eta process v s).
Definition set_statePreHistory (v : Mat) (s : t) : t :=
  ltac:(set_field eta statePreHistory v s).
Definition set_statePostHistory (v : Mat) (s : t) : t :=
  ltac:(set_field eta statePostHistory v s).
Definition set_observation (v : Mat) (s : t) : t :=
  ltac:(set_field eta observation v s).
Definition set_predictedObservation (v : Mat) (s : t) : t :=
  ltac:(set_field eta predictedObservation v s).
Definition set_w (v : QVector3D.t) (s : t) : t :=
  ltac:(set_field eta w v s).
Definition set_w_norm (v : qreal) (s : t) : t :=
  ltac:(set_field eta w_norm v s).
Definition set_wDeltaT (v : qreal) (s : t) : t :=
  ltac:(set_field eta wDeltaT v s).
Definition set_a (v : QVector3D.t) (s : t) : t :=
  ltac:(set_field eta a v s).
Definition set_a_norm (v : qreal) (s : t) : t :=
  ltac:(set_field eta a_norm v s).
Definition set_m (v : QVector3D.t) (s : t) : t :=
  ltac:(set_field eta m v s).
Definition set_m_norm (v : qreal) (s : t) : t :=
  ltac:(set_field eta m_norm v s).
Definition set_rotAxis (v : QVector3D.t) (s : t) : t :=
  ltac:(set_field eta rotAxis v s).
Definition set_rotAngle (v : qreal) (s : t) : t :=
  ltac:(set_field eta rotAngle v s).
Definition set_out (v : list Output) (s : t) : t :=
  ltac:(set_field eta out v s).

(** [emit rotationChanged()] or one [qDebug()] line. *)
Definition emit (o : Output) (s : t) : t := set_out (o :: out s) s.

(** The members of the kernel, written through [filter.member]. *)
Definition with_filter (g : KalmanFilter.t -> KalmanFilter.t) (s : t) : t :=
  set_filter (g (filter s)) s.

(** [Q], lines 96-100. *)
Definition Q0 : Mat :=
  [ [1e-4; 0; 0; 0];
    [0; 1e-4; 0; 0];
    [0; 0; 1e-4; 0];
    [0; 0; 0; 1e-4] ].

(** The constructor, lines 37-102.  [gyroId0], [accId0] and [magId0] are
    the identifiers left by the sensor-opening loop (empty when no such
    sensor could be opened), [filter0] is the kernel as [filter(4, 6,
    CV_TYPE)] builds it, and [wDeltaT0], [w_norm0], [a_norm0], [m_norm0]
    and [rotAngle0] stand for the members the constructor does not
    assign: they hold whatever they held before.  The vectors [w], [a],
    [m] and [rotAxis] are not assigned either; a [QVector3D] is
    constructed as (0,0,0). *)
Definition new (gyroId0 accId0 magId0 : string) (filter0 : KalmanFilter.t)
    (wDeltaT0 w_norm0 a_norm0 m_norm0 rotAngle0 : qreal) : t :=
  {| gyroId := gyroId0;
     accId := accId0;
     magId := magId0;
     lastGyroTimestamp := 0%Z;
     lastAccTimestamp := 0%Z;
     lastMagTimestamp := 0%Z;
     gyroSilentCycles := 0%Z;
     accSilentCycles := 0%Z;
     magSilentCycles := 0%Z;
     filter :=
       set_errorCovPre Q0
         (set_statePost (colvec [1; 0; 0; 0])
            (set_statePre (colvec [1; 0; 0; 0]) filter0));
     startupTime := 1;
     R_g_startup := 1e-1;
     R_y_startup := 1e-3;
     R_g_k_0 := 1;
     R_g_k_w := 7.5;
     R_g_k_g := 10;
     R_y_k_0 := 10;
     R_y_k_w := 7.5;
     R_y_k_g := 10;
     R_y_k_n := 20;
     R_y_k_d := 15;
     magDataReady := false;
     m_norm_mean := -1;
     m_dip_angle_mean := -1;
     m_mean_alpha := 0.99;
     process := colvec [1; 0; 0; 0];
     statePreHistory := colvec [1; 0; 0; 0];
     statePostHistory := colvec [1; 0; 0; 0];
     observation := colvec [0; 0; 9.81; 0; 1; 0];
     predictedObservation := colvec [0; 0; 9.81; 0; 1; 0];
     Q := Q0;
     w := QVector3D.mk 0 0 0;
     w_norm := w_norm0;
     wDeltaT := wDeltaT0;
     a := QVector3D.mk 0 0 0;
     a_norm := a_norm0;
     m := QVector3D.mk 0 0 0;
     m_norm := m_norm0;
     rotAxis := QVector3D.mk 0 0 0;
     rotAngle := rotAngle0;
     out := [] |}.

Section Handlers.

(** [std::is_same<qreal, double>::value], line 35. *)
Variable qreal_is_double : bool.

(** The matrix inverse [correct] uses. *)
Variable invert : Mat -> Mat.

Definition EPSILON : qreal :=
  if qreal_is_double then DBL_EPSILON else FLT_EPSILON.

(** Lines 343-359. *)
Definition normalizeQuat (quat : Mat) : Mat :=
  let q0 := at_ quat 0 0 in
  let q1 := at_ quat 1 0 in
  let q2 := at_ quat 2 0 in
  let q3 := at_ quat 3 0 in
  let norm := sqrt (q0 * q0 + q1 * q1 + q2 * q2 + q3 * q3) in
  if Rlt_dec EPSILON norm then
    colvec [q0 / norm; q1 / norm; q2 / norm; q3 / norm]
  else
    colvec [1; 1; 1; 1].

(** Lines 361-378; the result is the pair of [prevQuat] and [quat] as the
    call leaves them. *)
Definition shortestPathQuat (prevQuat quat : Mat) : Mat * Mat :=
  let p k := at_ prevQuat k 0 in
  let q k := at_ quat k 0 in
  let quat :=
    if Rlt_dec (q 0%nat * p 0%nat + q 1%nat * p 1%nat
                + q 2%nat * p 2%nat + q 3%nat * p 3%nat) 0 then
      colvec [- q 0%nat; - q 1%nat; - q 2%nat; - q 3%nat]
    else
      quat in
  let prevQuat :=
    colvec [at_ quat 0 0; at_ quat 1 0; at_ quat 2 0; at_ quat 3 0] in
  (prevQuat, quat).

(** Lines 380-413.  The diagonal of the transition matrix is not
    assigned (the four assignments are commented out in the source). *)
Definition calculateProcess (s : t) : t :=
  let F := transitionMatrix (filter s) in
  let q0 := at_ (statePost (filter s)) 0 0 in
  let q1 := at_ (statePost (filter s)) 1 0 in
  let q2 := at_ (statePost (filter s)) 2 0 in
  let q3 := at_ (statePost (filter s)) 3 0 in
  let wx := QVector3D.x (w s) in
  let wy := QVector3D.y (w s) in
  let wz := QVector3D.z (w s) in
  let dT := wDeltaT s in
  let s := set_process
    (colvec [ q0 + 0.5 * dT * (- q1 * wx - q2 * wy - q3 * wz);
              q1 + 0.5 * dT * (q0 * wx - q3 * wy + q2 * wz);
              q2 + 0.5 * dT * (q3 * wx + q0 * wy - q1 * wz);
              q3 + 0.5 * dT * (- q2 * wx + q1 * wy + q0 * wz) ]) s in
  let s := set_process (normalizeQuat (process s)) s in
  let s := with_filter (set_transitionMatrix
    [ [at_ F 0 0;      - 0.5 * dT * wx;  - 0.5 * dT * wy;  - 0.5 * dT * wz];
      [0.5 * dT * wx;  at_ F 1 1;        0.5 * dT * wz;    - 0.5 * dT * wy];
      [0.5 * dT * wy;  - 0.5 * dT * wz;  at_ F 2 2;        0.5 * dT * wx];
      [0.5 * dT * wz;  0.5 * dT * wy;    - 0.5 * dT * wx;  at_ F 3 3] ]) s in
  with_filter (set_processNoiseCov (mscale (Q s) dT)) s.

(** Lines 415-536.  [acos] of [<cmath>] is NaN exactly when its argument
    is: the quotient [dot_m_z/m_norm] with [m_norm] zero, or a quotient
    outside [-1, 1]; these are the cases the [isnan] test catches. *)
Definition calculateObservation (s : t) : t :=
  let q0 := at_ (statePre (filter s)) 0 0 in
  let q1 := at_ (statePre (filter s)) 1 0 in
  let q2 := at_ (statePre (filter s)) 2 0 in
  let q3 := at_ (statePre (filter s)) 3 0 in
  let g := 9.81 in
  let R_DCM_z0 := 2 * (q1 * q3 - q0 * q2) in
  let R_DCM_z1 := 2 * (q2 * q3 + q0 * q1) in
  let R_DCM_z2 := q0 * q0 - q1 * q1 - q2 * q2 + q3 * q3 in
  let R_g := R_g_k_0 s + R_g_k_w s * w_norm s + R_g_k_g s * Rabs (g - a_norm s) in
  let ready := magDataReady s in
  let '(s, R_y) :=
    if ready then
      let mx := QVector3D.x (m s) in
      let my := QVector3D.y (m s) in
      let mz := QVector3D.z (m s) in
      let dot_m_z := mx * R_DCM_z0 + my * R_DCM_z1 + mz * R_DCM_z2 in
      let m_dip_angle :=
        if Req_dec_T (m_norm s) 0 then 0
        else if Rlt_dec 1 (Rabs (dot_m_z / m_norm s)) then 0
        else acos (dot_m_z / m_norm s) in
      let s :=
        if Rlt_dec (m_norm_mean s) 0 then set_m_norm_mean (m_norm s) s
        else set_m_norm_mean
               (m_mean_alpha s * m_norm_mean s + (1 - m_mean_alpha s) * m_norm s) s in
      let s :=
        if Rlt_dec (m_dip_angle_mean s) 0 then set_m_dip_angle_mean m_dip_angle s
        else set_m_dip_angle_mean
               (m_mean_alpha s * m_dip_angle_mean s
                + (1 - m_mean_alpha s) * m_dip_angle) s in
      let mx := mx - dot_m_z * R_DCM_z0 in
      let my := my - dot_m_z * R_DCM_z1 in
      let mz := mz - dot_m_z * R_DCM_z2 in
      let uy_norm := sqrt (mx * mx + my * my + mz * mz) in
      let '(mx, my, mz) :=
        if Rlt_dec EPSILON uy_norm
        then (mx / uy_norm, my / uy_norm, mz / uy_norm)
        else (mx, my, mz) in
      let s := set_observation
        (colvec [QVector3D.x (a s); QVector3D.y (a s); QVector3D.z (a s);
                 mx; my; mz]) s in
      let s := set_predictedObservation
        (colvec [R_DCM_z0 * g; R_DCM_z1 * g; R_DCM_z2 * g;
                 2 * (q1 * q2 + q0 * q3);
                 q0 * q0 - q1 * q1 + q2 * q2 - q3 * q3;
                 2 * (q2 * q3 - q0 * q1)]) s in
      (s, R_y_k_0 s + R_y_k_w s * w_norm s + R_y_k_g s * Rabs (g - a_norm s)
          + R_y_k_n s * Rabs (m_norm s - m_norm_mean s)
          + R_y_k_d s * Rabs (m_dip_angle - m_dip_angle_mean s))
    else
      let s := set_observation
        (colvec [QVector3D.x (a s); QVector3D.y (a s); QVector3D.z (a s);
                 0; 0; 0]) s in
      let s := set_predictedObservation
        (colvec [R_DCM_z0 * g; R_DCM_z1 * g; R_DCM_z2 * g; 0; 0; 0]) s in
      (s, 1) in
  let s := with_filter (set_observationMatrix
    ([ [- 2 * g * q2;  2 * g * q3;    - 2 * g * q0;  2 * g * q1];
       [2 * g * q1;    2 * g * q0;    2 * g * q3;    2 * g * q2];
       [2 * g * q0;    - 2 * g * q1;  - 2 * g * q2;  2 * g * q3] ]
     ++
     (if ready then
        [ [2 * q3;    2 * q2;    2 * q1;  2 * q0];
          [2 * q0;    - 2 * q1;  2 * q2;  - 2 * q3];
          [- 2 * q1;  - 2 * q0;  2 * q3;  2 * q2] ]
      else
        [ [0; 0; 0; 0]; [0; 0; 0; 0]; [0; 0; 0; 0] ]))) s in
  let diag (R : Mat) (r_g r_y : qreal) : Mat :=
    set_at (set_at (set_at (set_at (set_at (set_at R
      0 0 r_g) 1 1 r_g) 2 2 r_g) 3 3 r_y) 4 4 r_y) 5 5 r_y in
  let s :=
    if Rlt_dec 0 (startupTime s) then
      with_filter (fun f => set_observationNoiseCov
        (diag (observationNoiseCov f) (R_g_startup s) (R_y_startup s)) f) s
    else
      with_filter (fun f => set_observationNoiseCov
        (diag (observationNoiseCov f) R_g R_y) f) s in
  set_magDataReady false s.

(** Lines 546-563 of [calculateOutputRotation]: the health of the three
    sensors, once a gyroscope is known to be open. *)
Definition countSilentCycles (s : t) : t :=
  let s := set_gyroSilentCycles (gyroSilentCycles s + 1) s in
  let s :=
    if (1000 <? gyroSilentCycles s)%Z
    then emit (qDebug (GyroscopeSilent (gyroSilentCycles s))) s else s in
  let s :=
    if String.eqb (accId s) "" then
      emit (qDebug OperatingWithoutAccelerometer) s
    else
      let s := set_accSilentCycles (accSilentCycles s + 1) s in
      if (1000 <? accSilentCycles s)%Z
      then emit (qDebug (AccelerometerSilent (accSilentCycles s))) s else s in
  if String.eqb (magId s) "" then
    emit (qDebug OperatingWithoutMagnetometer) s
  else
    let s := set_magSilentCycles (magSilentCycles s + 1) s in
    if (1000 <? magSilentCycles s)%Z
    then emit (qDebug (MagnetometerSilent (magSilentCycles s))) s else s.

(** Lines 570-585 of [calculateOutputRotation]: the a posteriori
    quaternion as an axis and an angle. *)
Definition axisAngle (s : t) : t :=
  let q1 := at_ (statePost (filter s)) 1 0 in
  let q2 := at_ (statePost (filter s)) 2 0 in
  let q3 := at_ (statePost (filter s)) 3 0 in
  let rotAngle := sqrt (q1 * q1 + q2 * q2 + q3 * q3) in
  let rotAngle := 2 * atan2 rotAngle (at_ (statePost (filter s)) 0 0) in
  if Rlt_dec rotAngle EPSILON then
    set_rotAngle 0 (set_rotAxis (QVector3D.mk 0 0 0) s)
  else
    let sTheta2 := sin (rotAngle / 2) in
    set_rotAngle (qRadiansToDegrees rotAngle)
      (set_rotAxis (QVector3D.mk (q1 * sTheta2) (q2 * sTheta2) (q3 * sTheta2)) s).

(** Lines 538-588. *)
Definition calculateOutputRotation (s : t) : t :=
  if String.eqb (gyroId s) "" then
    emit (qDebug CannotOperateWithoutGyroscope) s
  else
    let s := countSilentCycles s in
    if Rlt_dec 0 (startupTime s) then s
    else emit rotationChanged (axisAngle s).

(** *** Sample handlers *)

(** Lines 260-272 of [gyroReadingChanged]: the bookkeeping of an accepted
    gyroscope reading, before the process model is evaluated. *)
Definition gyroInputs (r : QSensorReading.t) (s : t) : t :=
  let s := set_gyroSilentCycles 0%Z s in
  let s :=
    if Rlt_dec 0 (startupTime s) then
      let s := set_startupTime (startupTime s - wDeltaT s) s in
      if Rlt_dec (startupTime s) 0 then emit (qDebug StartupIsOver) s else s
    else s in
  let s := set_w (QVector3D.mk (qDegreesToRadians (QSensorReading.x r))
                               (qDegreesToRadians (QSensorReading.y r))
                               (qDegreesToRadians (QSensorReading.z r))) s in
  set_w_norm (QVector3D.length (w s)) s.

(** Lines 278-287 of [gyroReadingChanged]: prediction, normalisation and
    sign alignment of the a priori state, and its copy to the a
    posteriori state. *)
Definition gyroPredict (s : t) : t :=
  let s := with_filter (fun f => predict f (process s)) s in
  let s := with_filter (fun f => set_statePre (normalizeQuat (statePre f)) f) s in
  let pq := shortestPathQuat (statePreHistory s) (statePre (filter s)) in
  let s := set_statePreHistory (fst pq) s in
  let s := with_filter (set_statePre (snd pq)) s in
  with_filter (fun f => set_statePost (statePre f) f) s.

(** Lines 253-294. *)
Definition gyroReadingChanged (r : QSensorReading.t) (s : t) : t :=
  let timestamp := QSensorReading.timestamp r in
  let s :=
    if (0 <? lastGyroTimestamp s)%Z then
      let s := set_wDeltaT (elapsed timestamp (lastGyroTimestamp s)) s in
      if Rlt_dec 0 (wDeltaT s) then
        calculateOutputRotation
          (gyroPredict (calculateProcess (gyroInputs r s)))
      else s
    else s in
  set_lastGyroTimestamp timestamp s.

(** Lines 313-319 of [accReadingChanged]: correction, normalisation and
    sign alignment of the a posteriori state. *)
Definition accCorrect (s : t) : t :=
  let s := with_filter
    (fun f => correct invert f (observation s) (predictedObservation s)) s in
  let s := with_filter (fun f => set_statePost (normalizeQuat (statePost f)) f) s in
  let pq := shortestPathQuat (statePostHistory s) (statePost (filter s)) in
  let s := set_statePostHistory (fst pq) s in
  with_filter (set_statePost (snd pq)) s.

(** Lines 296-325. *)
Definition accReadingChanged (r : QSensorReading.t) (s : t) : t :=
  let timestamp := QSensorReading.timestamp r in
  let s :=
    if (0 <? lastAccTimestamp s)%Z then
      if Rlt_dec 0 (elapsed timestamp (lastAccTimestamp s)) then
        let s := set_accSilentCycles 0%Z s in
        let s := set_a (QVector3D.mk (QSensorReading.x r) (QSensorReading.y r)
                                     (QSensorReading.z r)) s in
        let s := set_a_norm (QVector3D.length (a s)) s in
        calculateOutputRotation (accCorrect (calculateObservation s))
      else s
    else s in
  set_lastAccTimestamp timestamp s.

(** Lines 327-341. *)
Definition magReadingChanged (r : QSensorReading.t) (s : t) : t :=
  let timestamp := QSensorReading.timestamp r in
  let s :=
    if (0 <? lastMagTimestamp s)%Z then
      if Rlt_dec 0 (elapsed timestamp (lastMagTimestamp s)) then
        let s := set_magSilentCycles 0%Z s in
        let s := set_m (QVector3D.mk (QSensorReading.x r * 1000000)
                                     (QSensorReading.y r * 1000000)
                                     (QSensorReading.z r * 1000000)) s in
        let s := set_m_norm (QVector3D.length (m s)) s in
        set_magDataReady true s
      else s
    else s in
  set_lastMagTimestamp timestamp s.

(** [getRotAxis] and [getRotAngle], lines 590-598. *)
Definition getRotAxis (s : t) : QVector3D.t := rotAxis s.
Definition getRotAngle (s : t) : qreal := rotAngle s.

(** *** Sample streams *)

(** A reading delivered by one of the three sensors ([readingChanged]
    connected in [openGyro], [openAcc] and [openMag]). *)
Inductive Event :=
| GyroReading (r : QSensorReading.t)
| AccReading (r : QSensorReading.t)
| MagReading (r : QSensorReading.t).

Definition step (s : t) (e : Event) : t :=
  match e with
  | GyroReading r => gyroReadingChanged r s
  | AccReading r => accReadingChanged r s
  | MagReading r => magReadingChanged r s
  end.

(** The handlers run to completion, one event after the other. *)
Definition run (s : t) (events : list Event) : t := fold_left step events s.

(** The tests that guard the three handlers. *)
Definition gyroAccepted (r : QSensorReading.t) (s : t) : Prop :=
  (0 < lastGyroTimestamp s)%Z
  /\ 0 < elapsed (QSensorReading.timestamp r) (lastGyroTimestamp s).

Definition accAccepted (r : QSensorReading.t) (s : t) : Prop :=
  (0 < lastAccTimestamp s)%Z
  /\ 0 < elapsed (QSensorReading.timestamp r) (lastAccTimestamp s).

Definition magAccepted (r : QSensorReading.t) (s : t) : Prop :=
  (0 < lastMagTimestamp s)%Z
  /\ 0 < elapsed (QSensorReading.timestamp r) (lastMagTimestamp s).

(** A stream of events none of whose gyroscope (accelerometer) readings
    passes the guard of its handler. *)
Fixpoint gyroQuiet (s : t) (events : list Event) : Prop :=
  match events with
  | [] => True
  | e :: events' =>
      match e with GyroReading r => ~ gyroAccepted r s | _ => True end
      /\ gyroQuiet (step s e) events'
  end.

Fixpoint accQuiet (s : t) (events : list Event) : Prop :=
  match events with
  | [] => True
  | e :: events' =>
      match e with AccReading r => ~ accAccepted r s | _ => True end
      /\ accQuiet (step s e) events'
  end.

(** How often [rotationChanged] was emitted. *)
Definition emitted (s : t) : nat :=
  List.length (List.filter (fun o => match o with rotationChanged => true | _ => false end)
                      (out s)).

(** *** A device, for the examples

    A phone with a gyroscope and an accelerometer over a kernel whose
    transition matrix starts as the identity, and a few readings. *)

Definition zeros (rows cols : nat) : Mat := repeat (repeat 0 cols) rows.

Definition exampleKernel : KalmanFilter.t :=
  {| statePre := zeros 4 1;
     statePost := zeros 4 1;
     transitionMatrix := eye 4;
     processNoiseCov := eye 4;
     observationMatrix := zeros 6 4;
     observationNoiseCov := eye 6;
     errorCovPre := zeros 4 4;
     errorCovPost := zeros 4 4 |}.

Definition exampleDevice : t :=
  new "gyroscope" "accelerometer" "" exampleKernel 0 0 0 0 0.

Definition reading (ts : quint64) (x y z : qreal) : QSensorReading.t :=
  QSensorReading.mk ts x y z.

(** The device after a first gyroscope reading at 1000 us ... *)
Definition exampleStarted : t :=
  gyroReadingChanged (reading 1000 0 0 0) exampleDevice.

(** ... and after a second one, a second later, turning about x. *)
Definition exampleTurned : t :=
  gyroReadingChanged (reading 1001000 90 0 0) exampleStarted.

(** The state in which that second reading calls
    [calculateOutputRotation]. *)
Definition exampleTurning : t :=
  gyroPredict (calculateProcess
    (gyroInputs (reading 1001000 90 0 0) (set_wDeltaT 1 exampleStarted))).

(** The device after a first gyroscope reading at 2000 us. *)
Definition exampleLate : t :=
  gyroReadingChanged (reading 2000 0 0 0) exampleDevice.

(** The device lying flat, after a first accelerometer reading at
    1000 us. *)
Definition exampleFlat : t :=
  accReadingChanged (reading 1000 0 0 9.81) exampleDevice.

(** The same device when the memory in which it is constructed holds 90
    where [rotAngle] comes to lie. *)
Definition exampleUnassigned : t :=
  new "gyroscope" "accelerometer" "" exampleKernel 0 0 0 0 90.

(** *** Views of the state, for the statements below *)

(** The a priori and the a posteriori quaternion of the kernel, and its
    transition matrix. *)
Definition prior (s : t) : Mat := statePre (filter s).
Definition posterior (s : t) : Mat := statePost (filter s).
Definition transition (s : t) : Mat := transitionMatrix (filter s).

Definition unitDiagonal (F : Mat) : Prop :=
  at_ F 0 0 = 1 /\ at_ F 1 1 = 1 /\ at_ F 2 2 = 1 /\ at_ F 3 3 = 1.

(** The norm of the vector part of a quaternion and its angle, as
    [axisAngle] computes them. *)
Definition vectorNorm (q : Mat) : qreal :=
  sqrt (at_ q 1 0 * at_ q 1 0 + at_ q 2 0 * at_ q 2 0 + at_ q 3 0 * at_ q 3 0).

Definition angleOf (q : Mat) : qreal := 2 * atan2 (vectorNorm q) (at_ q 0 0).

(** What a handler never writes: the sensor identifiers and [Q]. *)
Definition configuration (s : t) : string * string * string * Mat :=
  (gyroId s, accId s, magId s, Q s).

(** What is published: the rotation and the [rotationChanged] count. *)
Definition published (s : t) : QVector3D.t * qreal * nat :=
  (rotAxis s, rotAngle s, emitted s).

(** *** The state with some members blanked out

    One function for each stage of a handler: it blanks the members that
    the stage may write, so that "the stage writes nothing else" is the
    equation [forget (stage s) = forget s]. *)

Definition forget_counters (s : t) : t :=
  set_out [] (set_magSilentCycles 0%Z (set_accSilentCycles 0%Z
    (set_gyroSilentCycles 0%Z s))).

Definition forget_rotation (s : t) : t :=
  set_rotAngle 0 (set_rotAxis (QVector3D.mk 0 0 0) s).

Definition forget_output (s : t) : t :=
  forget_rotation (forget_counters s).

Definition forget_inputs (s : t) : t :=
  set_out [] (set_w_norm 0 (set_w (QVector3D.mk 0 0 0)
    (set_startupTime 0 (set_gyroSilentCycles 0%Z s)))).

Definition forget_process (s : t) : t :=
  set_process []
    (with_filter (fun f => set_processNoiseCov [] (set_transitionMatrix [] f)) s).

Definition forget_prior (s : t) : t :=
  set_statePreHistory []
    (with_filter (fun f =>
       set_errorCovPre [] (set_statePost [] (set_statePre [] f))) s).

Definition forget_posterior (s : t) : t :=
  set_statePostHistory []
    (with_filter (fun f => set_errorCovPost [] (set_statePost [] f)) s).

Definition forget_observation (s : t) : t :=
  set_magDataReady false (set_predictedObservation [] (set_observation []
    (set_m_dip_angle_mean 0 (set_m_norm_mean 0
      (with_filter (fun f =>
         set_observationNoiseCov [] (set_observationMatrix [] f)) s))))).

Definition forget_stamps (s : t) : t :=
  set_lastMagTimestamp 0%Z (set_lastAccTimestamp 0%Z
    (set_lastGyroTimestamp 0%Z s)).

(** *** What [calculateObservation] computes, block by block *)

Definition dot3 (u v : QVector3D.t) : qreal :=
  QVector3D.x u * QVector3D.x v + QVector3D.y u * QVector3D.y v
  + QVector3D.z u * QVector3D.z v.

(** Line 433. *)
Definition gravity : qreal := 9.81.

(** Lines 434-436: the direction of the floor normal in the body frame
    (the third row of the rotation matrix of the quaternion [q]). *)
Definition R_DCM_z (q : Mat) : QVector3D.t :=
  let q0 := at_ q 0 0 in
  let q1 := at_ q 1 0 in
  let q2 := at_ q 2 0 in
  let q3 := at_ q 3 0 in
  QVector3D.mk (2 * (q1 * q3 - q0 * q2)) (2 * (q2 * q3 + q0 * q1))
    (q0 * q0 - q1 * q1 - q2 * q2 + q3 * q3).

(** Lines 483-485: the direction that the magnetometer is predicted to
    see once its vertical component is removed. *)
Definition R_DCM_y (q : Mat) : QVector3D.t :=
  let q0 := at_ q 0 0 in
  let q1 := at_ q 1 0 in
  let q2 := at_ q 2 0 in
  let q3 := at_ q 3 0 in
  QVector3D.mk (2 * (q1 * q2 + q0 * q3)) (q0 * q0 - q1 * q1 + q2 * q2 - q3 * q3)
    (2 * (q2 * q3 - q0 * q1)).

(** Line 454. *)
Definition dot_m_z (s : t) : qreal := dot3 (m s) (R_DCM_z (prior s)).

(** Lines 456-458. *)
Definition m_dip_angle (s : t) : qreal :=
  if Req_dec_T (m_norm s) 0 then 0
  else if Rlt_dec 1 (Rabs (dot_m_z s / m_norm s)) then 0
  else acos (dot_m_z s / m_norm s).

(** Lines 460-463 and 465-468: the two running means after the update. *)
Definition next_m_norm_mean (s : t) : qreal :=
  if Rlt_dec (m_norm_mean s) 0 then m_norm s
  else m_mean_alpha s * m_norm_mean s + (1 - m_mean_alpha s) * m_norm s.

Definition next_m_dip_angle_mean (s : t) : qreal :=
  if Rlt_dec (m_dip_angle_mean s) 0 then m_dip_angle s
  else m_mean_alpha s * m_dip_angle_mean s
       + (1 - m_mean_alpha s) * m_dip_angle s.

(** Lines 470-472: the magnetometer vector less its component along
    [R_DCM_z]. *)
Definition rejected (s : t) : QVector3D.t :=
  QVector3D.mk
    (QVector3D.x (m s) - dot_m_z s * QVector3D.x (R_DCM_z (prior s)))
    (QVector3D.y (m s) - dot_m_z s * QVector3D.y (R_DCM_z (prior s)))
    (QVector3D.z (m s) - dot_m_z s * QVector3D.z (R_DCM_z (prior s))).

(** Lines 473-478. *)
Definition uy (s : t) : QVector3D.t :=
  if Rlt_dec EPSILON (QVector3D.length (rejected s)) then
    QVector3D.mk
      (QVector3D.x (rejected s) / QVector3D.length (rejected s))
      (QVector3D.y (rejected s) / QVector3D.length (rejected s))
      (QVector3D.z (rejected s) / QVector3D.length (rejected s))
  else rejected s.

(** Lines 445 and 487-488; the second reads the means already updated. *)
Definition R_g (s : t) : qreal :=
  R_g_k_0 s + R_g_k_w s * w_norm s + R_g_k_g s * Rabs (gravity - a_norm s).

Definition R_y (s : t) : qreal :=
  R_y_k_0 s + R_y_k_w s * w_norm s + R_y_k_g s * Rabs (gravity - a_norm s)
  + R_y_k_n s * Rabs (m_norm s - next_m_norm_mean s)
  + R_y_k_d s * Rabs (m_dip_angle s - next_m_dip_angle_mean s).

(** Lines 502-508: the six rows of the observation matrix at [q]. *)
Definition H_g (q : Mat) : Mat :=
  let q0 := at_ q 0 0 in
  let q1 := at_ q 1 0 in
  let q2 := at_ q 2 0 in
  let q3 := at_ q 3 0 in
  [ [- 2 * gravity * q2;  2 * gravity * q3;    - 2 * gravity * q0;  2 * gravity * q1];
    [2 * gravity * q1;    2 * gravity * q0;    2 * gravity * q3;    2 * gravity * q2];
    [2 * gravity * q0;    - 2 * gravity * q1;  - 2 * gravity * q2;  2 * gravity * q3] ].

Definition H_y (q : Mat) : Mat :=
  let q0 := at_ q 0 0 in
  let q1 := at_ q 1 0 in
  let q2 := at_ q 2 0 in
  let q3 := at_ q 3 0 in
  [ [2 * q3;    2 * q2;    2 * q1;  2 * q0];
    [2 * q0;    - 2 * q1;  2 * q2;  - 2 * q3];
    [- 2 * q1;  - 2 * q0;  2 * q3;  2 * q2] ].

(** Lines 518-531: the six diagonal entries that are assigned. *)
Definition noiseDiagonal (R : Mat) (r_g r_y : qreal) : Mat :=
  set_at (set_at (set_at (set_at (set_at (set_at R
    0 0 r_g) 1 1 r_g) 2 2 r_g) 3 3 r_y) 4 4 r_y) 5 5 r_y.

(** The vector of three components as the rows of a column. *)
Definition rows3 (v : QVector3D.t) : list qreal :=
  [QVector3D.x v; QVector3D.y v; QVector3D.z v].

Definition scale3 (k : qreal) (v : QVector3D.t) : QVector3D.t :=
  QVector3D.mk (QVector3D.x v * k) (QVector3D.y v * k) (QVector3D.z v * k).

(** *** Counting over a stream *)

(** Whether the handler of [e] reaches its call of
    [calculateOutputRotation] from the state [s] (lines 257-259 and
    300-301; the magnetometer handler has no such call). *)
Definition publishing (s : t) (e : Event) : bool :=
  match e with
  | GyroReading r =>
      (0 <? lastGyroTimestamp s)%Z
      && (if Rlt_dec 0 (elapsed (QSensorReading.timestamp r) (lastGyroTimestamp s))
          then true else false)
  | AccReading r =>
      (0 <? lastAccTimestamp s)%Z
      && (if Rlt_dec 0 (elapsed (QSensorReading.timestamp r) (lastAccTimestamp s))
          then true else false)
  | MagReading _ => false
  end.

Fixpoint publishes (s : t) (events : list Event) : nat :=
  match events with
  | [] => 0
  | e :: events' =>
      ((if publishing s e then 1 else 0) + publishes (step s e) events')%nat
  end.

(** How many times "Startup is over" was written. *)
Definition startupLines (s : t) : nat :=
  List.length
    (List.filter
       (fun o => match o with qDebug StartupIsOver => true | _ => false end)
       (out s)).

(** *** More views of the kernel *)

Definition observationModel (s : t) : Mat := observationMatrix (filter s).
Definition observationNoise (s : t) : Mat := observationNoiseCov (filter s).
Definition priorCov (s : t) : Mat := errorCovPre (filter s).
Definition processNoise (s : t) : Mat := processNoiseCov (filter s).

(** The state with the a priori quaternion replaced. *)
Definition with_prior (q : Mat) (s : t) : t := with_filter (set_statePre q) s.

(** Lines 302-306 of [accReadingChanged]: the bookkeeping of an accepted
    accelerometer reading, before the observation model is evaluated. *)
Definition accInputs (r : QSensorReading.t) (s : t) : t :=
  set_a_norm
    (QVector3D.length
       (QVector3D.mk (QSensorReading.x r) (QSensorReading.y r)
          (QSensorReading.z r)))
    (set_a (QVector3D.mk (QSensorReading.x r) (QSensorReading.y r)
              (QSensorReading.z r))
       (set_accSilentCycles 0%Z s)).

(** The coefficients of the observation noise, which the constructor
    sets (lines 53-62). *)
Definition coefficients (s : t) : list qreal :=
  [R_g_startup s; R_y_startup s; R_g_k_0 s; R_g_k_w s; R_g_k_g s;
   R_y_k_0 s; R_y_k_w s; R_y_k_g s; R_y_k_n s; R_y_k_d s].

(** *** Opening the gyroscope

    [openGyro] and [setGyroId] (lines 111-137 and 196-213) work on the
    sensor handle [gyro], which the record of the estimator leaves out,
    and on what the Qt backend answers.  [openAcc], [openMag],
    [setAccId] and [setMagId] are the same text with the names of the
    other two sensors. *)

(** [gyroId = v] *)
Definition set_gyroId (v : string) (s : t) : t :=
  ltac:(set_field eta gyroId v s).

(** What the member [gyro] points to: nothing, a sensor object, or a
    sensor object that has been deleted. *)
Inductive Pointer :=
| nullptr
| sensor (id : string)
| deleted (id : string).

(** [delete p]: undefined ([None]) on an object already deleted. *)
Definition delete (p : Pointer) : option Pointer :=
  match p with
  | nullptr => Some nullptr
  | sensor id => Some (deleted id)
  | deleted _ => None
  end.

(** The signal and the lines of [openGyro] and [setGyroId]. *)
Inductive OpenOutput :=
| gyroIdChanged
| OpenedGyroscope (id : string)
| CouldNotOpenGyroscope (id : string)
| GyroscopeNotFound (newId : string).

(** The estimator with its gyroscope handle. *)
Record Device := mkDevice {
  imu : t;
  gyro : Pointer;
  opening : list OpenOutput
}.

(** What the backend answers for the sensor with a given identifier. *)
Record Backend := mkBackend {
  connectToBackend : string -> bool;
  start : string -> bool
}.

(** Lines 111-137.  [newGyro] is a fresh object; once [gyro = newGyro]
    the two names are one object, so that the [delete newGyro] of a
    failed start deletes what [gyro] points to. *)
Definition openGyro (backend : Backend) (id : string) (d : Device)
  : option (bool * Device) :=
  if connectToBackend backend id then
    let d := mkDevice (set_gyroId id (imu d)) (gyro d) (opening d) in
    let d := mkDevice (imu d) (gyro d) (gyroIdChanged :: opening d) in
    match delete (gyro d) with
    | None => None
    | Some _ =>
        let d := mkDevice (imu d) (sensor id) (opening d) in
        if start backend id then
          Some (true,
                mkDevice (imu d) (gyro d) (OpenedGyroscope id :: opening d))
        else
          let d := mkDevice (imu d) (gyro d)
                     (CouldNotOpenGyroscope id :: opening d) in
          match delete (gyro d) with
          | None => None
          | Some p => Some (false, mkDevice (imu d) p (opening d))
          end
    end
  else
    Some (false,
          mkDevice (imu d) (gyro d) (CouldNotOpenGyroscope id :: opening d)).

(** Lines 196-199. *)
Definition getGyroId (d : Device) : string := gyroId (imu d).

(** Lines 201-213; [sensors] is [QSensor::sensorsForType("QGyroscope")]. *)
Definition setGyroId (backend : Backend) (sensors : list string)
    (newId : string) (d : Device) : option Device :=
  if String.eqb newId (gyroId (imu d)) then Some d
  else
    match List.find (fun id => String.eqb id newId) sensors with
    | Some id =>
        match openGyro backend id d with
        | Some (_, d) => Some d
        | None => None
        end
    | None =>
        Some (mkDevice (imu d) (gyro d) (GyroscopeNotFound newId :: opening d))
    end.

(** The example device with no gyroscope object yet, a backend whose
    sensors connect and do not start, and the device after [openGyro]
    has failed on such a sensor. *)
Definition examplePhone : Device := mkDevice exampleDevice nullptr [].

Definition exampleBackend : Backend :=
  mkBackend (fun _ => true) (fun _ => false).

Definition exampleFailed : Device :=
  mkDevice (set_gyroId "gyro" exampleDevice) (deleted "gyro")
    [CouldNotOpenGyroscope "gyro"; gyroIdChanged].

(** ** Properties *)

(** *** The sine and the range of [atan2] *)

Lemma sqrt_ratio (x y : R) :
  x <> 0 -> sqrt (1 + (y / x)²) = sqrt (x * x + y * y) / Rabs x.
Proof.
  intros Hx.
  assert (Hax : 0 < Rabs x) by (apply Rabs_pos_lt; exact Hx).
  replace (1 + (y / x)²) with ((x * x + y * y) / (Rabs x * Rabs x)).
  - rewrite sqrt_div_alt by nra.
    rewrite sqrt_square by lra. reflexivity.
  - unfold Rsqr. 
    replace (Rabs x * Rabs x) with (x * x).
    + field. exact Hx.
    + unfold Rabs. destruct (Rcase_abs x); ring.
Qed.

Lemma sin_atan2 (y x : R) :
  0 <= y -> x <> 0 \/ 0 < y ->
  sin (atan2 y x) = y / sqrt (x * x + y * y).
Proof.
  intros Hy Hxy. unfold atan2.
  assert (Hpos : 0 < sqrt (x * x + y * y)) by (apply sqrt_lt_R0; nra).
  destruct (Rlt_dec 0 x) as [Hx|Hx].
  - rewrite sin_atan, sqrt_ratio by lra.
    rewrite Rabs_pos_eq by lra. field. lra.
  - destruct (Rlt_dec x 0) as [Hx'|Hx'].
    + destruct (Rle_dec 0 y) as [_|Hc]; [|lra].
      rewrite neg_sin, sin_atan, sqrt_ratio by lra.
      rewrite Rabs_left by lra. field. lra.
    + assert (x = 0) by lra. subst x.
      destruct (Rlt_dec 0 y) as [Hy'|Hy']; [|lra].
      rewrite sin_PI2.
      replace (0 * 0 + y * y) with (y * y) by ring.
      rewrite sqrt_square by lra. field. lra.
Qed.

Lemma atan2_nonneg (y x : R) : 0 <= y -> 0 <= atan2 y x <= PI.
Proof.
  intros Hy. unfold atan2.
  pose proof PI_RGT_0 as Hpi.
  destruct (Rlt_dec 0 x) as [Hx|Hx].
  - pose proof (atan_bound (y / x)).
    assert (0 <= y / x) by (apply Rle_mult_inv_pos; lra).
    destruct (Req_dec (y / x) 0) as [E|E].
    + rewrite E, atan_0. lra.
    + pose proof (atan_increasing 0 (y / x)). rewrite atan_0 in *. lra.
  - destruct (Rlt_dec x 0) as [Hx'|Hx'].
    + destruct (Rle_dec 0 y) as [_|Hc]; [|lra].
      pose proof (atan_bound (y / x)).
      assert (y / x <= 0).
      { unfold Rdiv. assert (/ x < 0) by (apply Rinv_lt_0_compat; lra). nra. }
      destruct (Req_dec (y / x) 0) as [E|E].
      * rewrite E, atan_0. lra.
      * pose proof (atan_increasing (y / x) 0). rewrite atan_0 in *. lra.
    + destruct (Rlt_dec 0 y); [lra|].
      destruct (Rlt_dec y 0); lra.
Qed.

(** *** Stepping through a stage

    A stage is a chain of [let]-bound states and tests.  [step] names
    the next state of the chain (keeping its defining equation) or splits
    on the test in front, so that a goal about [stage s] is reduced to
    one goal per path through the stage. *)

Ltac name_state e k :=
  let y := fresh "s" in
  let Hy := fresh "E" y in
  pose (y := e); k y; assert (Hy : y = e) by reflexivity; clearbody y.

Ltac step :=
  lazymatch goal with
  | |- context [let x := (if ?c then _ else _) in _] => destruct c eqn:?
  | |- context C [let x := (let z := ?e in @?A z) in @?B x] =>
      name_state e ltac:(fun y =>
        let g := context C [let x := A y in B x] in change g; cbv beta)
  | |- context C [let x := ?e in @?B x] =>
      name_state e ltac:(fun y =>
        let g := context C [B y] in change g; cbv beta)
  | |- context [if ?c then _ else _] => destruct c eqn:?
  | |- context [match (_, _) with pair _ _ => _ end] => cbv beta iota
  end.

Ltac open_def f := cbv delta [f]; cbv beta.

Ltac paths f := open_def f; repeat step; subst.

(** A path that contradicts what is known about the tests. *)
Ltac absurd_path :=
  exfalso;
  match goal with
  | H : ~ ?P, H' : ?Q |- _ => apply H; exact H'
  | H : ?a <> ?b, E : String.eqb _ _ = true |- _ =>
      apply String.eqb_eq in E; apply H; exact E
  | H : ?a = ?b, E : String.eqb _ _ = false |- _ =>
      apply String.eqb_neq in E; apply E; exact H
  end.

(** *** What each stage leaves alone

    For every stage, the state with the members the stage may write
    blanked out is the same before and after. *)

Lemma countSilentCycles_frame (s : t) :
  forget_counters (countSilentCycles s) = forget_counters s.
Proof. paths countSilentCycles; reflexivity. Qed.

Lemma axisAngle_frame (s : t) :
  forget_rotation (axisAngle s) = forget_rotation s.
Proof. paths axisAngle; reflexivity. Qed.

Lemma calculateOutputRotation_frame (s : t) :
  forget_output (calculateOutputRotation s) = forget_output s.
Proof.
  open_def calculateOutputRotation.
  destruct (String.eqb (gyroId s) ""); [reflexivity|].
  cbv zeta.
  assert (H : forget_output (countSilentCycles s) = forget_output s).
  { unfold forget_output. rewrite countSilentCycles_frame. reflexivity. }
  destruct (Rlt_dec 0 _); [exact H|].
  rewrite <- H.
  change (forget_output (emit rotationChanged (axisAngle (countSilentCycles s))))
    with (forget_counters (forget_rotation (axisAngle (countSilentCycles s)))).
  rewrite axisAngle_frame. reflexivity.
Qed.

Lemma gyroInputs_frame (r : QSensorReading.t) (s : t) :
  forget_inputs (gyroInputs r s) = forget_inputs s.
Proof. paths gyroInputs; reflexivity. Qed.

Lemma calculateProcess_frame (s : t) :
  forget_process (calculateProcess s) = forget_process s.
Proof. reflexivity. Qed.

Lemma gyroPredict_frame (s : t) :
  forget_prior (gyroPredict s) = forget_prior s.
Proof. reflexivity. Qed.

Lemma accCorrect_frame (s : t) :
  forget_posterior (accCorrect s) = forget_posterior s.
Proof. reflexivity. Qed.

Lemma calculateObservation_frame (s : t) :
  forget_observation (calculateObservation s) = forget_observation s.
Proof. paths calculateObservation; reflexivity. Qed.

(** A member that survives the blanking is left alone by the stage. *)
Section Keeps.
Context {A : Type} (p : t -> A).

Lemma countSilentCycles_keeps :
  (forall s, p (forget_counters s) = p s) ->
  forall s, p (countSilentCycles s) = p s.
Proof.
  intros H s. rewrite <- (H (countSilentCycles s)), countSilentCycles_frame.
  apply H.
Qed.

Lemma axisAngle_keeps :
  (forall s, p (forget_rotation s) = p s) ->
  forall s, p (axisAngle s) = p s.
Proof.
  intros H s. rewrite <- (H (axisAngle s)), axisAngle_frame. apply H.
Qed.

Lemma calculateOutputRotation_keeps :
  (forall s, p (forget_output s) = p s) ->
  forall s, p (calculateOutputRotation s) = p s.
Proof.
  intros H s.
  rewrite <- (H (calculateOutputRotation s)), calculateOutputRotation_frame.
  apply H.
Qed.

Lemma gyroInputs_keeps :
  (forall s, p (forget_inputs s) = p s) ->
  forall r s, p (gyroInputs r s) = p s.
Proof.
  intros H r s. rewrite <- (H (gyroInputs r s)), gyroInputs_frame. apply H.
Qed.

Lemma calculateProcess_keeps :
  (forall s, p (forget_process s) = p s) ->
  forall s, p (calculateProcess s) = p s.
Proof.
  intros H s. rewrite <- (H (calculateProcess s)), calculateProcess_frame.
  apply H.
Qed.

Lemma gyroPredict_keeps :
  (forall s, p (forget_prior s) = p s) ->
  forall s, p (gyroPredict s) = p s.
Proof.
  intros H s. rewrite <- (H (gyroPredict s)), gyroPredict_frame. apply H.
Qed.

Lemma accCorrect_keeps :
  (forall s, p (forget_posterior s) = p s) ->
  forall s, p (accCorrect s) = p s.
Proof.
  intros H s. rewrite <- (H (accCorrect s)), accCorrect_frame. apply H.
Qed.

Lemma calculateObservation_keeps :
  (forall s, p (forget_observation s) = p s) ->
  forall s, p (calculateObservation s) = p s.
Proof.
  intros H s.
  rewrite <- (H (calculateObservation s)), calculateObservation_frame.
  apply H.
Qed.

End Keeps.

(** [kept p] removes the outermost stage under the member [p], which
    the stage leaves alone: [p (stage x)] becomes [p x]. *)
Ltac kept_at p :=
  match goal with
  | |- context [p (calculateOutputRotation ?y)] =>
      rewrite (calculateOutputRotation_keeps p (fun _ => eq_refl) y)
  | |- context [p (countSilentCycles ?y)] =>
      rewrite (countSilentCycles_keeps p (fun _ => eq_refl) y)
  | |- context [p (axisAngle ?y)] =>
      rewrite (axisAngle_keeps p (fun _ => eq_refl) y)
  | |- context [p (gyroPredict ?y)] =>
      rewrite (gyroPredict_keeps p (fun _ => eq_refl) y)
  | |- context [p (calculateProcess ?y)] =>
      rewrite (calculateProcess_keeps p (fun _ => eq_refl) y)
  | |- context [p (gyroInputs ?r ?y)] =>
      rewrite (gyroInputs_keeps p (fun _ => eq_refl) r y)
  | |- context [p (accCorrect ?y)] =>
      rewrite (accCorrect_keeps p (fun _ => eq_refl) y)
  | |- context [p (calculateObservation ?y)] =>
      rewrite (calculateObservation_keeps p (fun _ => eq_refl) y)
  end.

Tactic Notation "kept" constr(p) := kept_at p.

(** *** The three paths through each handler *)

Lemma gyroReadingChanged_first (r : QSensorReading.t) (s : t) :
  (lastGyroTimestamp s <= 0)%Z ->
  gyroReadingChanged r s = set_lastGyroTimestamp (QSensorReading.timestamp r) s.
Proof.
  intros H. open_def gyroReadingChanged.
  destruct (Z.ltb_spec 0 (lastGyroTimestamp s)); [lia | reflexivity].
Qed.

Lemma gyroReadingChanged_stale (r : QSensorReading.t) (s : t) :
  (0 < lastGyroTimestamp s)%Z ->
  ~ 0 < elapsed (QSensorReading.timestamp r) (lastGyroTimestamp s) ->
  gyroReadingChanged r s =
  set_lastGyroTimestamp (QSensorReading.timestamp r)
    (set_wDeltaT (elapsed (QSensorReading.timestamp r) (lastGyroTimestamp s)) s).
Proof.
  intros H1 H2. open_def gyroReadingChanged.
  destruct (Z.ltb_spec 0 (lastGyroTimestamp s)); [|lia].
  cbv zeta.
  destruct (Rlt_dec 0 _) as [H3|H3]; [|reflexivity].
  exfalso. apply H2. exact H3.
Qed.

Lemma gyroReadingChanged_accepted (r : QSensorReading.t) (s : t) :
  gyroAccepted r s ->
  gyroReadingChanged r s =
  set_lastGyroTimestamp (QSensorReading.timestamp r)
    (calculateOutputRotation (gyroPredict (calculateProcess (gyroInputs r
      (set_wDeltaT (elapsed (QSensorReading.timestamp r) (lastGyroTimestamp s)) s))))).
Proof.
  intros [H1 H2]. open_def gyroReadingChanged.
  destruct (Z.ltb_spec 0 (lastGyroTimestamp s)); [|lia].
  cbv zeta.
  destruct (Rlt_dec 0 _) as [H3|H3]; [reflexivity|].
  exfalso. apply H3. exact H2.
Qed.

Lemma accReadingChanged_dropped (r : QSensorReading.t) (s : t) :
  ~ accAccepted r s ->
  accReadingChanged r s = set_lastAccTimestamp (QSensorReading.timestamp r) s.
Proof.
  intros H. open_def accReadingChanged.
  destruct (Z.ltb_spec 0 (lastAccTimestamp s)); [|reflexivity].
  cbv zeta.
  destruct (Rlt_dec 0 _) as [H3|H3]; [|reflexivity].
  exfalso. apply H. split; assumption.
Qed.

Lemma accReadingChanged_accepted (r : QSensorReading.t) (s : t) :
  accAccepted r s ->
  accReadingChanged r s =
  set_lastAccTimestamp (QSensorReading.timestamp r)
    (calculateOutputRotation (accCorrect (calculateObservation
      (set_a_norm
         (QVector3D.length
            (QVector3D.mk (QSensorReading.x r) (QSensorReading.y r)
               (QSensorReading.z r)))
         (set_a (QVector3D.mk (QSensorReading.x r) (QSensorReading.y r)
                   (QSensorReading.z r))
            (set_accSilentCycles 0%Z s)))))).
Proof.
  intros [H1 H2]. open_def accReadingChanged.
  destruct (Z.ltb_spec 0 (lastAccTimestamp s)); [|lia].
  cbv zeta.
  destruct (Rlt_dec 0 _) as [H3|H3]; [reflexivity|].
  exfalso. apply H3. exact H2.
Qed.

Lemma magReadingChanged_dropped (r : QSensorReading.t) (s : t) :
  ~ magAccepted r s ->
  magReadingChanged r s = set_lastMagTimestamp (QSensorReading.timestamp r) s.
Proof.
  intros H. open_def magReadingChanged.
  destruct (Z.ltb_spec 0 (lastMagTimestamp s)); [|reflexivity].
  cbv zeta.
  destruct (Rlt_dec 0 _) as [H3|H3]; [|reflexivity].
  exfalso. apply H. split; assumption.
Qed.

Lemma magReadingChanged_accepted (r : QSensorReading.t) (s : t) :
  magAccepted r s ->
  magReadingChanged r s =
  set_lastMagTimestamp (QSensorReading.timestamp r)
    (set_magDataReady true
      (set_m_norm
         (QVector3D.length
            (QVector3D.mk (QSensorReading.x r * 1000000)
               (QSensorReading.y r * 1000000) (QSensorReading.z r * 1000000)))
         (set_m (QVector3D.mk (QSensorReading.x r * 1000000)
                   (QSensorReading.y r * 1000000) (QSensorReading.z r * 1000000))
            (set_magSilentCycles 0%Z s)))).
Proof.
  intros [H1 H2]. open_def magReadingChanged.
  destruct (Z.ltb_spec 0 (lastMagTimestamp s)); [|lia].
  cbv zeta.
  destruct (Rlt_dec 0 _) as [H3|H3]; [reflexivity|].
  exfalso. apply H3. exact H2.
Qed.

(** The guards are decidable, so every reading is on one of the paths. *)
Lemma gyroAccepted_dec (r : QSensorReading.t) (s : t) :
  {gyroAccepted r s} + {~ gyroAccepted r s}.
Proof.
  unfold gyroAccepted.
  destruct (Z_lt_dec 0 (lastGyroTimestamp s));
    destruct (Rlt_dec 0 (elapsed (QSensorReading.timestamp r) (lastGyroTimestamp s)));
    tauto.
Qed.

Lemma accAccepted_dec (r : QSensorReading.t) (s : t) :
  {accAccepted r s} + {~ accAccepted r s}.
Proof.
  unfold accAccepted.
  destruct (Z_lt_dec 0 (lastAccTimestamp s));
    destruct (Rlt_dec 0 (elapsed (QSensorReading.timestamp r) (lastAccTimestamp s)));
    tauto.
Qed.

Lemma magAccepted_dec (r : QSensorReading.t) (s : t) :
  {magAccepted r s} + {~ magAccepted r s}.
Proof.
  unfold magAccepted.
  destruct (Z_lt_dec 0 (lastMagTimestamp s));
    destruct (Rlt_dec 0 (elapsed (QSensorReading.timestamp r) (lastMagTimestamp s)));
    tauto.
Qed.


(** *** Publishing *)

Lemma emitted_rotationChanged (s : t) :
  emitted (emit rotationChanged s) = S (emitted s).
Proof. reflexivity. Qed.

Lemma emitted_qDebug (line : DebugLine) (s : t) :
  emitted (emit (qDebug line) s) = emitted s.
Proof. reflexivity. Qed.

Lemma countSilentCycles_emitted (s : t) :
  emitted (countSilentCycles s) = emitted s.
Proof. paths countSilentCycles; reflexivity. Qed.

(** The counter of every open stream is incremented. *)
Lemma countSilentCycles_counters (s : t) :
  gyroSilentCycles (countSilentCycles s) = (gyroSilentCycles s + 1)%Z
  /\ accSilentCycles (countSilentCycles s) =
     (if String.eqb (accId s) "" then accSilentCycles s
      else accSilentCycles s + 1)%Z
  /\ magSilentCycles (countSilentCycles s) =
     (if String.eqb (magId s) "" then magSilentCycles s
      else magSilentCycles s + 1)%Z.
Proof.
  repeat split.
  - paths countSilentCycles; reflexivity.
  - destruct (String.eqb (accId s) "") eqn:Ha;
      [apply String.eqb_eq in Ha | apply String.eqb_neq in Ha];
      paths countSilentCycles; first [reflexivity | absurd_path].
  - destruct (String.eqb (magId s) "") eqn:Hm;
      [apply String.eqb_eq in Hm | apply String.eqb_neq in Hm];
      paths countSilentCycles; first [reflexivity | absurd_path].
Qed.

Lemma calculateOutputRotation_no_gyro (s : t) :
  gyroId s = ""%string ->
  calculateOutputRotation s = emit (qDebug CannotOperateWithoutGyroscope) s.
Proof.
  intros H. open_def calculateOutputRotation. rewrite H. reflexivity.
Qed.

Lemma calculateOutputRotation_suppressed (s : t) :
  gyroId s <> ""%string -> 0 < startupTime s ->
  calculateOutputRotation s = countSilentCycles s.
Proof.
  intros Hg Hs. open_def calculateOutputRotation.
  apply String.eqb_neq in Hg. rewrite Hg. cbv zeta.
  destruct (Rlt_dec 0 _) as [_|Hn]; [reflexivity|].
  exfalso. apply Hn. kept startupTime. exact Hs.
Qed.

Lemma calculateOutputRotation_published (s : t) :
  gyroId s <> ""%string -> ~ 0 < startupTime s ->
  calculateOutputRotation s =
  emit rotationChanged (axisAngle (countSilentCycles s)).
Proof.
  intros Hg Hs. open_def calculateOutputRotation.
  apply String.eqb_neq in Hg. rewrite Hg. cbv zeta.
  destruct (Rlt_dec 0 _) as [Hp|_]; [|reflexivity].
  exfalso. apply Hs. revert Hp. kept startupTime. tauto.
Qed.

(** While [startupTime] is positive, or without a gyroscope, the
    rotation is not written and [rotationChanged] is not emitted. *)
Lemma calculateOutputRotation_silent (s : t) :
  gyroId s = ""%string \/ 0 < startupTime s ->
  rotAxis (calculateOutputRotation s) = rotAxis s
  /\ rotAngle (calculateOutputRotation s) = rotAngle s
  /\ emitted (calculateOutputRotation s) = emitted s.
Proof.
  intros H.
  destruct (string_dec (gyroId s) "") as [Hg|Hg].
  - rewrite calculateOutputRotation_no_gyro by exact Hg. repeat split.
  - destruct H as [H|H]; [contradiction|].
    rewrite calculateOutputRotation_suppressed by assumption.
    repeat split.
    + kept rotAxis. reflexivity.
    + kept rotAngle. reflexivity.
    + apply countSilentCycles_emitted.
Qed.

Lemma calculateOutputRotation_emits (s : t) :
  gyroId s <> ""%string -> ~ 0 < startupTime s ->
  out (calculateOutputRotation s) = rotationChanged :: out (countSilentCycles s)
  /\ emitted (calculateOutputRotation s) = S (emitted s).
Proof.
  intros Hg Hs. rewrite calculateOutputRotation_published by assumption.
  split.
  - unfold emit. change (out (set_out ?o _)) with o. f_equal.
    kept out. reflexivity.
  - rewrite emitted_rotationChanged. f_equal.
    kept emitted. apply countSilentCycles_emitted.
Qed.

(** *** Quaternions *)

Lemma EPSILON_pos : 0 < EPSILON.
Proof.
  unfold EPSILON, DBL_EPSILON, FLT_EPSILON.
  destruct qreal_is_double; apply Rinv_0_lt_compat; apply pow_lt; lra.
Qed.

Lemma EPSILON_lt_1 : EPSILON < 1.
Proof.
  unfold EPSILON, DBL_EPSILON, FLT_EPSILON.
  destruct qreal_is_double;
    rewrite <- Rinv_1; apply Rinv_lt_contravar; try lra;
    try (rewrite Rmult_1_l; apply pow_lt; lra);
    apply Rlt_pow_R1; try lra; lia.
Qed.

Lemma quatDot_colvec (a b c d a' b' c' d' : qreal) :
  quatDot (colvec [a; b; c; d]) (colvec [a'; b'; c'; d']) =
  a * a' + b * b' + c * c' + d * d'.
Proof. reflexivity. Qed.

Lemma quatDot_nonneg (q : Mat) : 0 <= quatDot q q.
Proof. unfold quatDot. nra. Qed.

(** The quaternion divided by its norm has norm one. *)
Lemma normalizeQuat_unit (quat : Mat) :
  EPSILON < quatNorm quat -> quatNorm (normalizeQuat quat) = 1.
Proof.
  intros H. pose proof EPSILON_pos as He.
  assert (Hn : 0 < quatNorm quat) by lra.
  unfold normalizeQuat. fold (quatDot quat quat). fold (quatNorm quat).
  destruct (Rlt_dec EPSILON (quatNorm quat)) as [_|Hc]; [|contradiction].
  unfold quatNorm at 1. rewrite quatDot_colvec.
  replace (_ + _ + _ + _)
    with (quatDot quat quat / (quatNorm quat * quatNorm quat))
    by (unfold quatDot at 1; field; lra).
  unfold quatNorm at 1 2. rewrite sqrt_sqrt by apply quatDot_nonneg.
  assert (quatDot quat quat <> 0).
  { intros E. unfold quatNorm in Hn. rewrite E, sqrt_0 in Hn. lra. }
  rewrite <- sqrt_1. f_equal. field. assumption.
Qed.

(** Whatever comes in, what [normalizeQuat] gives back is a column of
    four entries. *)
Lemma normalizeQuat_shape (quat : Mat) :
  exists a b c d, normalizeQuat quat = colvec [a; b; c; d].
Proof.
  unfold normalizeQuat. destruct (Rlt_dec _ _); do 4 eexists; reflexivity.
Qed.

Lemma shortestPathQuat_dot (prevQuat quat : Mat) :
  0 <= quatDot (snd (shortestPathQuat prevQuat quat)) prevQuat.
Proof.
  unfold shortestPathQuat. cbv zeta. fold (quatDot quat prevQuat).
  destruct (Rlt_dec (quatDot quat prevQuat) 0) as [H|H]; cbn [snd].
  - unfold quatDot in *. cbn [at_ colvec map nth]. lra.
  - lra.
Qed.

Lemma shortestPathQuat_sign (prevQuat : Mat) (a b c d : qreal) :
  snd (shortestPathQuat prevQuat (colvec [a; b; c; d])) = colvec [a; b; c; d]
  \/ snd (shortestPathQuat prevQuat (colvec [a; b; c; d]))
     = colvec [- a; - b; - c; - d].
Proof.
  unfold shortestPathQuat. cbv zeta.
  destruct (Rlt_dec _ 0); cbn [snd]; [right | left]; reflexivity.
Qed.

Lemma shortestPathQuat_history (prevQuat : Mat) (a b c d : qreal) :
  fst (shortestPathQuat prevQuat (colvec [a; b; c; d]))
  = snd (shortestPathQuat prevQuat (colvec [a; b; c; d])).
Proof.
  unfold shortestPathQuat. cbv zeta.
  destruct (Rlt_dec _ 0); reflexivity.
Qed.

(** The history reads like the aligned quaternion, entry by entry. *)
Lemma shortestPathQuat_history_dot (prevQuat quat x : Mat) :
  quatDot x (fst (shortestPathQuat prevQuat quat))
  = quatDot x (snd (shortestPathQuat prevQuat quat)).
Proof. reflexivity. Qed.

Lemma shortestPathQuat_norm (prevQuat quat : Mat) :
  quatNorm (snd (shortestPathQuat prevQuat quat)) = quatNorm quat.
Proof.
  unfold shortestPathQuat. cbv zeta.
  destruct (Rlt_dec _ 0); cbn [snd]; [|reflexivity].
  unfold quatNorm. f_equal. rewrite quatDot_colvec. unfold quatDot. ring.
Qed.

(** *** The axis and the angle *)

Lemma vectorNorm_sqr (q : Mat) :
  vectorNorm q * vectorNorm q =
  at_ q 1 0 * at_ q 1 0 + at_ q 2 0 * at_ q 2 0 + at_ q 3 0 * at_ q 3 0.
Proof. unfold vectorNorm. apply sqrt_sqrt. nra. Qed.

Lemma angleOf_range (q : Mat) : 0 <= angleOf q <= 2 * PI.
Proof.
  unfold angleOf.
  pose proof (atan2_nonneg (vectorNorm q) (at_ q 0 0) (sqrt_pos _)). lra.
Qed.

(** Half the angle has the sine [|v| / |q|]. *)
Lemma sin_half_angleOf (q : Mat) :
  0 < quatNorm q ->
  sin (angleOf q / 2) = vectorNorm q / quatNorm q.
Proof.
  intros Hn. unfold angleOf.
  replace (2 * atan2 (vectorNorm q) (at_ q 0 0) / 2)
    with (atan2 (vectorNorm q) (at_ q 0 0)) by field.
  assert (Hd : quatDot q q =
               at_ q 0 0 * at_ q 0 0 + vectorNorm q * vectorNorm q).
  { rewrite vectorNorm_sqr. unfold quatDot. ring. }
  assert (Hv : 0 <= vectorNorm q) by apply sqrt_pos.
  rewrite sin_atan2.
  - unfold quatNorm. rewrite Hd. reflexivity.
  - exact Hv.
  - destruct (Req_dec (at_ q 0 0) 0) as [E|E]; [right | left; exact E].
    destruct (Req_dec (vectorNorm q) 0) as [E'|E']; [|lra].
    exfalso. unfold quatNorm in Hn. rewrite Hd, E, E' in Hn.
    replace (0 * 0 + 0 * 0) with 0 in Hn by ring.
    rewrite sqrt_0 in Hn. lra.
Qed.

Lemma axisAngle_writes (s : t) :
  let q := statePost (filter s) in
  let sTheta2 := sin (angleOf q / 2) in
  (angleOf q < EPSILON ->
     rotAxis (axisAngle s) = QVector3D.mk 0 0 0
     /\ rotAngle (axisAngle s) = 0)
  /\ (~ angleOf q < EPSILON ->
     rotAxis (axisAngle s) =
       QVector3D.mk (at_ q 1 0 * sTheta2) (at_ q 2 0 * sTheta2)
         (at_ q 3 0 * sTheta2)
     /\ rotAngle (axisAngle s) = qRadiansToDegrees (angleOf q)).
Proof.
  intros q sTheta2. unfold axisAngle. cbv zeta.
  fold q. fold (vectorNorm q). fold (angleOf q).
  destruct (Rlt_dec (angleOf q) EPSILON) as [H|H]; split; intros H';
    try contradiction; split; reflexivity.
Qed.

(** For a posterior of norm one the axis is the vector part scaled by
    its own norm, and so has length [|v|^2 = 1 - q0^2]. *)
Lemma axisAngle_unit (s : t) :
  let q := statePost (filter s) in
  quatNorm q = 1 ->
  ~ angleOf q < EPSILON ->
  rotAxis (axisAngle s) =
    QVector3D.mk (at_ q 1 0 * vectorNorm q) (at_ q 2 0 * vectorNorm q)
      (at_ q 3 0 * vectorNorm q)
  /\ QVector3D.length (rotAxis (axisAngle s)) = 1 - at_ q 0 0 * at_ q 0 0
  /\ rotAngle (axisAngle s) = angleOf q * (180 / PI).
Proof.
  intros q Hn Ha.
  destruct (axisAngle_writes s) as [_ Hw]. fold q in Hw.
  destruct (Hw Ha) as [Hx Hr]. clear Hw.
  rewrite sin_half_angleOf in Hx by (rewrite Hn; lra).
  rewrite Hn in Hx.
  replace (vectorNorm q / 1) with (vectorNorm q) in Hx by field.
  repeat split; [exact Hx | | exact Hr].
  rewrite Hx. unfold QVector3D.length. cbn [QVector3D.x QVector3D.y QVector3D.z].
  assert (Hd : quatDot q q = 1).
  { unfold quatNorm in Hn. rewrite <- (sqrt_sqrt (quatDot q q)) by apply quatDot_nonneg.
    rewrite Hn. ring. }
  pose proof (vectorNorm_sqr q) as Hv.
  replace (1 - at_ q 0 0 * at_ q 0 0) with (vectorNorm q * vectorNorm q)
    by (rewrite Hv; unfold quatDot in Hd; lra).
  replace (_ + _ + _)
    with ((vectorNorm q * vectorNorm q) * (vectorNorm q * vectorNorm q))
    by (rewrite Hv at 1; ring).
  apply sqrt_square. apply Rmult_le_pos; apply sqrt_pos.
Qed.

(** The time stamps are written last; [unstamp p] removes that
    assignment under a member [p] other than the time stamps. *)
Section Stamps.
Context {A : Type} (p : t -> A) (H : forall s, p (forget_stamps s) = p s).

Lemma set_lastGyroTimestamp_keeps (ts : quint64) (s : t) :
  p (set_lastGyroTimestamp ts s) = p s.
Proof.
  transitivity (p (forget_stamps s)); [|apply H].
  rewrite <- (H (set_lastGyroTimestamp ts s)). reflexivity.
Qed.

Lemma set_lastAccTimestamp_keeps (ts : quint64) (s : t) :
  p (set_lastAccTimestamp ts s) = p s.
Proof.
  transitivity (p (forget_stamps s)); [|apply H].
  rewrite <- (H (set_lastAccTimestamp ts s)). reflexivity.
Qed.

Lemma set_lastMagTimestamp_keeps (ts : quint64) (s : t) :
  p (set_lastMagTimestamp ts s) = p s.
Proof.
  transitivity (p (forget_stamps s)); [|apply H].
  rewrite <- (H (set_lastMagTimestamp ts s)). reflexivity.
Qed.

End Stamps.

Ltac unstamp_at p :=
  match goal with
  | |- context [p (set_lastGyroTimestamp ?a ?x)] =>
      rewrite (set_lastGyroTimestamp_keeps p (fun _ => eq_refl) a x)
  | |- context [p (set_lastAccTimestamp ?a ?x)] =>
      rewrite (set_lastAccTimestamp_keeps p (fun _ => eq_refl) a x)
  | |- context [p (set_lastMagTimestamp ?a ?x)] =>
      rewrite (set_lastMagTimestamp_keeps p (fun _ => eq_refl) a x)
  end.

Tactic Notation "unstamp" constr(p) := unstamp_at p.

(** *** One reading *)

(** A reading that does not pass the guard changes nothing but the time
    stamp of its stream (and, for the gyroscope, [wDeltaT]). *)
Lemma gyroReadingChanged_dropped (r : QSensorReading.t) (s : t) :
  ~ gyroAccepted r s ->
  exists dT,
    gyroReadingChanged r s =
    set_lastGyroTimestamp (QSensorReading.timestamp r) (set_wDeltaT dT s).
Proof.
  intros H. destruct (Z_lt_dec 0 (lastGyroTimestamp s)) as [Hl|Hl].
  - eexists. apply gyroReadingChanged_stale; [exact Hl|].
    intros Hp. apply H. split; assumption.
  - exists (wDeltaT s). rewrite gyroReadingChanged_first by lia.
    destruct s; reflexivity.
Qed.

Lemma step_configuration (s : t) (e : Event) :
  configuration (step s e) = configuration s.
Proof.
  destruct e as [r|r|r]; cbn [step].
  - destruct (gyroAccepted_dec r s) as [H|H].
    + rewrite gyroReadingChanged_accepted by exact H.
      unstamp configuration. do 4 kept configuration. reflexivity.
    + destruct (gyroReadingChanged_dropped r s H) as [dT ->]. reflexivity.
  - destruct (accAccepted_dec r s) as [H|H].
    + rewrite accReadingChanged_accepted by exact H.
      unstamp configuration. do 3 kept configuration. reflexivity.
    + rewrite accReadingChanged_dropped by exact H. reflexivity.
  - destruct (magAccepted_dec r s) as [H|H].
    + rewrite magReadingChanged_accepted by exact H. reflexivity.
    + rewrite magReadingChanged_dropped by exact H. reflexivity.
Qed.

(** The countdown: only an accepted gyroscope reading moves it, and only
    down. *)
Lemma gyroInputs_startupTime (r : QSensorReading.t) (s : t) :
  startupTime (gyroInputs r s) =
  if Rlt_dec 0 (startupTime s) then startupTime s - wDeltaT s
  else startupTime s.
Proof.
  open_def gyroInputs. cbv zeta.
  change (startupTime (set_gyroSilentCycles 0 s)) with (startupTime s).
  change (wDeltaT (set_gyroSilentCycles 0 s)) with (wDeltaT s).
  destruct (Rlt_dec 0 (startupTime s)); [|reflexivity].
  match goal with |- context [Rlt_dec ?a ?b] => destruct (Rlt_dec a b) end;
    reflexivity.
Qed.

Lemma gyroInputs_emitted (r : QSensorReading.t) (s : t) :
  emitted (gyroInputs r s) = emitted s.
Proof. paths gyroInputs; reflexivity. Qed.

Lemma gyroReadingChanged_startupTime (r : QSensorReading.t) (s : t) :
  gyroAccepted r s ->
  startupTime (gyroReadingChanged r s) =
  if Rlt_dec 0 (startupTime s)
  then startupTime s - elapsed (QSensorReading.timestamp r) (lastGyroTimestamp s)
  else startupTime s.
Proof.
  intros H. rewrite gyroReadingChanged_accepted by exact H.
  unstamp startupTime. do 3 kept startupTime.
  rewrite gyroInputs_startupTime. reflexivity.
Qed.

Lemma step_startupTime_le (s : t) (e : Event) :
  startupTime (step s e) <= startupTime s.
Proof.
  destruct e as [r|r|r]; cbn [step].
  - destruct (gyroAccepted_dec r s) as [H|H].
    + rewrite gyroReadingChanged_startupTime by exact H.
      destruct H as [_ H]. destruct (Rlt_dec 0 (startupTime s)); lra.
    + destruct (gyroReadingChanged_dropped r s H) as [dT ->]. apply Rle_refl.
  - destruct (accAccepted_dec r s) as [H|H].
    + rewrite accReadingChanged_accepted by exact H.
      unstamp startupTime. do 3 kept startupTime. apply Rle_refl.
    + rewrite accReadingChanged_dropped by exact H. apply Rle_refl.
  - destruct (magAccepted_dec r s) as [H|H].
    + rewrite magReadingChanged_accepted by exact H. apply Rle_refl.
    + rewrite magReadingChanged_dropped by exact H. apply Rle_refl.
Qed.

Lemma calculateOutputRotation_published_silent (s : t) :
  gyroId s = ""%string \/ 0 < startupTime s ->
  published (calculateOutputRotation s) = published s.
Proof.
  intros H. destruct (calculateOutputRotation_silent s H) as (E1 & E2 & E3).
  unfold published. rewrite E1, E2, E3. reflexivity.
Qed.

Lemma gyroInputs_published (r : QSensorReading.t) (s : t) :
  published (gyroInputs r s) = published s.
Proof.
  unfold published. rewrite gyroInputs_emitted.
  kept rotAxis. kept rotAngle. reflexivity.
Qed.

(** A reading after which the countdown is still positive has published
    nothing. *)
Lemma step_published (s : t) (e : Event) :
  0 < startupTime (step s e) -> published (step s e) = published s.
Proof.
  destruct e as [r|r|r]; cbn [step].
  - destruct (gyroAccepted_dec r s) as [H|H].
    + rewrite gyroReadingChanged_accepted by exact H.
      unstamp startupTime. unstamp published.
      kept startupTime. intros Hp.
      rewrite calculateOutputRotation_published_silent by (right; exact Hp).
      do 2 kept published. rewrite gyroInputs_published. reflexivity.
    + destruct (gyroReadingChanged_dropped r s H) as [dT ->]. reflexivity.
  - destruct (accAccepted_dec r s) as [H|H].
    + rewrite accReadingChanged_accepted by exact H.
      unstamp startupTime. unstamp published.
      kept startupTime. intros Hp.
      rewrite calculateOutputRotation_published_silent by (right; exact Hp).
      do 2 kept published. reflexivity.
    + rewrite accReadingChanged_dropped by exact H. reflexivity.
  - destruct (magAccepted_dec r s) as [H|H].
    + rewrite magReadingChanged_accepted by exact H. reflexivity.
    + rewrite magReadingChanged_dropped by exact H. reflexivity.
Qed.

(** The histories: the prior one is written by accepted gyroscope
    readings only, the posterior one by accepted accelerometer readings
    only. *)
Lemma step_gyro_quiet (s : t) (e : Event) :
  match e with GyroReading r => ~ gyroAccepted r s | _ => True end ->
  startupTime (step s e) = startupTime s
  /\ statePreHistory (step s e) = statePreHistory s.
Proof.
  destruct e as [r|r|r]; cbn [step]; intros H.
  - destruct (gyroReadingChanged_dropped r s H) as [dT ->]. split; reflexivity.
  - destruct (accAccepted_dec r s) as [Ha|Ha].
    + rewrite accReadingChanged_accepted by exact Ha. split.
      * unstamp startupTime. do 3 kept startupTime. reflexivity.
      * unstamp statePreHistory. do 3 kept statePreHistory. reflexivity.
    + rewrite accReadingChanged_dropped by exact Ha. split; reflexivity.
  - destruct (magAccepted_dec r s) as [Ha|Ha].
    + rewrite magReadingChanged_accepted by exact Ha. split; reflexivity.
    + rewrite magReadingChanged_dropped by exact Ha. split; reflexivity.
Qed.

Lemma step_acc_quiet (s : t) (e : Event) :
  match e with AccReading r => ~ accAccepted r s | _ => True end ->
  statePostHistory (step s e) = statePostHistory s.
Proof.
  destruct e as [r|r|r]; cbn [step]; intros H.
  - destruct (gyroAccepted_dec r s) as [Ha|Ha].
    + rewrite gyroReadingChanged_accepted by exact Ha.
      unstamp statePostHistory. do 4 kept statePostHistory. reflexivity.
    + destruct (gyroReadingChanged_dropped r s Ha) as [dT ->]. reflexivity.
  - rewrite accReadingChanged_dropped by exact H. reflexivity.
  - destruct (magAccepted_dec r s) as [Ha|Ha].
    + rewrite magReadingChanged_accepted by exact Ha. reflexivity.
    + rewrite magReadingChanged_dropped by exact Ha. reflexivity.
Qed.

(** The transition matrix: [calculateProcess] writes it off the diagonal
    and nothing else writes it at all. *)
Lemma calculateProcess_transition (s : t) :
  transition (calculateProcess s) =
  let F := transition s in
  let h := 0.5 * wDeltaT s in
  let wx := QVector3D.x (w s) in
  let wy := QVector3D.y (w s) in
  let wz := QVector3D.z (w s) in
  [ [at_ F 0 0;  - h * wx;    - h * wy;    - h * wz];
    [h * wx;     at_ F 1 1;   h * wz;      - h * wy];
    [h * wy;     - h * wz;    at_ F 2 2;   h * wx];
    [h * wz;     h * wy;      - h * wx;    at_ F 3 3] ].
Proof.
  cbv zeta. unfold transition, calculateProcess. cbv zeta.
  change (transitionMatrix (filter (with_filter ?g ?x)))
    with (transitionMatrix (g (filter x))).
  cbn [with_filter set_filter filter transitionMatrix set_processNoiseCov
       set_transitionMatrix].
  repeat match goal with
         | |- (_ :: _) = (_ :: _) => apply f_equal2
         | |- [] = [] => reflexivity
         | |- _ = _ => first [reflexivity | lra]
         end.
Qed.

Lemma calculateProcess_unitDiagonal (s : t) :
  unitDiagonal (transition s) -> unitDiagonal (transition (calculateProcess s)).
Proof.
  intros H. rewrite calculateProcess_transition. exact H.
Qed.

Lemma step_unitDiagonal (s : t) (e : Event) :
  unitDiagonal (transition s) -> unitDiagonal (transition (step s e)).
Proof.
  intros H. destruct e as [r|r|r]; cbn [step].
  - destruct (gyroAccepted_dec r s) as [Ha|Ha].
    + rewrite gyroReadingChanged_accepted by exact Ha.
      unstamp transition. do 2 kept transition.
      apply calculateProcess_unitDiagonal. kept transition. exact H.
    + destruct (gyroReadingChanged_dropped r s Ha) as [dT ->]. exact H.
  - destruct (accAccepted_dec r s) as [Ha|Ha].
    + rewrite accReadingChanged_accepted by exact Ha.
      unstamp transition. do 3 kept transition. exact H.
    + rewrite accReadingChanged_dropped by exact Ha. exact H.
  - destruct (magAccepted_dec r s) as [Ha|Ha].
    + rewrite magReadingChanged_accepted by exact Ha. exact H.
    + rewrite magReadingChanged_dropped by exact Ha. exact H.
Qed.

(** *** Streams of readings *)

Lemma run_cons (s : t) (e : Event) (events : list Event) :
  run s (e :: events) = run (step s e) events.
Proof. reflexivity. Qed.

(** What every reading preserves is preserved by a stream. *)
Lemma run_invariant (P : t -> Prop) :
  (forall s e, P s -> P (step s e)) ->
  forall events s, P s -> P (run s events).
Proof.
  intros Hstep events. induction events as [|e events IH]; intros s Hs.
  - exact Hs.
  - rewrite run_cons. apply IH. apply Hstep. exact Hs.
Qed.

Lemma run_configuration (s : t) (events : list Event) :
  configuration (run s events) = configuration s.
Proof.
  revert s. induction events as [|e events IH]; intros s; [reflexivity|].
  rewrite run_cons, IH. apply step_configuration.
Qed.

Lemma run_startupTime_le (s : t) (events : list Event) :
  startupTime (run s events) <= startupTime s.
Proof.
  revert s. induction events as [|e events IH]; intros s; [apply Rle_refl|].
  rewrite run_cons. pose proof (IH (step s e)).
  pose proof (step_startupTime_le s e). lra.
Qed.

(** As long as the countdown is positive nothing has been published. *)
Lemma run_published (s : t) (events : list Event) :
  0 < startupTime (run s events) -> published (run s events) = published s.
Proof.
  revert s. induction events as [|e events IH]; intros s H; [reflexivity|].
  rewrite run_cons in *. rewrite IH by exact H.
  apply step_published.
  pose proof (run_startupTime_le (step s e) events). lra.
Qed.

Lemma run_gyro_quiet (s : t) (events : list Event) :
  gyroQuiet s events ->
  startupTime (run s events) = startupTime s
  /\ statePreHistory (run s events) = statePreHistory s.
Proof.
  revert s. induction events as [|e events IH]; intros s H; [split; reflexivity|].
  destruct H as [He Hq]. rewrite run_cons.
  destruct (IH _ Hq) as [E1 E2]. destruct (step_gyro_quiet s e He) as [E3 E4].
  split; congruence.
Qed.

Lemma run_acc_quiet (s : t) (events : list Event) :
  accQuiet s events -> statePostHistory (run s events) = statePostHistory s.
Proof.
  revert s. induction events as [|e events IH]; intros s H; [reflexivity|].
  destruct H as [He Hq]. rewrite run_cons, (IH _ Hq).
  apply step_acc_quiet. exact He.
Qed.

(** *** The time stamps and the time step *)

Lemma gyroReadingChanged_lastGyroTimestamp (r : QSensorReading.t) (s : t) :
  lastGyroTimestamp (gyroReadingChanged r s) = QSensorReading.timestamp r.
Proof. reflexivity. Qed.

Lemma accReadingChanged_lastAccTimestamp (r : QSensorReading.t) (s : t) :
  lastAccTimestamp (accReadingChanged r s) = QSensorReading.timestamp r.
Proof. reflexivity. Qed.

Lemma magReadingChanged_lastMagTimestamp (r : QSensorReading.t) (s : t) :
  lastMagTimestamp (magReadingChanged r s) = QSensorReading.timestamp r.
Proof. reflexivity. Qed.

(** Past the first reading, [wDeltaT] is the wrapped difference of the
    time stamps over [1000000], whether the reading is accepted or not. *)
Lemma gyroReadingChanged_wDeltaT (r : QSensorReading.t) (s : t) :
  (0 < lastGyroTimestamp s)%Z ->
  wDeltaT (gyroReadingChanged r s) =
  elapsed (QSensorReading.timestamp r) (lastGyroTimestamp s).
Proof.
  intros Hl.
  destruct (Rlt_dec 0 (elapsed (QSensorReading.timestamp r) (lastGyroTimestamp s)))
    as [H|H].
  - rewrite gyroReadingChanged_accepted by (split; assumption).
    unstamp wDeltaT. do 4 kept wDeltaT. reflexivity.
  - rewrite gyroReadingChanged_stale by assumption. reflexivity.
Qed.

Lemma gyroReadingChanged_first_wDeltaT (r : QSensorReading.t) (s : t) :
  (lastGyroTimestamp s <= 0)%Z ->
  wDeltaT (gyroReadingChanged r s) = wDeltaT s.
Proof.
  intros Hl. rewrite gyroReadingChanged_first by exact Hl. reflexivity.
Qed.


(** [elapsed] is positive exactly when the two time stamps differ
    modulo [2^64]. *)
Lemma elapsed_pos (ts last : quint64) :
  0 < elapsed ts last <-> ((ts - last) mod 2 ^ 64 <> 0)%Z.
Proof.
  unfold elapsed.
  pose proof (Z.mod_pos_bound (ts - last) (2 ^ 64) ltac:(lia)) as Hb.
  split.
  - intros H E. rewrite E in H. lra.
  - intros H.
    assert (0 < IZR ((ts - last) mod 2 ^ 64)) by (apply IZR_lt; lia).
    apply Rdiv_lt_0_compat; lra.
Qed.

Lemma elapsed_same (ts : quint64) : elapsed ts ts = 0.
Proof.
  unfold elapsed. rewrite Z.sub_diag, Z.mod_0_l by lia. lra.
Qed.

(** A time stamp that runs backwards wraps to a large positive step. *)
Lemma elapsed_backwards (ts last : quint64) :
  (0 <= ts < last)%Z -> (last < 2 ^ 64)%Z ->
  elapsed ts last = IZR (2 ^ 64 - (last - ts)) / 1000000
  /\ 0 < elapsed ts last.
Proof.
  intros H1 H2.
  assert (E : ((ts - last) mod 2 ^ 64 = 2 ^ 64 - (last - ts))%Z).
  { symmetry. apply Z.mod_unique with (q := (-1)%Z); lia. }
  split.
  - unfold elapsed. rewrite E. reflexivity.
  - apply elapsed_pos. rewrite E. lia.
Qed.

(** *** The a priori and the a posteriori state *)

Lemma gyroPredict_prior (s : t) :
  prior (gyroPredict s) =
  snd (shortestPathQuat (statePreHistory s) (normalizeQuat (process s))).
Proof. reflexivity. Qed.

Lemma gyroPredict_history (s : t) :
  statePreHistory (gyroPredict s) =
  fst (shortestPathQuat (statePreHistory s) (normalizeQuat (process s))).
Proof. reflexivity. Qed.

Lemma gyroPredict_posterior (s : t) :
  posterior (gyroPredict s) = prior (gyroPredict s).
Proof. reflexivity. Qed.

Lemma accCorrect_posterior (s : t) :
  posterior (accCorrect s) =
  snd (shortestPathQuat (statePostHistory s)
         (normalizeQuat
            (statePost (correct invert (filter s) (observation s)
                          (predictedObservation s))))).
Proof. reflexivity. Qed.

Lemma accCorrect_history (s : t) :
  statePostHistory (accCorrect s) =
  fst (shortestPathQuat (statePostHistory s)
         (normalizeQuat
            (statePost (correct invert (filter s) (observation s)
                          (predictedObservation s))))).
Proof. reflexivity. Qed.

(** An accepted gyroscope reading leaves a prior that is aligned with
    the history it found, and the history equal to that prior. *)
Lemma gyroReadingChanged_aligned (r : QSensorReading.t) (s : t) :
  gyroAccepted r s ->
  exists quat,
    prior (gyroReadingChanged r s) = snd (shortestPathQuat (statePreHistory s) quat)
    /\ statePreHistory (gyroReadingChanged r s)
       = fst (shortestPathQuat (statePreHistory s) quat)
    /\ posterior (gyroReadingChanged r s) = prior (gyroReadingChanged r s).
Proof.
  intros H. rewrite gyroReadingChanged_accepted by exact H.
  set (x := calculateProcess _).
  exists (normalizeQuat (process x)).
  assert (Hh : statePreHistory x = statePreHistory s).
  { subst x. do 2 kept statePreHistory. reflexivity. }
  repeat split.
  - unstamp prior. kept prior. rewrite gyroPredict_prior, Hh. reflexivity.
  - unstamp statePreHistory. kept statePreHistory.
    rewrite gyroPredict_history, Hh. reflexivity.
  - unstamp posterior. unstamp prior. kept posterior. kept prior.
    apply gyroPredict_posterior.
Qed.

Lemma accReadingChanged_aligned (r : QSensorReading.t) (s : t) :
  accAccepted r s ->
  exists quat,
    posterior (accReadingChanged r s)
    = snd (shortestPathQuat (statePostHistory s) quat)
    /\ statePostHistory (accReadingChanged r s)
       = fst (shortestPathQuat (statePostHistory s) quat).
Proof.
  intros H. rewrite accReadingChanged_accepted by exact H.
  set (x := calculateObservation _).
  eexists.
  assert (Hh : statePostHistory x = statePostHistory s).
  { subst x. kept statePostHistory. reflexivity. }
  split.
  - unstamp posterior. kept posterior. rewrite accCorrect_posterior, Hh.
    reflexivity.
  - unstamp statePostHistory. kept statePostHistory.
    rewrite accCorrect_history, Hh. reflexivity.
Qed.

(** What [gyroInputs] stores of the reading. *)
Lemma gyroInputs_w (r : QSensorReading.t) (s : t) :
  w (gyroInputs r s) =
  QVector3D.mk (qDegreesToRadians (QSensorReading.x r))
    (qDegreesToRadians (QSensorReading.y r))
    (qDegreesToRadians (QSensorReading.z r)).
Proof. paths gyroInputs; reflexivity. Qed.

Lemma calculateProcess_process (s : t) :
  process (calculateProcess s) =
  let q := posterior s in
  let h := 0.5 * wDeltaT s in
  let wx := QVector3D.x (w s) in
  let wy := QVector3D.y (w s) in
  let wz := QVector3D.z (w s) in
  normalizeQuat
    (colvec [ at_ q 0 0 + h * (- at_ q 1 0 * wx - at_ q 2 0 * wy - at_ q 3 0 * wz);
              at_ q 1 0 + h * (at_ q 0 0 * wx - at_ q 3 0 * wy + at_ q 2 0 * wz);
              at_ q 2 0 + h * (at_ q 3 0 * wx + at_ q 0 0 * wy - at_ q 1 0 * wz);
              at_ q 3 0 + h * (- at_ q 2 0 * wx + at_ q 1 0 * wy + at_ q 0 0 * wz) ]).
Proof. reflexivity. Qed.

Lemma calculateProcess_processNoiseCov (s : t) :
  processNoiseCov (filter (calculateProcess s)) = mscale (Q s) (wDeltaT s).
Proof. reflexivity. Qed.

Lemma rotation_emit (o : Output) (s : t) :
  rotAxis (emit o s) = rotAxis s /\ rotAngle (emit o s) = rotAngle s.
Proof. split; reflexivity. Qed.

(** Equality of two matrices written out entry by entry. *)
Ltac mat_eq :=
  cbn [colvec map];
  repeat match goal with
         | |- (_ :: _) = (_ :: _) => apply f_equal2
         | |- [] = [] => reflexivity
         | |- _ = _ => first [reflexivity | lra | nra]
         end.

Lemma run_unitDiagonal (s : t) (events : list Event) :
  unitDiagonal (transition s) -> unitDiagonal (transition (run s events)).
Proof.
  apply (run_invariant (fun s => unitDiagonal (transition s))).
  intros s' e. apply step_unitDiagonal.
Qed.

Lemma run_Q (s : t) (events : list Event) : Q (run s events) = Q s.
Proof. exact (f_equal snd (run_configuration s events)). Qed.

Lemma run_gyroId (s : t) (events : list Event) :
  gyroId (run s events) = gyroId s.
Proof.
  exact (f_equal (fun c => fst (fst (fst c))) (run_configuration s events)).
Qed.

(** A publish outside startup over a posterior of norm one. *)
Lemma calculateOutputRotation_unit (s : t) :
  gyroId s <> ""%string ->
  ~ 0 < startupTime s ->
  quatNorm (posterior s) = 1 ->
  let q := posterior s in
  let s' := calculateOutputRotation s in
  emitted s' = S (emitted s)
  /\ (angleOf q < EPSILON ->
      getRotAxis s' = QVector3D.mk 0 0 0 /\ getRotAngle s' = 0)
  /\ (~ angleOf q < EPSILON ->
      getRotAxis s' =
        QVector3D.mk (at_ q 1 0 * vectorNorm q) (at_ q 2 0 * vectorNorm q)
          (at_ q 3 0 * vectorNorm q)
      /\ QVector3D.length (getRotAxis s') = 1 - at_ q 0 0 * at_ q 0 0
      /\ getRotAngle s' = angleOf q * (180 / PI)).
Proof.
  intros Hg Hs Hn q s'.
  destruct (calculateOutputRotation_emits s Hg Hs) as [_ He].
  split; [exact He|].
  unfold getRotAxis, getRotAngle. subst s'.
  rewrite calculateOutputRotation_published by assumption.
  set (x := countSilentCycles s).
  assert (Hx : posterior x = q).
  { subst x. kept posterior. reflexivity. }
  destruct (rotation_emit rotationChanged (axisAngle x)) as [-> ->].
  split; intros Ha.
  - destruct (axisAngle_writes x) as [Hw _].
    fold (posterior x) in Hw. rewrite Hx in Hw. exact (Hw Ha).
  - pose proof (axisAngle_unit x) as Hu. cbv zeta in Hu.
    fold (posterior x) in Hu. rewrite Hx in Hu. exact (Hu Hn Ha).
Qed.

Lemma normalizeQuat_at (quat : Mat) :
  EPSILON < quatNorm quat ->
  at_ (normalizeQuat quat) 0 0 = at_ quat 0 0 / quatNorm quat.
Proof.
  intros H. unfold normalizeQuat.
  fold (quatDot quat quat). fold (quatNorm quat).
  destruct (Rlt_dec EPSILON (quatNorm quat)); [reflexivity | contradiction].
Qed.

Lemma shortestPathQuat_at (prevQuat quat : Mat) :
  at_ (snd (shortestPathQuat prevQuat quat)) 0 0 = at_ quat 0 0
  \/ at_ (snd (shortestPathQuat prevQuat quat)) 0 0 = - at_ quat 0 0.
Proof.
  unfold shortestPathQuat. cbv zeta.
  destruct (Rlt_dec _ 0); cbn [snd]; [right | left]; reflexivity.
Qed.

(** *** The example device *)

Lemma exampleStarted_eq :
  exampleStarted = set_lastGyroTimestamp 1000 exampleDevice.
Proof.
  unfold exampleStarted. apply gyroReadingChanged_first.
  change (0 <= 0)%Z. lia.
Qed.

Lemma example_elapsed : elapsed 1001000 1000 = 1.
Proof.
  unfold elapsed. change ((1001000 - 1000) mod 2 ^ 64)%Z with 1000000%Z. lra.
Qed.

Lemma example_accepted : gyroAccepted (reading 1001000 90 0 0) exampleStarted.
Proof.
  split.
  - change (0 < 1000)%Z. lia.
  - change (0 < elapsed 1001000 1000). rewrite example_elapsed. lra.
Qed.

(** The second reading ends the startup second, so it publishes. *)
Lemma exampleTurned_publishes :
  exampleTurned =
  set_lastGyroTimestamp 1001000 (calculateOutputRotation exampleTurning).
Proof.
  unfold exampleTurned, exampleTurning.
  rewrite gyroReadingChanged_accepted by exact example_accepted.
  change (lastGyroTimestamp exampleStarted) with 1000%Z.
  change (QSensorReading.timestamp (reading 1001000 90 0 0)) with 1001000%Z.
  rewrite example_elapsed. reflexivity.
Qed.

Lemma exampleTurning_process :
  exists x,
    exampleTurning = gyroPredict x
    /\ statePreHistory x = colvec [1; 0; 0; 0]
    /\ process x = normalizeQuat (colvec [1; PI / 4; 0; 0]).
Proof.
  eexists. split; [reflexivity|]. rewrite exampleStarted_eq. split.
  - kept statePreHistory. kept statePreHistory. reflexivity.
  - rewrite calculateProcess_process. cbv zeta.
    rewrite gyroInputs_w.
    kept posterior. kept wDeltaT.
    change (posterior (set_wDeltaT 1 _)) with (colvec [1; 0; 0; 0]).
    change (wDeltaT (set_wDeltaT 1 _)) with 1.
    cbn [at_ colvec map nth QVector3D.x QVector3D.y QVector3D.z
         QSensorReading.x QSensorReading.y QSensorReading.z reading].
    unfold qDegreesToRadians. f_equal. mat_eq.
Qed.

Lemma exampleTurning_startup :
  gyroId exampleTurning <> ""%string
  /\ startupTime exampleTurning = 0
  /\ emitted exampleTurning = 0%nat.
Proof.
  unfold exampleTurning. rewrite exampleStarted_eq. split; [|split].
  - do 3 kept gyroId. discriminate.
  - do 2 kept startupTime. rewrite gyroInputs_startupTime.
    change (startupTime (set_wDeltaT 1 _)) with 1.
    change (wDeltaT (set_wDeltaT 1 _)) with 1.
    destruct (Rlt_dec 0 1); lra.
  - do 2 kept emitted. rewrite gyroInputs_emitted. reflexivity.
Qed.

(** Its posterior has norm one, a component [q0] with
    [q0^2 = 1 / (1 + (pi/4)^2)], and an angle that is not small. *)
Lemma exampleTurning_posterior :
  quatNorm (posterior exampleTurning) = 1
  /\ at_ (posterior exampleTurning) 0 0 * at_ (posterior exampleTurning) 0 0
     = 1 / (1 + PI / 4 * (PI / 4))
  /\ ~ angleOf (posterior exampleTurning) < EPSILON.
Proof.
  destruct exampleTurning_process as (x & -> & Hh & Hp).
  set (G := gyroPredict x) in *.
  pose proof EPSILON_pos as He0. pose proof EPSILON_lt_1 as He1.
  pose proof PI2_3_2 as Hpi. pose proof PI_4 as Hpi4.
  set (Fv := colvec [1; PI / 4; 0; 0]) in *.
  assert (Hd : quatDot Fv Fv = 1 + PI / 4 * (PI / 4)).
  { unfold Fv. rewrite quatDot_colvec. ring. }
  assert (Hn1 : 1 <= quatNorm Fv).
  { unfold quatNorm. rewrite <- sqrt_1 at 1. apply sqrt_le_1_alt.
    rewrite Hd. nra. }
  assert (Hn2 : quatNorm Fv * quatNorm Fv = 1 + PI / 4 * (PI / 4)).
  { unfold quatNorm. rewrite sqrt_sqrt; [exact Hd | apply quatDot_nonneg]. }
  assert (Hu : quatNorm (process x) = 1).
  { rewrite Hp. apply normalizeQuat_unit. lra. }
  assert (Ha : at_ (process x) 0 0 = 1 / quatNorm Fv).
  { rewrite Hp, normalizeQuat_at by lra. reflexivity. }
  assert (Hq : posterior G = snd (shortestPathQuat (statePreHistory x)
                                    (normalizeQuat (process x)))).
  { subst G. rewrite gyroPredict_posterior. apply gyroPredict_prior. }
  assert (Hqn : quatNorm (posterior G) = 1).
  { rewrite Hq, shortestPathQuat_norm. apply normalizeQuat_unit. lra. }
  assert (Hq0 : at_ (posterior G) 0 0 * at_ (posterior G) 0 0
                = 1 / (1 + PI / 4 * (PI / 4))).
  { rewrite Hq.
    destruct (shortestPathQuat_at (statePreHistory x) (normalizeQuat (process x)))
      as [-> | ->];
      rewrite normalizeQuat_at, Hu, Ha by lra;
      rewrite <- Hn2; field; lra. }
  split; [exact Hqn|]. split; [exact Hq0|].
  assert (Hqd : quatDot (posterior G) (posterior G) = 1).
  { unfold quatNorm in Hqn.
    rewrite <- (sqrt_sqrt (quatDot (posterior G) (posterior G)))
      by apply quatDot_nonneg.
    rewrite Hqn. ring. }
  assert (Hv : vectorNorm (posterior G) * vectorNorm (posterior G)
               = 1 - 1 / (1 + PI / 4 * (PI / 4))).
  { rewrite vectorNorm_sqr, <- Hq0. unfold quatDot in Hqd. lra. }
  assert (Hb : 1 / (1 + PI / 4 * (PI / 4)) <= 16 / 25).
  { replace (16 / 25) with (/ (25 / 16)) by field.
    unfold Rdiv at 1. rewrite Rmult_1_l.
    apply Rinv_le_contravar; nra. }
  assert (Hv0 : 0 <= vectorNorm (posterior G)) by apply sqrt_pos.
  assert (Hv1 : 1 / 2 < vectorNorm (posterior G)) by nra.
  intros Hlt.
  pose proof (angleOf_range (posterior G)) as [Hr _].
  pose proof (sin_half_angleOf (posterior G)) as Hsin.
  rewrite Hqn in Hsin. specialize (Hsin ltac:(lra)).
  destruct (Req_dec (angleOf (posterior G)) 0) as [E|E].
  - rewrite E in Hsin. replace (0 / 2) with 0 in Hsin by field.
    rewrite sin_0 in Hsin. lra.
  - pose proof (sin_lt_x (angleOf (posterior G) / 2) ltac:(lra)). lra.
Qed.

(** After the turn the published axis is shorter than one although the
    published angle is not zero. *)
Lemma exampleTurned_rotation :
  QVector3D.length (getRotAxis exampleTurned) < 1
  /\ 0 < getRotAngle exampleTurned
  /\ emitted exampleTurned = 1%nat.
Proof.
  rewrite exampleTurned_publishes.
  unstamp getRotAxis. unstamp getRotAngle. unstamp emitted.
  destruct exampleTurning_startup as (Hg & Hs & He).
  destruct exampleTurning_posterior as (Hqn & Hq0 & Hang).
  assert (Hst : ~ 0 < startupTime exampleTurning) by (rewrite Hs; lra).
  destruct (calculateOutputRotation_unit exampleTurning Hg Hst Hqn)
    as (Hem & _ & Hpub).
  destruct (Hpub Hang) as (_ & Hlen & Hdeg).
  pose proof PI2_3_2 as Hpi. pose proof EPSILON_pos as He0.
  split; [|split].
  - rewrite Hlen, Hq0.
    assert (0 < 1 / (1 + PI / 4 * (PI / 4))) by (apply Rdiv_lt_0_compat; nra).
    lra.
  - rewrite Hdeg.
    pose proof (angleOf_range (posterior exampleTurning)) as [Hr _].
    apply Rmult_lt_0_compat; [lra|]. apply Rdiv_lt_0_compat; lra.
  - rewrite Hem, He. reflexivity.
Qed.

Lemma exampleTurned_startupTime : startupTime exampleTurned = 0.
Proof.
  rewrite exampleTurned_publishes. unstamp startupTime. kept startupTime.
  apply exampleTurning_startup.
Qed.

(** ** The observation model *)

Ltac observation_blocks :=
  cbv delta [R_y R_g next_m_dip_angle_mean next_m_norm_mean uy rejected
             m_dip_angle dot_m_z dot3 R_DCM_z R_DCM_y H_g H_y noiseDiagonal
             rows3 scale3 gravity prior QVector3D.length] beta zeta.

Ltac state_fields :=
  cbn [gyroId accId magId lastGyroTimestamp lastAccTimestamp lastMagTimestamp
       gyroSilentCycles accSilentCycles magSilentCycles filter startupTime
       R_g_startup R_y_startup R_g_k_0 R_g_k_w R_g_k_g R_y_k_0 R_y_k_w R_y_k_g
       R_y_k_n R_y_k_d magDataReady m_norm_mean m_dip_angle_mean m_mean_alpha
       process statePreHistory statePostHistory observation
       predictedObservation Q w w_norm wDeltaT a a_norm m m_norm rotAxis
       rotAngle out
       statePre statePost transitionMatrix processNoiseCov observationMatrix
       observationNoiseCov errorCovPre errorCovPost
       set_magDataReady set_m_norm_mean set_m_dip_angle_mean set_observation
       set_predictedObservation with_filter set_filter set_observationMatrix
       set_observationNoiseCov
       QVector3D.x QVector3D.y QVector3D.z fst snd].

Lemma calculateObservation_fresh s :
  magDataReady s = true ->
  calculateObservation s =
  set_magDataReady false
    (with_filter (fun f => set_observationNoiseCov
       (if Rlt_dec 0 (startupTime s)
        then noiseDiagonal (observationNoiseCov f) (R_g_startup s) (R_y_startup s)
        else noiseDiagonal (observationNoiseCov f) (R_g s) (R_y s)) f)
    (with_filter (set_observationMatrix (H_g (prior s) ++ H_y (prior s)))
    (set_predictedObservation
       (colvec (rows3 (scale3 gravity (R_DCM_z (prior s))) ++ rows3 (R_DCM_y (prior s))))
    (set_observation (colvec (rows3 (a s) ++ rows3 (uy s)))
    (set_m_dip_angle_mean (next_m_dip_angle_mean s)
    (set_m_norm_mean (next_m_norm_mean s) s)))))).
Proof.
  intros E. open_def calculateObservation. rewrite E.
  observation_blocks. cbv beta iota zeta.
  destruct (Rlt_dec (m_norm_mean s) 0); state_fields;
  destruct (Rlt_dec (m_dip_angle_mean s) 0); state_fields;
  match goal with
  | |- context [if Rlt_dec EPSILON ?u then _ else _] => destruct (Rlt_dec EPSILON u)
  end; state_fields;
  destruct (Rlt_dec 0 (startupTime s)); state_fields; reflexivity.
Qed.

Lemma calculateObservation_stale s :
  magDataReady s = false ->
  calculateObservation s =
  set_magDataReady false
    (with_filter (fun f => set_observationNoiseCov
       (if Rlt_dec 0 (startupTime s)
        then noiseDiagonal (observationNoiseCov f) (R_g_startup s) (R_y_startup s)
        else noiseDiagonal (observationNoiseCov f) (R_g s) 1) f)
    (with_filter (set_observationMatrix
       (H_g (prior s) ++ [ [0; 0; 0; 0]; [0; 0; 0; 0]; [0; 0; 0; 0] ]))
    (set_predictedObservation
       (colvec (rows3 (scale3 gravity (R_DCM_z (prior s))) ++ [0; 0; 0]))
    (set_observation (colvec (rows3 (a s) ++ [0; 0; 0])) s)))).
Proof.
  intros E. open_def calculateObservation. rewrite E.
  observation_blocks. cbv beta iota zeta. state_fields.
  destruct (Rlt_dec 0 (startupTime s)); state_fields; reflexivity.
Qed.

(** What [calculateObservation] leaves in each member it writes. *)
Lemma calculateObservation_observation (s : t) :
  observation (calculateObservation s) =
  colvec (rows3 (a s) ++ (if magDataReady s then rows3 (uy s) else [0; 0; 0])).
Proof.
  destruct (magDataReady s) eqn:E;
    [rewrite (calculateObservation_fresh s E)
    |rewrite (calculateObservation_stale s E)]; reflexivity.
Qed.

Lemma calculateObservation_predicted (s : t) :
  predictedObservation (calculateObservation s) =
  colvec (rows3 (scale3 gravity (R_DCM_z (prior s)))
          ++ (if magDataReady s then rows3 (R_DCM_y (prior s)) else [0; 0; 0])).
Proof.
  destruct (magDataReady s) eqn:E;
    [rewrite (calculateObservation_fresh s E)
    |rewrite (calculateObservation_stale s E)]; reflexivity.
Qed.

Lemma calculateObservation_model (s : t) :
  observationModel (calculateObservation s) =
  H_g (prior s)
  ++ (if magDataReady s then H_y (prior s)
      else [ [0; 0; 0; 0]; [0; 0; 0; 0]; [0; 0; 0; 0] ]).
Proof.
  destruct (magDataReady s) eqn:E;
    [rewrite (calculateObservation_fresh s E)
    |rewrite (calculateObservation_stale s E)]; reflexivity.
Qed.

Lemma calculateObservation_means (s : t) :
  m_norm_mean (calculateObservation s) =
    (if magDataReady s then next_m_norm_mean s else m_norm_mean s)
  /\ m_dip_angle_mean (calculateObservation s) =
    (if magDataReady s then next_m_dip_angle_mean s else m_dip_angle_mean s).
Proof.
  destruct (magDataReady s) eqn:E;
    [rewrite (calculateObservation_fresh s E)
    |rewrite (calculateObservation_stale s E)]; split; reflexivity.
Qed.

Lemma calculateObservation_noise (s : t) :
  observationNoise (calculateObservation s) =
  if Rlt_dec 0 (startupTime s)
  then noiseDiagonal (observationNoise s) (R_g_startup s) (R_y_startup s)
  else noiseDiagonal (observationNoise s) (R_g s)
         (if magDataReady s then R_y s else 1).
Proof.
  destruct (magDataReady s) eqn:E;
    [rewrite (calculateObservation_fresh s E)
    |rewrite (calculateObservation_stale s E)]; reflexivity.
Qed.

Lemma calculateObservation_consumes (s : t) :
  magDataReady (calculateObservation s) = false.
Proof.
  destruct (magDataReady s) eqn:E;
    [rewrite (calculateObservation_fresh s E)
    |rewrite (calculateObservation_stale s E)]; reflexivity.
Qed.

(** ** The claims *)



(** C3 (the code against the claim).  A gyroscope reading whose time
    stamp is below the previous one is not dropped: the 64-bit difference
    wraps, the time step is positive, and the reading is accepted with
    that step, which moves the startup countdown. *)
Theorem C3_late_reading_accepted (r : QSensorReading.t) (s : t) :
  (0 <= QSensorReading.timestamp r < lastGyroTimestamp s)%Z ->
  (lastGyroTimestamp s < 2 ^ 64)%Z ->
  gyroAccepted r s
  /\ wDeltaT (gyroReadingChanged r s) =
     IZR (2 ^ 64 - (lastGyroTimestamp s - QSensorReading.timestamp r)) / 1000000
  /\ (0 < startupTime s ->
      startupTime (gyroReadingChanged r s) < startupTime s).
Proof.
  intros H1 H2.
  destruct (elapsed_backwards _ _ H1 H2) as [E Hp].
  assert (Ha : gyroAccepted r s) by (split; [lia | exact Hp]).
  split; [exact Ha|]. split.
  - rewrite gyroReadingChanged_wDeltaT by lia. exact E.
  - intros Hs. rewrite gyroReadingChanged_startupTime by exact Ha.
    destruct (Rlt_dec 0 (startupTime s)); [lra | contradiction].
Qed.

(** The part of C3 that holds: a reading with the time stamp of the
    previous one changes nothing but [wDeltaT], which becomes zero. *)
Lemma gyroReadingChanged_same_timestamp (r : QSensorReading.t) (s : t) :
  (0 < lastGyroTimestamp s)%Z ->
  QSensorReading.timestamp r = lastGyroTimestamp s ->
  gyroReadingChanged r s =
  set_lastGyroTimestamp (QSensorReading.timestamp r) (set_wDeltaT 0 s).
Proof.
  intros Hl E.
  rewrite gyroReadingChanged_stale; [|exact Hl|].
  - rewrite E, elapsed_same. reflexivity.
  - rewrite E, elapsed_same. lra.
Qed.

(** C6.  [normalizeQuat] divides the four components by their Euclidean
    norm when that norm exceeds the machine epsilon of [qreal], and the
    result then has norm one; otherwise it sets the four components to
    one. *)
Theorem C6_normalizeQuat (q0 q1 q2 q3 : qreal) :
  let n := sqrt (q0 * q0 + q1 * q1 + q2 * q2 + q3 * q3) in
  EPSILON = (if qreal_is_double then / 2 ^ 52 else / 2 ^ 23)
  /\ (EPSILON < n ->
      normalizeQuat (colvec [q0; q1; q2; q3])
      = colvec [q0 / n; q1 / n; q2 / n; q3 / n]
      /\ quatNorm (normalizeQuat (colvec [q0; q1; q2; q3])) = 1)
  /\ (~ EPSILON < n ->
      normalizeQuat (colvec [q0; q1; q2; q3]) = colvec [1; 1; 1; 1]).
Proof.
  intros n. split; [reflexivity|]. split; intros H.
  - split.
    + unfold normalizeQuat. cbn [at_ colvec map nth]. fold n.
      destruct (Rlt_dec EPSILON n); [reflexivity | contradiction].
    + apply normalizeQuat_unit. exact H.
  - unfold normalizeQuat. cbn [at_ colvec map nth]. fold n.
    destruct (Rlt_dec EPSILON n); [contradiction | reflexivity].
Qed.

(** C8 (as amended).  A magnetometer reading that passes the guard of
    the handler (a previous reading was seen and the time step is
    positive) is stored scaled by 1e6 together with its norm and sets
    [magDataReady]; the kernel and the output are not touched.  A reading
    that does not pass the guard only records its time stamp. *)
Theorem C8_magReadingChanged (r : QSensorReading.t) (s : t) :
  (magAccepted r s ->
     m (magReadingChanged r s) =
       QVector3D.mk (QSensorReading.x r * 1000000) (QSensorReading.y r * 1000000)
         (QSensorReading.z r * 1000000)
     /\ m_norm (magReadingChanged r s) = QVector3D.length (m (magReadingChanged r s))
     /\ magDataReady (magReadingChanged r s) = true
     /\ filter (magReadingChanged r s) = filter s
     /\ out (magReadingChanged r s) = out s)
  /\ (~ magAccepted r s ->
      magReadingChanged r s = set_lastMagTimestamp (QSensorReading.timestamp r) s).
Proof.
  split; intros H.
  - rewrite magReadingChanged_accepted by exact H. repeat split.
  - apply magReadingChanged_dropped. exact H.
Qed.


(** C7.  [shortestPathQuat] leaves the quaternion with a non-negative dot
    product against the history it was given, either as it was or with
    its four components negated, and the history equal to it.  Hence the
    prior published by an accepted gyroscope reading has a non-negative
    dot product with the prior published by the previous accepted
    gyroscope reading, whatever other readings came in between, and
    likewise for the posteriors published by accepted accelerometer
    readings. *)
Theorem C7_sign_alignment :
  (forall (prevQuat : Mat) (q0 q1 q2 q3 : qreal),
     let quat := colvec [q0; q1; q2; q3] in
     let quat' := snd (shortestPathQuat prevQuat quat) in
     0 <= quatDot quat' prevQuat
     /\ (quat' = quat \/ quat' = colvec [- q0; - q1; - q2; - q3])
     /\ fst (shortestPathQuat prevQuat quat) = quat')
  /\ (forall (s : t) (r1 r2 : QSensorReading.t) (events : list Event),
       gyroAccepted r1 s ->
       let s1 := gyroReadingChanged r1 s in
       gyroQuiet s1 events ->
       gyroAccepted r2 (run s1 events) ->
       0 <= quatDot (prior (gyroReadingChanged r2 (run s1 events))) (prior s1))
  /\ (forall (s : t) (r1 r2 : QSensorReading.t) (events : list Event),
       accAccepted r1 s ->
       let s1 := accReadingChanged r1 s in
       accQuiet s1 events ->
       accAccepted r2 (run s1 events) ->
       0 <= quatDot (posterior (accReadingChanged r2 (run s1 events)))
              (posterior s1)).
Proof.
  split; [|split].
  - intros prevQuat q0 q1 q2 q3 quat quat'. split; [|split].
    + apply shortestPathQuat_dot.
    + apply shortestPathQuat_sign.
    + apply shortestPathQuat_history.
  - intros s r1 r2 events H1 s1 Hq H2.
    destruct (gyroReadingChanged_aligned r1 s H1) as (quat1 & Ep1 & Eh1 & _).
    destruct (gyroReadingChanged_aligned r2 _ H2) as (quat2 & Ep2 & _ & _).
    destruct (run_gyro_quiet _ _ Hq) as [_ Eh].
    rewrite Ep2, Eh. fold s1 in Ep1, Eh1.
    rewrite Ep1, <- shortestPathQuat_history_dot, <- Eh1.
    apply shortestPathQuat_dot.
  - intros s r1 r2 events H1 s1 Hq H2.
    destruct (accReadingChanged_aligned r1 s H1) as (quat1 & Ep1 & Eh1).
    destruct (accReadingChanged_aligned r2 _ H2) as (quat2 & Ep2 & _).
    pose proof (run_acc_quiet _ _ Hq) as Eh.
    rewrite Ep2, Eh. fold s1 in Ep1, Eh1.
    rewrite Ep1, <- shortestPathQuat_history_dot, <- Eh1.
    apply shortestPathQuat_dot.
Qed.

(** C9.  While [startupTime] is positive a publish emits nothing and
    leaves the axis and the angle as they were, yet it increments the
    silent-cycle counter of every open stream (the gyroscope being open);
    over any stream of readings, a state whose countdown is still
    positive has never emitted [rotationChanged].  Once the countdown is
    no longer positive, every accepted gyroscope or accelerometer reading
    emits [rotationChanged]. *)
Theorem C9_startup (s : t) (r : QSensorReading.t) (events : list Event) :
  (0 < startupTime s ->
     getRotAxis (calculateOutputRotation s) = getRotAxis s
     /\ getRotAngle (calculateOutputRotation s) = getRotAngle s
     /\ emitted (calculateOutputRotation s) = emitted s)
  /\ (gyroId s <> ""%string -> 0 < startupTime s ->
      gyroSilentCycles (calculateOutputRotation s) = (gyroSilentCycles s + 1)%Z
      /\ (accId s <> ""%string ->
          accSilentCycles (calculateOutputRotation s) = (accSilentCycles s + 1)%Z)
      /\ (magId s <> ""%string ->
          magSilentCycles (calculateOutputRotation s) = (magSilentCycles s + 1)%Z))
  /\ (0 < startupTime (run s events) ->
      emitted (run s events) = emitted s
      /\ getRotAxis (run s events) = getRotAxis s
      /\ getRotAngle (run s events) = getRotAngle s)
  /\ (gyroId s <> ""%string -> gyroAccepted r s ->
      ~ 0 < startupTime (gyroReadingChanged r s) ->
      emitted (gyroReadingChanged r s) = S (emitted s))
  /\ (gyroId s <> ""%string -> accAccepted r s ->
      ~ 0 < startupTime s ->
      emitted (accReadingChanged r s) = S (emitted s)).
Proof.
  split; [|split; [|split; [|split]]].
  - intros H. apply calculateOutputRotation_silent. right. exact H.
  - intros Hg Hs. rewrite calculateOutputRotation_suppressed by assumption.
    destruct (countSilentCycles_counters s) as (E1 & E2 & E3).
    split; [exact E1|]. split; intros Hn; apply String.eqb_neq in Hn.
    + rewrite E2, Hn. reflexivity.
    + rewrite E3, Hn. reflexivity.
  - intros H. pose proof (run_published s events H) as E.
    pose proof (f_equal (fun p => fst (fst p)) E) as E1.
    pose proof (f_equal (fun p => snd (fst p)) E) as E2.
    pose proof (f_equal snd E) as E3.
    cbn [published fst snd] in E1, E2, E3.
    split; [exact E3|]. split; [exact E1 | exact E2].
  - intros Hg Ha Hs. revert Hs.
    rewrite gyroReadingChanged_accepted by exact Ha.
    unstamp startupTime. unstamp emitted. kept startupTime. intros Hs.
    set (x := gyroPredict _) in *.
    assert (Hx : gyroId x = gyroId s).
    { subst x. do 3 kept gyroId. reflexivity. }
    destruct (calculateOutputRotation_emits x) as [_ E];
      [congruence | exact Hs |].
    rewrite E. f_equal. subst x. do 2 kept emitted.
    rewrite gyroInputs_emitted. reflexivity.
  - intros Hg Ha Hs.
    rewrite accReadingChanged_accepted by exact Ha.
    unstamp emitted.
    set (x := accCorrect _).
    assert (Hx : gyroId x = gyroId s /\ startupTime x = startupTime s).
    { subst x. split.
      - do 2 kept gyroId. reflexivity.
      - do 2 kept startupTime. reflexivity. }
    destruct Hx as [Hx1 Hx2].
    destruct (calculateOutputRotation_emits x) as [_ E];
      [congruence | rewrite Hx2; exact Hs |].
    rewrite E. f_equal. subst x. do 2 kept emitted. reflexivity.
Qed.

(** C4 (the code against the claim).  As long as no gyroscope reading
    has been accepted, whatever the accelerometer and the magnetometer
    delivered, [getRotAxis] returns (0,0,0) and [rotationChanged] has not
    been emitted; but [getRotAngle] returns what the member held when the
    object was constructed, not 0: the constructor does not assign
    [rotAngle], and nothing writes it before the first publish. *)
Theorem C4_before_the_gyroscope
    (gyroId0 accId0 magId0 : string) (filter0 : KalmanFilter.t)
    (wDeltaT0 w_norm0 a_norm0 m_norm0 rotAngle0 : qreal) (events : list Event) :
  let s0 := new gyroId0 accId0 magId0 filter0 wDeltaT0 w_norm0 a_norm0 m_norm0
              rotAngle0 in
  gyroQuiet s0 events ->
  getRotAxis (run s0 events) = QVector3D.mk 0 0 0
  /\ getRotAngle (run s0 events) = rotAngle0
  /\ emitted (run s0 events) = 0%nat
  /\ ~ In rotationChanged (out (run s0 events)).
Proof.
  intros s0 Hq.
  destruct (run_gyro_quiet s0 events Hq) as [Es _].
  assert (Hp : 0 < startupTime (run s0 events)).
  { rewrite Es. change (startupTime s0) with 1. lra. }
  pose proof (run_published s0 events Hp) as E.
  pose proof (f_equal (fun p => fst (fst p)) E) as E1.
  pose proof (f_equal (fun p => snd (fst p)) E) as E2.
  pose proof (f_equal snd E) as E3.
  cbn [published fst snd] in E1, E2, E3.
  split; [exact E1|]. split; [exact E2|]. split; [exact E3|].
  change (emitted s0) with 0%nat in E3.
  unfold emitted in E3. intros Hin.
  assert (Hf : In rotationChanged
                 (List.filter
                    (fun o => match o with rotationChanged => true | _ => false end)
                    (out (run s0 events)))).
  { apply filter_In. split; [exact Hin | reflexivity]. }
  destruct (List.filter _ _); [contradiction | discriminate].
Qed.

(** C5.  For every accepted gyroscope reading, with time step [dT] and
    angular velocity [(wx, wy, wz)] in rad/s, what [calculateProcess]
    hands to the kernel is: the process vector, the normalisation of
    [q + (dT/2) Omega(w) q] over the posterior [q]; the transition
    matrix, with unit diagonal and the entries [+-(dT/2) w_i] of the
    Omega pattern off it; and the process noise, [Q * dT] for [Q] the
    diagonal matrix of 1e-4.  The unit diagonal is the one the kernel is
    constructed with: [calculateProcess] does not write it. *)
Theorem C5_process_model
    (gyroId0 accId0 magId0 : string) (filter0 : KalmanFilter.t)
    (wDeltaT0 w_norm0 a_norm0 m_norm0 rotAngle0 : qreal) (events : list Event)
    (r : QSensorReading.t) :
  let s0 := new gyroId0 accId0 magId0 filter0 wDeltaT0 w_norm0 a_norm0 m_norm0
              rotAngle0 in
  unitDiagonal (transitionMatrix filter0) ->
  let s := run s0 events in
  gyroAccepted r s ->
  let dT := elapsed (QSensorReading.timestamp r) (lastGyroTimestamp s) in
  let wx := qDegreesToRadians (QSensorReading.x r) in
  let wy := qDegreesToRadians (QSensorReading.y r) in
  let wz := qDegreesToRadians (QSensorReading.z r) in
  let q0 := at_ (posterior s) 0 0 in
  let q1 := at_ (posterior s) 1 0 in
  let q2 := at_ (posterior s) 2 0 in
  let q3 := at_ (posterior s) 3 0 in
  let s' := calculateProcess (gyroInputs r (set_wDeltaT dT s)) in
  gyroReadingChanged r s =
    set_lastGyroTimestamp (QSensorReading.timestamp r)
      (calculateOutputRotation (gyroPredict s'))
  /\ process s' =
     normalizeQuat
       (colvec [ q0 + dT / 2 * (- q1 * wx - q2 * wy - q3 * wz);
                 q1 + dT / 2 * (q0 * wx - q3 * wy + q2 * wz);
                 q2 + dT / 2 * (q3 * wx + q0 * wy - q1 * wz);
                 q3 + dT / 2 * (- q2 * wx + q1 * wy + q0 * wz) ])
  /\ transition s' =
     [ [1;            - (dT / 2) * wx;  - (dT / 2) * wy;  - (dT / 2) * wz];
       [dT / 2 * wx;  1;                dT / 2 * wz;      - (dT / 2) * wy];
       [dT / 2 * wy;  - (dT / 2) * wz;  1;                dT / 2 * wx];
       [dT / 2 * wz;  dT / 2 * wy;      - (dT / 2) * wx;  1] ]
  /\ processNoiseCov (filter s') =
     [ [1e-4 * dT; 0; 0; 0];
       [0; 1e-4 * dT; 0; 0];
       [0; 0; 1e-4 * dT; 0];
       [0; 0; 0; 1e-4 * dT] ].
Proof.
  intros s0 Hd s Ha dT wx wy wz q0 q1 q2 q3 s'.
  assert (HF : unitDiagonal (transition s)).
  { apply run_unitDiagonal. exact Hd. }
  assert (HQ : Q s = Q0) by apply run_Q.
  set (x := gyroInputs r (set_wDeltaT dT s)) in *.
  assert (Hw : w x = QVector3D.mk wx wy wz) by apply gyroInputs_w.
  assert (Ht : wDeltaT x = dT).
  { subst x. kept wDeltaT. reflexivity. }
  assert (Hp : posterior x = posterior s).
  { subst x. kept posterior. reflexivity. }
  assert (Hx : transition x = transition s).
  { subst x. kept transition. reflexivity. }
  assert (Hq : Q x = Q0).
  { subst x. kept Q. exact HQ. }
  split; [apply gyroReadingChanged_accepted; exact Ha|]. split; [|split].
  - subst s'. rewrite calculateProcess_process. cbv zeta.
    rewrite Hw, Ht, Hp. cbn [QVector3D.x QVector3D.y QVector3D.z].
    fold q0 q1 q2 q3. f_equal. mat_eq.
  - subst s'. rewrite calculateProcess_transition. cbv zeta.
    rewrite Hw, Ht, Hx. cbn [QVector3D.x QVector3D.y QVector3D.z].
    destruct HF as (-> & -> & -> & ->). mat_eq.
  - subst s'. rewrite calculateProcess_processNoiseCov, Ht, Hq.
    unfold Q0, mscale. cbn [map]. mat_eq.
Qed.

(** C2 (the code against the claim).  A publish outside startup, over a
    posterior [q] of norm one with angle [theta = 2 atan2(|v|, q0)],
    emits [rotationChanged] and leaves the angle [theta] in degrees, but
    not a unit axis: lines 581-583 multiply [(q1, q2, q3)] by
    [sin (theta/2)] where the axis is [(q1, q2, q3)] over it, so what is
    left is [(q1, q2, q3) |v|], of length [|v|^2 = 1 - q0^2].  Below the
    machine epsilon the axis and the angle are zero, as claimed. *)
Theorem C2_axis_and_angle (s : t) :
  gyroId s <> ""%string ->
  ~ 0 < startupTime s ->
  quatNorm (posterior s) = 1 ->
  let q := posterior s in
  let s' := calculateOutputRotation s in
  emitted s' = S (emitted s)
  /\ (angleOf q < EPSILON ->
      getRotAxis s' = QVector3D.mk 0 0 0 /\ getRotAngle s' = 0)
  /\ (~ angleOf q < EPSILON ->
      getRotAxis s' =
        QVector3D.mk (at_ q 1 0 * vectorNorm q) (at_ q 2 0 * vectorNorm q)
          (at_ q 3 0 * vectorNorm q)
      /\ QVector3D.length (getRotAxis s') = 1 - at_ q 0 0 * at_ q 0 0
      /\ getRotAngle s' = angleOf q * (180 / PI)).
Proof. apply calculateOutputRotation_unit. Qed.

(** ** Further properties of the handlers *)

(** *** The guards *)



(** *** How often [rotationChanged] is emitted *)

Lemma gyroReadingChanged_emitted (r : QSensorReading.t) (s : t) :
  gyroId s <> ""%string -> ~ 0 < startupTime s -> gyroAccepted r s ->
  emitted (gyroReadingChanged r s) = S (emitted s).
Proof.
  intros Hg Hs H. rewrite gyroReadingChanged_accepted by exact H.
  unstamp emitted. set (x := gyroPredict _).
  assert (Hx : gyroId x = gyroId s /\ startupTime x = startupTime s).
  { subst x. split.
    - do 3 kept gyroId. reflexivity.
    - do 2 kept startupTime. rewrite gyroInputs_startupTime.
      cbn [startupTime set_wDeltaT].
      destruct (Rlt_dec 0 (startupTime s)); [contradiction|reflexivity]. }
  destruct Hx as [Hx1 Hx2].
  destruct (calculateOutputRotation_emits x) as [_ E];
    [congruence | rewrite Hx2; exact Hs |].
  rewrite E. f_equal. subst x. do 2 kept emitted.
  rewrite gyroInputs_emitted. reflexivity.
Qed.

Lemma accReadingChanged_emitted (r : QSensorReading.t) (s : t) :
  gyroId s <> ""%string -> ~ 0 < startupTime s -> accAccepted r s ->
  emitted (accReadingChanged r s) = S (emitted s).
Proof.
  intros Hg Hs H. rewrite accReadingChanged_accepted by exact H.
  unstamp emitted. set (x := accCorrect _).
  assert (Hx : gyroId x = gyroId s /\ startupTime x = startupTime s).
  { subst x. split.
    - do 2 kept gyroId. reflexivity.
    - do 2 kept startupTime. reflexivity. }
  destruct Hx as [Hx1 Hx2].
  destruct (calculateOutputRotation_emits x) as [_ E];
    [congruence | rewrite Hx2; exact Hs |].
  rewrite E. f_equal. subst x. do 2 kept emitted. reflexivity.
Qed.

Lemma step_no_gyro_emitted (s : t) (e : Event) :
  gyroId s = ""%string -> emitted (step s e) = emitted s.
Proof.
  intros Hg. destruct e as [r|r|r]; cbn [step].
  - destruct (gyroAccepted_dec r s) as [H|H].
    + rewrite gyroReadingChanged_accepted by exact H. unstamp emitted.
      rewrite calculateOutputRotation_no_gyro
        by (do 3 kept gyroId; cbn [gyroId set_wDeltaT]; exact Hg).
      rewrite emitted_qDebug. do 2 kept emitted.
      rewrite gyroInputs_emitted. reflexivity.
    + destruct (gyroReadingChanged_dropped r s H) as [dT ->]. reflexivity.
  - destruct (accAccepted_dec r s) as [H|H].
    + rewrite accReadingChanged_accepted by exact H. unstamp emitted.
      rewrite calculateOutputRotation_no_gyro by (do 2 kept gyroId; exact Hg).
      rewrite emitted_qDebug. do 2 kept emitted. reflexivity.
    + rewrite accReadingChanged_dropped by exact H. reflexivity.
  - destruct (magAccepted_dec r s) as [H|H].
    + rewrite magReadingChanged_accepted by exact H. reflexivity.
    + rewrite magReadingChanged_dropped by exact H. reflexivity.
Qed.

Lemma publishing_gyro (r : QSensorReading.t) (s : t) :
  publishing s (GyroReading r) = true <-> gyroAccepted r s.
Proof.
  unfold publishing, gyroAccepted. rewrite andb_true_iff, Z.ltb_lt.
  destruct (Rlt_dec 0 _); intuition congruence.
Qed.

Lemma publishing_acc (r : QSensorReading.t) (s : t) :
  publishing s (AccReading r) = true <-> accAccepted r s.
Proof.
  unfold publishing, accAccepted. rewrite andb_true_iff, Z.ltb_lt.
  destruct (Rlt_dec 0 _); intuition congruence.
Qed.

Lemma step_emitted (s : t) (e : Event) :
  gyroId s <> ""%string -> ~ 0 < startupTime s ->
  emitted (step s e) = ((if publishing s e then 1 else 0) + emitted s)%nat.
Proof.
  intros Hg Hs. destruct e as [r|r|r].
  - destruct (publishing s (GyroReading r)) eqn:E; cbn [step].
    + apply gyroReadingChanged_emitted; try assumption.
      apply publishing_gyro. exact E.
    + assert (H : ~ gyroAccepted r s).
      { intros H. apply publishing_gyro in H. congruence. }
      destruct (gyroReadingChanged_dropped r s H) as [dT ->]. reflexivity.
  - destruct (publishing s (AccReading r)) eqn:E; cbn [step].
    + apply accReadingChanged_emitted; try assumption.
      apply publishing_acc. exact E.
    + assert (H : ~ accAccepted r s).
      { intros H. apply publishing_acc in H. congruence. }
      rewrite accReadingChanged_dropped by exact H. reflexivity.
  - cbn [step publishing]. destruct (magAccepted_dec r s) as [H|H].
    + rewrite magReadingChanged_accepted by exact H. reflexivity.
    + rewrite magReadingChanged_dropped by exact H. reflexivity.
Qed.

Lemma step_gyroId (s : t) (e : Event) : gyroId (step s e) = gyroId s.
Proof.
  pose proof (step_configuration s e) as H.
  apply (f_equal (fun c => fst (fst (fst c)))) in H. exact H.
Qed.

(** X2.  Once the startup countdown is no longer positive and a
    gyroscope is open, a stream of readings emits [rotationChanged]
    exactly once for every gyroscope or accelerometer reading that passes
    its guard, and never for a magnetometer reading or a reading that is
    held back; with no gyroscope open nothing is ever emitted. *)
Theorem X2_one_signal_per_accepted_reading (s : t) (events : list Event) :
  (gyroId s <> ""%string -> ~ 0 < startupTime s ->
   emitted (run s events) = (emitted s + publishes s events)%nat)
  /\ (gyroId s = ""%string -> emitted (run s events) = emitted s).
Proof.
  split.
  - revert s. induction events as [|e events IH]; intros s Hg Hs.
    + cbn [run fold_left publishes]. lia.
    + rewrite run_cons. cbn [publishes]. rewrite IH.
      * rewrite step_emitted by assumption. lia.
      * rewrite step_gyroId. exact Hg.
      * pose proof (step_startupTime_le s e). lra.
  - revert s. induction events as [|e events IH]; intros s Hg.
    + reflexivity.
    + rewrite run_cons, IH by (rewrite step_gyroId; exact Hg).
      apply step_no_gyro_emitted. exact Hg.
Qed.

(** *** The end of the startup phase *)

Lemma startupLines_emit (o : Output) (s : t) :
  startupLines (emit o s) =
  match o with
  | qDebug StartupIsOver => S (startupLines s)
  | _ => startupLines s
  end.
Proof. destruct o as [|[]]; reflexivity. Qed.

Lemma countSilentCycles_startupLines (s : t) :
  startupLines (countSilentCycles s) = startupLines s.
Proof. paths countSilentCycles; reflexivity. Qed.

Lemma calculateOutputRotation_startupLines (s : t) :
  startupLines (calculateOutputRotation s) = startupLines s.
Proof.
  destruct (string_dec (gyroId s) "") as [E|E].
  - rewrite calculateOutputRotation_no_gyro by exact E. reflexivity.
  - destruct (Rlt_dec 0 (startupTime s)).
    + rewrite calculateOutputRotation_suppressed by assumption.
      apply countSilentCycles_startupLines.
    + rewrite calculateOutputRotation_published by assumption.
      rewrite startupLines_emit. kept startupLines.
      apply countSilentCycles_startupLines.
Qed.

Lemma gyroInputs_startupLines (r : QSensorReading.t) (s : t) :
  startupLines (gyroInputs r s) =
  if Rlt_dec 0 (startupTime s) then
    if Rlt_dec (startupTime s - wDeltaT s) 0 then S (startupLines s)
    else startupLines s
  else startupLines s.
Proof.
  open_def gyroInputs. cbv zeta.
  change (startupTime (set_gyroSilentCycles 0 s)) with (startupTime s).
  change (wDeltaT (set_gyroSilentCycles 0 s)) with (wDeltaT s).
  destruct (Rlt_dec 0 (startupTime s)); [|reflexivity].
  change (startupTime (set_startupTime ?v ?x)) with v.
  destruct (Rlt_dec (startupTime s - wDeltaT s) 0); reflexivity.
Qed.

Lemma step_startupLines (s : t) (e : Event) :
  (0 < startupTime s -> startupTime (step s e) < 0 ->
   startupLines (step s e) = S (startupLines s))
  /\ (~ (0 < startupTime s /\ startupTime (step s e) < 0) ->
      startupLines (step s e) = startupLines s).
Proof.
  destruct e as [r|r|r]; cbn [step].
  - destruct (gyroAccepted_dec r s) as [H|H].
    + rewrite gyroReadingChanged_startupTime by exact H.
      rewrite gyroReadingChanged_accepted by exact H.
      unstamp startupLines. rewrite calculateOutputRotation_startupLines.
      do 2 kept startupLines. rewrite gyroInputs_startupLines.
      cbn [startupTime wDeltaT set_wDeltaT].
      change (startupLines (set_wDeltaT ?v ?x)) with (startupLines x).
      destruct (Rlt_dec 0 (startupTime s)) as [Hs|Hs];
        [destruct (Rlt_dec _ 0) as [Hn|Hn]|]; split; intros; tauto || lra.
    + destruct (gyroReadingChanged_dropped r s H) as [dT ->].
      split; [|reflexivity].
      change (startupTime (set_lastGyroTimestamp ?a (set_wDeltaT ?b ?x)))
        with (startupTime x). intros; lra.
  - assert (E : startupTime (accReadingChanged r s) = startupTime s
                /\ startupLines (accReadingChanged r s) = startupLines s).
    { destruct (accAccepted_dec r s) as [H|H].
      - rewrite accReadingChanged_accepted by exact H. split.
        + unstamp startupTime. do 3 kept startupTime. reflexivity.
        + unstamp startupLines. rewrite calculateOutputRotation_startupLines.
          do 2 kept startupLines. reflexivity.
      - rewrite accReadingChanged_dropped by exact H. split; reflexivity. }
    destruct E as [-> ->]. split; intros; [lra | reflexivity].
  - assert (E : startupTime (magReadingChanged r s) = startupTime s
                /\ startupLines (magReadingChanged r s) = startupLines s).
    { destruct (magAccepted_dec r s) as [H|H].
      - rewrite magReadingChanged_accepted by exact H. split; reflexivity.
      - rewrite magReadingChanged_dropped by exact H. split; reflexivity. }
    destruct E as [-> ->]. split; intros; [lra | reflexivity].
Qed.

Lemma step_frozen (s : t) (e : Event) :
  ~ 0 < startupTime s -> startupTime (step s e) = startupTime s.
Proof.
  intros Hs. destruct e as [r|r|r].
  - destruct (gyroAccepted_dec r s) as [H|H]; cbn [step].
    + rewrite gyroReadingChanged_startupTime by exact H.
      destruct (Rlt_dec 0 (startupTime s)); [contradiction|reflexivity].
    + destruct (gyroReadingChanged_dropped r s H) as [dT ->]. reflexivity.
  - apply (step_gyro_quiet s (AccReading r) I).
  - apply (step_gyro_quiet s (MagReading r) I).
Qed.

Lemma run_frozen (s : t) (events : list Event) :
  ~ 0 < startupTime s ->
  startupTime (run s events) = startupTime s
  /\ startupLines (run s events) = startupLines s.
Proof.
  revert s. induction events as [|e events IH]; intros s Hs; [split; reflexivity|].
  rewrite run_cons. pose proof (step_frozen s e Hs) as E.
  destruct (IH (step s e)) as [E1 E2]; [rewrite E; exact Hs|].
  rewrite E1, E2. split; [exact E|].
  apply (step_startupLines s e). tauto.
Qed.

(** X3.  The startup phase ends once and for all: when the countdown is
    no longer positive no reading changes it again, and "Startup is
    over" is written at most once over any stream of readings - by the
    gyroscope reading that takes the countdown below zero, and not at
    all when the countdown lands exactly on zero. *)
Theorem X3_startup_ends_once (s : t) (events : list Event) :
  (~ 0 < startupTime s ->
   startupTime (run s events) = startupTime s
   /\ startupLines (run s events) = startupLines s)
  /\ (0 <= startupTime (run s events) ->
      startupLines (run s events) = startupLines s)
  /\ (startupLines (run s events) <= S (startupLines s))%nat.
Proof.
  split; [apply run_frozen|]. split.
  - revert s. induction events as [|e events IH]; intros s H; [reflexivity|].
    rewrite run_cons in *. rewrite (IH _ H).
    apply (step_startupLines s e).
    pose proof (run_startupTime_le (step s e) events). lra.
  - revert s. induction events as [|e events IH]; intros s.
    + cbn [run fold_left]. lia.
    + rewrite run_cons.
      destruct (Rlt_dec (startupTime (step s e)) 0) as [Hn|Hn].
      * destruct (run_frozen (step s e) events) as [_ ->]; [lra|].
        destruct (Rlt_dec 0 (startupTime s)) as [Hs|Hs].
        -- rewrite (proj1 (step_startupLines s e) Hs Hn). lia.
        -- rewrite (proj2 (step_startupLines s e)) by tauto. lia.
      * rewrite <- (proj2 (step_startupLines s e)) by tauto. apply IH.
Qed.

(** *** The published angle *)

Lemma qRadiansToDegrees_range (x : qreal) :
  0 <= x <= 2 * PI -> 0 <= qRadiansToDegrees x <= 360.
Proof.
  intros [H1 H2]. unfold qRadiansToDegrees. pose proof PI_RGT_0 as Hp.
  assert (Hk : 0 < 180 / PI) by (apply Rdiv_lt_0_compat; lra).
  split.
  - apply Rmult_le_pos; lra.
  - replace 360 with (2 * PI * (180 / PI)) by (field; lra).
    apply Rmult_le_compat_r; lra.
Qed.

Lemma axisAngle_range (s : t) : 0 <= rotAngle (axisAngle s) <= 360.
Proof.
  destruct (axisAngle_writes s) as [H1 H2]. cbv zeta in H1, H2.
  destruct (Rlt_dec (angleOf (statePost (filter s))) EPSILON) as [H|H].
  - destruct (H1 H) as [_ ->]. lra.
  - destruct (H2 H) as [_ ->]. apply qRadiansToDegrees_range, angleOf_range.
Qed.

Lemma calculateOutputRotation_rotAngle (s : t) :
  rotAngle (calculateOutputRotation s) = rotAngle s
  \/ 0 <= rotAngle (calculateOutputRotation s) <= 360.
Proof.
  destruct (string_dec (gyroId s) "") as [E|E];
    [left; apply calculateOutputRotation_silent; left; exact E|].
  destruct (Rlt_dec 0 (startupTime s)) as [H|H];
    [left; apply calculateOutputRotation_silent; right; exact H|].
  right. rewrite calculateOutputRotation_published by assumption.
  rewrite (proj2 (rotation_emit _ _)). apply axisAngle_range.
Qed.

Lemma step_rotAngle (s : t) (e : Event) :
  rotAngle (step s e) = rotAngle s \/ 0 <= rotAngle (step s e) <= 360.
Proof.
  destruct e as [r|r|r]; cbn [step].
  - destruct (gyroAccepted_dec r s) as [H|H].
    + rewrite gyroReadingChanged_accepted by exact H. unstamp rotAngle.
      set (y := gyroPredict _).
      assert (Ey : rotAngle y = rotAngle s).
      { subst y. do 3 kept rotAngle. reflexivity. }
      destruct (calculateOutputRotation_rotAngle y) as [E|E];
        [left; congruence | right; exact E].
    + destruct (gyroReadingChanged_dropped r s H) as [dT ->]. left; reflexivity.
  - destruct (accAccepted_dec r s) as [H|H].
    + rewrite accReadingChanged_accepted by exact H. unstamp rotAngle.
      set (y := accCorrect _).
      assert (Ey : rotAngle y = rotAngle s).
      { subst y. do 2 kept rotAngle. reflexivity. }
      destruct (calculateOutputRotation_rotAngle y) as [E|E];
        [left; congruence | right; exact E].
    + rewrite accReadingChanged_dropped by exact H. left; reflexivity.
  - destruct (magAccepted_dec r s) as [H|H].
    + rewrite magReadingChanged_accepted by exact H. left; reflexivity.
    + rewrite magReadingChanged_dropped by exact H. left; reflexivity.
Qed.

(** X4.  The angle that [getRotAngle] returns stays between 0 and 360
    degrees: every publish outside startup leaves it in that range,
    whatever the posterior is, and nothing else writes it, so a stream of
    readings never takes it out of the range. *)
Theorem X4_angle_range (s : t) (events : list Event) :
  (gyroId s <> ""%string -> ~ 0 < startupTime s ->
   0 <= getRotAngle (calculateOutputRotation s) <= 360)
  /\ (0 <= getRotAngle s <= 360 -> 0 <= getRotAngle (run s events) <= 360).
Proof.
  unfold getRotAngle. split.
  - intros Hg Hs. rewrite calculateOutputRotation_published by assumption.
    rewrite (proj2 (rotation_emit _ _)). apply axisAngle_range.
  - revert s. apply (run_invariant (fun s => 0 <= rotAngle s <= 360)).
    intros s e H. destruct (step_rotAngle s e) as [E|E]; [rewrite E|]; assumption.
Qed.

(** *** Sign alignment *)

Lemma quatDot_opp (prevQuat : Mat) (a b c d : qreal) :
  quatDot (colvec [- a; - b; - c; - d]) prevQuat
  = - quatDot (colvec [a; b; c; d]) prevQuat.
Proof. unfold quatDot. cbn [at_ colvec map nth]. ring. Qed.

(** X5.  [shortestPathQuat] picks one of [q] and [-q] by the history
    alone: applied again to its own result it changes nothing, and
    whenever the dot product with the history is not zero, [q] and [-q]
    are taken to the same quaternion.  On a zero dot product the
    quaternion is kept as it comes, so [q] and [-q] stay apart. *)
Theorem X5_shortestPathQuat_canonical (prevQuat : Mat) (q0 q1 q2 q3 : qreal) :
  let quat := colvec [q0; q1; q2; q3] in
  let opposite := colvec [- q0; - q1; - q2; - q3] in
  let r := shortestPathQuat prevQuat quat in
  shortestPathQuat (fst r) (snd r) = r
  /\ (quatDot quat prevQuat <> 0 ->
      snd (shortestPathQuat prevQuat opposite) = snd r)
  /\ (quatDot quat prevQuat = 0 ->
      snd r = quat /\ snd (shortestPathQuat prevQuat opposite) = opposite).
Proof.
  cbv zeta. split; [|split].
  - unfold shortestPathQuat at 2 3 4. cbv zeta.
    destruct (Rlt_dec _ 0) as [H|H]; cbn [fst snd at_ colvec map nth];
      unfold shortestPathQuat; cbv zeta; cbn [at_ colvec map nth];
      (destruct (Rlt_dec _ 0) as [H'|H']; [exfalso; nra | reflexivity]).
  - intros Hd. unfold shortestPathQuat. cbv zeta.
    fold (quatDot (colvec [q0; q1; q2; q3]) prevQuat).
    fold (quatDot (colvec [- q0; - q1; - q2; - q3]) prevQuat).
    rewrite quatDot_opp.
    destruct (Rlt_dec (quatDot (colvec [q0; q1; q2; q3]) prevQuat) 0) as [H|H];
      destruct (Rlt_dec (- quatDot (colvec [q0; q1; q2; q3]) prevQuat) 0) as [H'|H'];
      cbn [snd at_ colvec map nth]; try (exfalso; lra).
    + reflexivity.
    + rewrite !Ropp_involutive. reflexivity.
  - intros Hd. unfold shortestPathQuat. cbv zeta.
    fold (quatDot (colvec [q0; q1; q2; q3]) prevQuat).
    fold (quatDot (colvec [- q0; - q1; - q2; - q3]) prevQuat).
    rewrite quatDot_opp, Hd.
    destruct (Rlt_dec 0 0) as [H|H]; [exfalso; lra|].
    destruct (Rlt_dec (- 0) 0) as [H'|H']; [exfalso; lra|].
    split; reflexivity.
Qed.

(** *** The norm of the state *)

Lemma normalizeQuat_norm (quat : Mat) :
  quatNorm (normalizeQuat quat) = 1 \/ normalizeQuat quat = colvec [1; 1; 1; 1].
Proof.
  destruct (Rlt_dec EPSILON (quatNorm quat)) as [H|H].
  - left. apply normalizeQuat_unit, H.
  - right. unfold normalizeQuat. fold (quatDot quat quat). fold (quatNorm quat).
    destruct (Rlt_dec EPSILON (quatNorm quat)); [contradiction | reflexivity].
Qed.

Lemma quatNorm_ones : quatNorm (colvec [1; 1; 1; 1]) = 2.
Proof.
  unfold quatNorm. rewrite quatDot_colvec.
  replace (1 * 1 + 1 * 1 + 1 * 1 + 1 * 1) with (2 * 2) by ring.
  apply sqrt_square. lra.
Qed.

Lemma normalizeQuat_norm12 (quat : Mat) :
  quatNorm (normalizeQuat quat) = 1 \/ quatNorm (normalizeQuat quat) = 2.
Proof.
  destruct (normalizeQuat_norm quat) as [H| ->];
    [left; exact H | right; apply quatNorm_ones].
Qed.

(** Normalising twice always gives norm one. *)
Lemma normalizeQuat_twice (quat : Mat) :
  quatNorm (normalizeQuat (normalizeQuat quat)) = 1.
Proof.
  apply normalizeQuat_unit. pose proof EPSILON_lt_1.
  destruct (normalizeQuat_norm12 quat) as [-> | ->]; lra.
Qed.

Lemma gyroReadingChanged_unit (r : QSensorReading.t) (s : t) :
  gyroAccepted r s ->
  quatNorm (prior (gyroReadingChanged r s)) = 1
  /\ posterior (gyroReadingChanged r s) = prior (gyroReadingChanged r s)
  /\ statePreHistory (gyroReadingChanged r s) = prior (gyroReadingChanged r s).
Proof.
  intros H. rewrite gyroReadingChanged_accepted by exact H.
  set (x := gyroInputs _ _).
  split; [|split].
  - unstamp prior. kept prior.
    rewrite gyroPredict_prior, shortestPathQuat_norm, calculateProcess_process.
    apply normalizeQuat_twice.
  - unstamp posterior. unstamp prior. kept posterior. kept prior.
    apply gyroPredict_posterior.
  - unstamp statePreHistory. unstamp prior. kept statePreHistory. kept prior.
    rewrite gyroPredict_history, gyroPredict_prior.
    destruct (normalizeQuat_shape (process (calculateProcess x)))
      as (a0 & b0 & c0 & d0 & ->).
    apply shortestPathQuat_history.
Qed.

Lemma accReadingChanged_norm (r : QSensorReading.t) (s : t) :
  accAccepted r s ->
  (quatNorm (posterior (accReadingChanged r s)) = 1
   \/ quatNorm (posterior (accReadingChanged r s)) = 2)
  /\ statePostHistory (accReadingChanged r s) = posterior (accReadingChanged r s)
  /\ prior (accReadingChanged r s) = prior s.
Proof.
  intros H. rewrite accReadingChanged_accepted by exact H.
  set (x := calculateObservation _).
  split; [|split].
  - unstamp posterior. kept posterior.
    rewrite accCorrect_posterior, shortestPathQuat_norm.
    apply normalizeQuat_norm12.
  - unstamp statePostHistory. unstamp posterior.
    kept statePostHistory. kept posterior.
    rewrite accCorrect_history, accCorrect_posterior.
    match goal with |- context [normalizeQuat ?q] =>
      destruct (normalizeQuat_shape q) as (a0 & b0 & c0 & d0 & ->) end.
    apply shortestPathQuat_history.
  - unstamp prior. subst x. do 3 kept prior. reflexivity.
Qed.

(** X6.  Every accepted gyroscope reading leaves an a priori quaternion
    of norm exactly one - the process vector is normalised by
    [calculateProcess], and the prediction is normalised once more, so
    the fallback of [normalizeQuat] cannot survive - and leaves the a
    posteriori quaternion and the history equal to it.  (The prediction
    is the kernel's, which stores the process vector as the prior.) *)
Theorem X6_gyro_reading_leaves_unit_state (r : QSensorReading.t) (s : t) :
  gyroAccepted r s ->
  let s' := gyroReadingChanged r s in
  quatNorm (prior s') = 1
  /\ posterior s' = prior s'
  /\ statePreHistory s' = prior s'.
Proof. intros H. apply gyroReadingChanged_unit. exact H. Qed.

(** X7.  Whatever the correction step of the kernel returns, an accepted
    accelerometer reading leaves an a posteriori quaternion of norm one,
    or else the fallback of [normalizeQuat] (all four components equal,
    of norm two); the history equals it, and the a priori quaternion is
    not written. *)
Theorem X7_acc_reading_leaves_unit_or_fallback (r : QSensorReading.t) (s : t) :
  accAccepted r s ->
  let s' := accReadingChanged r s in
  (quatNorm (posterior s') = 1 \/ quatNorm (posterior s') = 2)
  /\ statePostHistory s' = posterior s'
  /\ prior s' = prior s.
Proof. intros H. apply accReadingChanged_norm. exact H. Qed.

Lemma step_norms (s : t) (e : Event) :
  quatNorm (prior s) = 1
  /\ (quatNorm (posterior s) = 1 \/ quatNorm (posterior s) = 2) ->
  quatNorm (prior (step s e)) = 1
  /\ (quatNorm (posterior (step s e)) = 1 \/ quatNorm (posterior (step s e)) = 2).
Proof.
  intros [Hp Hq]. destruct e as [r|r|r]; cbn [step].
  - destruct (gyroAccepted_dec r s) as [H|H].
    + destruct (gyroReadingChanged_unit r s H) as (E1 & E2 & _).
      rewrite E2. split; [|left]; exact E1.
    + destruct (gyroReadingChanged_dropped r s H) as [dT ->]. split; assumption.
  - destruct (accAccepted_dec r s) as [H|H].
    + destruct (accReadingChanged_norm r s H) as (E1 & _ & E3).
      rewrite E3. split; assumption.
    + rewrite accReadingChanged_dropped by exact H. split; assumption.
  - destruct (magAccepted_dec r s) as [H|H].
    + rewrite magReadingChanged_accepted by exact H. split; assumption.
    + rewrite magReadingChanged_dropped by exact H. split; assumption.
Qed.

Lemma quatNorm_identity : quatNorm (colvec [1; 0; 0; 0]) = 1.
Proof.
  unfold quatNorm. rewrite quatDot_colvec.
  replace (1 * 1 + 0 * 0 + 0 * 0 + 0 * 0) with 1 by ring. apply sqrt_1.
Qed.

(** X8.  From the constructor on, over any stream of readings, the a
    priori quaternion has norm one, and the a posteriori quaternion has
    norm one or is the fallback of [normalizeQuat], of norm two.  (With
    the kernel's prediction storing the process vector as the prior and
    its correction leaving the prior alone.) *)
Theorem X8_state_norm_invariant
    (gyroId0 accId0 magId0 : string) (filter0 : KalmanFilter.t)
    (wDeltaT0 w_norm0 a_norm0 m_norm0 rotAngle0 : qreal) (events : list Event) :
  let s := run (new gyroId0 accId0 magId0 filter0 wDeltaT0 w_norm0 a_norm0 m_norm0
                 rotAngle0)
               events in
  quatNorm (prior s) = 1
  /\ (quatNorm (posterior s) = 1 \/ quatNorm (posterior s) = 2).
Proof.
  cbv zeta.
  apply (run_invariant (fun s =>
    quatNorm (prior s) = 1
    /\ (quatNorm (posterior s) = 1 \/ quatNorm (posterior s) = 2))).
  - intros s e. apply step_norms.
  - change (quatNorm (colvec [1; 0; 0; 0]) = 1
            /\ (quatNorm (colvec [1; 0; 0; 0]) = 1
                \/ quatNorm (colvec [1; 0; 0; 0]) = 2)).
    split; [|left]; apply quatNorm_identity.
Qed.

(** *** The process model *)

Lemma normalizeQuat_colvec (a0 b0 c0 d0 n : qreal) :
  n = sqrt (a0 * a0 + b0 * b0 + c0 * c0 + d0 * d0) ->
  EPSILON < n ->
  normalizeQuat (colvec [a0; b0; c0; d0]) = colvec [a0 / n; b0 / n; c0 / n; d0 / n].
Proof.
  intros -> H. unfold normalizeQuat. cbn [at_ colvec map nth].
  destruct (Rlt_dec EPSILON _); [reflexivity | contradiction].
Qed.

Lemma process_norm (q0 q1 q2 q3 h wx wy wz : qreal) :
  sqrt ((q0 + h * (- q1 * wx - q2 * wy - q3 * wz))
        * (q0 + h * (- q1 * wx - q2 * wy - q3 * wz))
        + (q1 + h * (q0 * wx - q3 * wy + q2 * wz))
          * (q1 + h * (q0 * wx - q3 * wy + q2 * wz))
        + (q2 + h * (q3 * wx + q0 * wy - q1 * wz))
          * (q2 + h * (q3 * wx + q0 * wy - q1 * wz))
        + (q3 + h * (- q2 * wx + q1 * wy + q0 * wz))
          * (q3 + h * (- q2 * wx + q1 * wy + q0 * wz)))
  = sqrt (q0 * q0 + q1 * q1 + q2 * q2 + q3 * q3)
    * sqrt (1 + h * h * (wx * wx + wy * wy + wz * wz)).
Proof.
  rewrite <- sqrt_mult by nra. f_equal. ring.
Qed.

(** X9.  The first-order step of [calculateProcess] never shortens the
    quaternion: its norm is the norm of the posterior times
    [sqrt (1 + (dT/2)^2 |w|^2)].  So over a posterior whose norm exceeds
    the machine epsilon the fallback of [normalizeQuat] is not taken, and
    the process vector is the stepped quaternion over that norm, of norm
    one. *)
Theorem X9_process_vector (s : t) :
  EPSILON < quatNorm (posterior s) ->
  let q0 := at_ (posterior s) 0 0 in
  let q1 := at_ (posterior s) 1 0 in
  let q2 := at_ (posterior s) 2 0 in
  let q3 := at_ (posterior s) 3 0 in
  let h := 0.5 * wDeltaT s in
  let wx := QVector3D.x (w s) in
  let wy := QVector3D.y (w s) in
  let wz := QVector3D.z (w s) in
  let n := quatNorm (posterior s)
           * sqrt (1 + h * h * (wx * wx + wy * wy + wz * wz)) in
  quatNorm (posterior s) <= n
  /\ process (calculateProcess s) =
     colvec [ (q0 + h * (- q1 * wx - q2 * wy - q3 * wz)) / n;
              (q1 + h * (q0 * wx - q3 * wy + q2 * wz)) / n;
              (q2 + h * (q3 * wx + q0 * wy - q1 * wz)) / n;
              (q3 + h * (- q2 * wx + q1 * wy + q0 * wz)) / n ]
  /\ quatNorm (process (calculateProcess s)) = 1.
Proof.
  intros H. cbv zeta. pose proof EPSILON_pos as He.
  set (k := sqrt (1 + _)).
  assert (Hk : 1 <= k).
  { subst k. rewrite <- sqrt_1 at 1. apply sqrt_le_1_alt. nra. }
  assert (Hn : quatNorm (posterior s) <= quatNorm (posterior s) * k) by nra.
  split; [exact Hn|].
  rewrite calculateProcess_process. cbv zeta.
  assert (E : quatNorm (posterior s) * k
              = sqrt ((at_ (posterior s) 0 0 + 0.5 * wDeltaT s * (- at_ (posterior s) 1 0 * QVector3D.x (w s) - at_ (posterior s) 2 0 * QVector3D.y (w s) - at_ (posterior s) 3 0 * QVector3D.z (w s)))
                      * (at_ (posterior s) 0 0 + 0.5 * wDeltaT s * (- at_ (posterior s) 1 0 * QVector3D.x (w s) - at_ (posterior s) 2 0 * QVector3D.y (w s) - at_ (posterior s) 3 0 * QVector3D.z (w s)))
                      + (at_ (posterior s) 1 0 + 0.5 * wDeltaT s * (at_ (posterior s) 0 0 * QVector3D.x (w s) - at_ (posterior s) 3 0 * QVector3D.y (w s) + at_ (posterior s) 2 0 * QVector3D.z (w s)))
                        * (at_ (posterior s) 1 0 + 0.5 * wDeltaT s * (at_ (posterior s) 0 0 * QVector3D.x (w s) - at_ (posterior s) 3 0 * QVector3D.y (w s) + at_ (posterior s) 2 0 * QVector3D.z (w s)))
                      + (at_ (posterior s) 2 0 + 0.5 * wDeltaT s * (at_ (posterior s) 3 0 * QVector3D.x (w s) + at_ (posterior s) 0 0 * QVector3D.y (w s) - at_ (posterior s) 1 0 * QVector3D.z (w s)))
                        * (at_ (posterior s) 2 0 + 0.5 * wDeltaT s * (at_ (posterior s) 3 0 * QVector3D.x (w s) + at_ (posterior s) 0 0 * QVector3D.y (w s) - at_ (posterior s) 1 0 * QVector3D.z (w s)))
                      + (at_ (posterior s) 3 0 + 0.5 * wDeltaT s * (- at_ (posterior s) 2 0 * QVector3D.x (w s) + at_ (posterior s) 1 0 * QVector3D.y (w s) + at_ (posterior s) 0 0 * QVector3D.z (w s)))
                        * (at_ (posterior s) 3 0 + 0.5 * wDeltaT s * (- at_ (posterior s) 2 0 * QVector3D.x (w s) + at_ (posterior s) 1 0 * QVector3D.y (w s) + at_ (posterior s) 0 0 * QVector3D.z (w s))))).
  { rewrite process_norm. reflexivity. }
  split.
  - apply normalizeQuat_colvec; [exact E | lra].
  - apply normalizeQuat_unit. unfold quatNorm at 1. rewrite quatDot_colvec.
    rewrite <- E. lra.
Qed.

(** X10.  The transition matrix that [calculateProcess] leaves, on a
    unit diagonal, is the matrix of the step itself: multiplied with the
    posterior it gives the stepped quaternion, so the process vector is
    the normalisation of [F q]. *)
Theorem X10_transition_matrix_is_the_step (s : t) :
  unitDiagonal (transition s) ->
  let q0 := at_ (posterior s) 0 0 in
  let q1 := at_ (posterior s) 1 0 in
  let q2 := at_ (posterior s) 2 0 in
  let q3 := at_ (posterior s) 3 0 in
  let h := 0.5 * wDeltaT s in
  let wx := QVector3D.x (w s) in
  let wy := QVector3D.y (w s) in
  let wz := QVector3D.z (w s) in
  let Fq := mmul (transition (calculateProcess s)) (colvec [q0; q1; q2; q3]) in
  Fq = colvec [ q0 + h * (- q1 * wx - q2 * wy - q3 * wz);
                q1 + h * (q0 * wx - q3 * wy + q2 * wz);
                q2 + h * (q3 * wx + q0 * wy - q1 * wz);
                q3 + h * (- q2 * wx + q1 * wy + q0 * wz) ]
  /\ process (calculateProcess s) = normalizeQuat Fq.
Proof.
  intros (E0 & E1 & E2 & E3). cbv zeta.
  assert (E : mmul (transition (calculateProcess s))
                (colvec [at_ (posterior s) 0 0; at_ (posterior s) 1 0;
                         at_ (posterior s) 2 0; at_ (posterior s) 3 0])
              = colvec [ at_ (posterior s) 0 0 + 0.5 * wDeltaT s * (- at_ (posterior s) 1 0 * QVector3D.x (w s) - at_ (posterior s) 2 0 * QVector3D.y (w s) - at_ (posterior s) 3 0 * QVector3D.z (w s));
                         at_ (posterior s) 1 0 + 0.5 * wDeltaT s * (at_ (posterior s) 0 0 * QVector3D.x (w s) - at_ (posterior s) 3 0 * QVector3D.y (w s) + at_ (posterior s) 2 0 * QVector3D.z (w s));
                         at_ (posterior s) 2 0 + 0.5 * wDeltaT s * (at_ (posterior s) 3 0 * QVector3D.x (w s) + at_ (posterior s) 0 0 * QVector3D.y (w s) - at_ (posterior s) 1 0 * QVector3D.z (w s));
                         at_ (posterior s) 3 0 + 0.5 * wDeltaT s * (- at_ (posterior s) 2 0 * QVector3D.x (w s) + at_ (posterior s) 1 0 * QVector3D.y (w s) + at_ (posterior s) 0 0 * QVector3D.z (w s)) ]).
  { rewrite calculateProcess_transition. cbv zeta. rewrite E0, E1, E2, E3.
    cbn [mmul map transpose colvec zipWith combine dotlist fold_right fst snd].
    mat_eq. }
  split; [exact E|]. rewrite E, calculateProcess_process. reflexivity.
Qed.

(** *** The observation model *)

Ltac mat_ring :=
  repeat match goal with
         | |- (_ :: _) = (_ :: _) => apply f_equal2
         | |- [] = [] => reflexivity
         | |- _ = _ => ring
         end.

(** X11.  The observation matrix that [calculateObservation] leaves is
    the Jacobian of its predicted observation in the a priori
    quaternion: the prediction [h] is quadratic in the quaternion, and
    for every [q] and [d], [h (q + d) = h q + H(q) d + h d], with and
    without fresh magnetometer data. *)
Theorem X11_observation_matrix_is_the_jacobian
    (s : t) (q0 q1 q2 q3 d0 d1 d2 d3 : qreal) :
  let q := colvec [q0; q1; q2; q3] in
  let d := colvec [d0; d1; d2; d3] in
  let h x := predictedObservation (calculateObservation (with_prior x s)) in
  let H x := observationModel (calculateObservation (with_prior x s)) in
  h (colvec [q0 + d0; q1 + d1; q2 + d2; q3 + d3])
  = madd (madd (h q) (mmul (H q) d)) (h d).
Proof.
  cbv beta zeta.
  rewrite !calculateObservation_predicted, calculateObservation_model.
  change (magDataReady (with_prior ?x s)) with (magDataReady s).
  change (prior (with_prior ?x s)) with x.
  destruct (magDataReady s);
    cbn [R_DCM_z R_DCM_y H_g H_y rows3 scale3 app at_ colvec map nth
         QVector3D.x QVector3D.y QVector3D.z madd mmul zipWith combine
         transpose dotlist fold_right fst snd];
    mat_ring.
Qed.

Lemma quatNorm_one (q : Mat) :
  quatNorm q = 1 ->
  at_ q 0 0 * at_ q 0 0 + at_ q 1 0 * at_ q 1 0
  + at_ q 2 0 * at_ q 2 0 + at_ q 3 0 * at_ q 3 0 = 1.
Proof.
  intros H. fold (quatDot q q).
  rewrite <- (sqrt_sqrt (quatDot q q)) by apply quatDot_nonneg.
  fold (quatNorm q). rewrite H. ring.
Qed.

Lemma R_DCM_unit (q : Mat) :
  quatNorm q = 1 ->
  dot3 (R_DCM_z q) (R_DCM_z q) = 1
  /\ dot3 (R_DCM_y q) (R_DCM_y q) = 1
  /\ dot3 (R_DCM_z q) (R_DCM_y q) = 0.
Proof.
  intros H. apply quatNorm_one in H. revert H.
  unfold dot3, R_DCM_z, R_DCM_y. cbn [QVector3D.x QVector3D.y QVector3D.z].
  generalize (at_ q 0 0) (at_ q 1 0) (at_ q 2 0) (at_ q 3 0).
  intros q0 q1 q2 q3 H. split; [|split].
  - replace (_ + _ + _)
      with ((q0 * q0 + q1 * q1 + q2 * q2 + q3 * q3)
            * (q0 * q0 + q1 * q1 + q2 * q2 + q3 * q3)) by ring.
    rewrite H. ring.
  - replace (_ + _ + _)
      with ((q0 * q0 + q1 * q1 + q2 * q2 + q3 * q3)
            * (q0 * q0 + q1 * q1 + q2 * q2 + q3 * q3)) by ring.
    rewrite H. ring.
  - ring.
Qed.

Lemma rejected_orthogonal (s : t) :
  quatNorm (prior s) = 1 -> dot3 (rejected s) (R_DCM_z (prior s)) = 0.
Proof.
  intros H. destruct (R_DCM_unit (prior s) H) as [Hz _]. revert Hz.
  unfold rejected, dot_m_z, dot3. cbn [QVector3D.x QVector3D.y QVector3D.z].
  generalize (QVector3D.x (R_DCM_z (prior s))) (QVector3D.y (R_DCM_z (prior s)))
    (QVector3D.z (R_DCM_z (prior s))) (QVector3D.x (m s)) (QVector3D.y (m s))
    (QVector3D.z (m s)).
  intros z0 z1 z2 mx my mz Hz.
  replace (_ + _ + _)
    with ((mx * z0 + my * z1 + mz * z2) * (1 - (z0 * z0 + z1 * z1 + z2 * z2)))
    by ring.
  rewrite Hz. ring.
Qed.

Lemma uy_cases (s : t) :
  (EPSILON < QVector3D.length (rejected s)
   /\ uy s = QVector3D.mk
        (QVector3D.x (rejected s) / QVector3D.length (rejected s))
        (QVector3D.y (rejected s) / QVector3D.length (rejected s))
        (QVector3D.z (rejected s) / QVector3D.length (rejected s)))
  \/ (QVector3D.length (rejected s) <= EPSILON /\ uy s = rejected s).
Proof.
  unfold uy. destruct (Rlt_dec EPSILON (QVector3D.length (rejected s))) as [H|H].
  - left. split; [exact H | reflexivity].
  - right. split; [lra | reflexivity].
Qed.

Lemma length_sqr (v : QVector3D.t) :
  QVector3D.length v * QVector3D.length v = dot3 v v.
Proof. unfold QVector3D.length, dot3. apply sqrt_sqrt. nra. Qed.

(** X12.  Over an a priori quaternion of norm one, the prediction of
    [calculateObservation] is made of a gravity vector of length 9.81
    and, with fresh magnetometer data, a magnetic direction of length one
    at right angles to it; the magnetic direction observed is at right
    angles to the predicted gravity as well, and has length one unless
    what is left of the magnetometer vector is no longer than the
    machine epsilon, in which case it is passed on as it is. *)
Theorem X12_observation_geometry (s : t) :
  quatNorm (prior s) = 1 ->
  let p := predictedObservation (calculateObservation s) in
  let o := observation (calculateObservation s) in
  let p_g := QVector3D.mk (at_ p 0 0) (at_ p 1 0) (at_ p 2 0) in
  let p_y := QVector3D.mk (at_ p 3 0) (at_ p 4 0) (at_ p 5 0) in
  let o_y := QVector3D.mk (at_ o 3 0) (at_ o 4 0) (at_ o 5 0) in
  QVector3D.length p_g = 9.81
  /\ (magDataReady s = true ->
      QVector3D.length p_y = 1
      /\ dot3 p_g p_y = 0
      /\ dot3 o_y p_g = 0
      /\ (QVector3D.length o_y = 1 \/ QVector3D.length o_y <= EPSILON)).
Proof.
  intros H. cbv zeta.
  rewrite calculateObservation_predicted, calculateObservation_observation.
  destruct (R_DCM_unit (prior s) H) as (Hz & Hy & Hzy).
  pose proof (rejected_orthogonal s H) as Hr.
  split.
  - destruct (magDataReady s);
      cbn [rows3 scale3 app at_ colvec map nth QVector3D.x QVector3D.y QVector3D.z];
      unfold QVector3D.length; cbn [QVector3D.x QVector3D.y QVector3D.z];
      (replace (_ + _ + _)
         with (gravity * gravity * dot3 (R_DCM_z (prior s)) (R_DCM_z (prior s)))
         by (unfold dot3; ring));
      rewrite Hz, Rmult_1_r; apply sqrt_square; unfold gravity; lra.
  - intros ->.
    cbn [rows3 scale3 app at_ colvec map nth QVector3D.x QVector3D.y QVector3D.z].
    split; [|split; [|split]].
    + unfold QVector3D.length. cbn [QVector3D.x QVector3D.y QVector3D.z].
      fold (dot3 (R_DCM_y (prior s)) (R_DCM_y (prior s))).
      rewrite Hy. apply sqrt_1.
    + replace (dot3 _ _)
        with (gravity * dot3 (R_DCM_z (prior s)) (R_DCM_y (prior s)))
        by (unfold dot3; cbn [QVector3D.x QVector3D.y QVector3D.z]; ring).
      rewrite Hzy. ring.
    + destruct (uy_cases s) as [[Hn ->]|[Hn ->]];
        unfold dot3 in *; cbn [QVector3D.x QVector3D.y QVector3D.z].
      * pose proof EPSILON_pos.
        replace (_ + _ + _)
          with ((QVector3D.x (rejected s) * QVector3D.x (R_DCM_z (prior s))
                 + QVector3D.y (rejected s) * QVector3D.y (R_DCM_z (prior s))
                 + QVector3D.z (rejected s) * QVector3D.z (R_DCM_z (prior s)))
                * gravity / QVector3D.length (rejected s))
          by (field; lra).
        rewrite Hr. field. lra.
      * replace (_ + _ + _)
          with ((QVector3D.x (rejected s) * QVector3D.x (R_DCM_z (prior s))
                 + QVector3D.y (rejected s) * QVector3D.y (R_DCM_z (prior s))
                 + QVector3D.z (rejected s) * QVector3D.z (R_DCM_z (prior s)))
                * gravity) by ring.
        rewrite Hr. ring.
    + destruct (uy_cases s) as [[Hn ->]|[Hn ->]].
      * left. pose proof EPSILON_pos.
        pose proof (length_sqr (rejected s)) as Hl. unfold dot3 in Hl.
        unfold QVector3D.length at 1. cbn [QVector3D.x QVector3D.y QVector3D.z].
        replace (_ + _ + _)
          with ((QVector3D.x (rejected s) * QVector3D.x (rejected s)
                 + QVector3D.y (rejected s) * QVector3D.y (rejected s)
                 + QVector3D.z (rejected s) * QVector3D.z (rejected s))
                / (QVector3D.length (rejected s) * QVector3D.length (rejected s)))
          by (field; lra).
        rewrite <- Hl.
        replace (_ / _) with 1 by (field; lra). apply sqrt_1.
      * right.
        replace (QVector3D.mk _ _ _) with (rejected s)
          by (destruct (rejected s); reflexivity).
        exact Hn.
Qed.

(** *** Magnetometer data *)

Lemma accReadingChanged_stages (r : QSensorReading.t) (s : t) :
  accAccepted r s ->
  accReadingChanged r s =
  set_lastAccTimestamp (QSensorReading.timestamp r)
    (calculateOutputRotation (accCorrect (calculateObservation (accInputs r s)))).
Proof. intros H. rewrite accReadingChanged_accepted by exact H. reflexivity. Qed.

Lemma accReadingChanged_observation (r : QSensorReading.t) (s : t) :
  accAccepted r s ->
  observation (accReadingChanged r s)
  = observation (calculateObservation (accInputs r s))
  /\ predictedObservation (accReadingChanged r s)
     = predictedObservation (calculateObservation (accInputs r s))
  /\ observationModel (accReadingChanged r s)
     = observationModel (calculateObservation (accInputs r s))
  /\ observationNoise (accReadingChanged r s)
     = observationNoise (calculateObservation (accInputs r s)).
Proof.
  intros H. rewrite accReadingChanged_stages by exact H.
  split; [|split; [|split]].
  - unstamp observation. do 2 kept observation. reflexivity.
  - unstamp predictedObservation. do 2 kept predictedObservation. reflexivity.
  - unstamp observationModel. do 2 kept observationModel. reflexivity.
  - unstamp observationNoise. do 2 kept observationNoise. reflexivity.
Qed.

Lemma accReadingChanged_means (r : QSensorReading.t) (s : t) :
  accAccepted r s ->
  magDataReady (accReadingChanged r s) = false
  /\ m_norm_mean (accReadingChanged r s)
     = m_norm_mean (calculateObservation (accInputs r s))
  /\ m_dip_angle_mean (accReadingChanged r s)
     = m_dip_angle_mean (calculateObservation (accInputs r s)).
Proof.
  intros H. rewrite accReadingChanged_stages by exact H.
  split; [|split].
  - unstamp magDataReady. do 2 kept magDataReady.
    apply calculateObservation_consumes.
  - unstamp m_norm_mean. do 2 kept m_norm_mean. reflexivity.
  - unstamp m_dip_angle_mean. do 2 kept m_dip_angle_mean. reflexivity.
Qed.

Lemma accReadingChanged_stale (r : QSensorReading.t) (s : t) :
  accAccepted r s -> magDataReady s = false ->
  observation (accReadingChanged r s)
  = colvec [QSensorReading.x r; QSensorReading.y r; QSensorReading.z r; 0; 0; 0]
  /\ skipn 3 (predictedObservation (accReadingChanged r s)) = colvec [0; 0; 0]
  /\ skipn 3 (observationModel (accReadingChanged r s))
     = [ [0; 0; 0; 0]; [0; 0; 0; 0]; [0; 0; 0; 0] ]
  /\ m_norm_mean (accReadingChanged r s) = m_norm_mean s
  /\ m_dip_angle_mean (accReadingChanged r s) = m_dip_angle_mean s.
Proof.
  intros H Hm.
  destruct (accReadingChanged_observation r s H) as (E1 & E2 & E3 & _).
  destruct (accReadingChanged_means r s H) as (_ & E6 & E7).
  rewrite E1, E2, E3, E6, E7.
  rewrite calculateObservation_observation, calculateObservation_predicted,
    calculateObservation_model.
  destruct (calculateObservation_means (accInputs r s)) as [-> ->].
  change (magDataReady (accInputs r s)) with (magDataReady s).
  rewrite Hm. repeat (split; [reflexivity|]). reflexivity.
Qed.

(** X13.  Magnetometer data is used by one accelerometer reading only:
    an accepted accelerometer reading clears [magDataReady], and an
    accepted accelerometer reading that finds it cleared observes
    [(ax, ay, az, 0, 0, 0)] against a prediction and an observation
    matrix whose magnetic rows are zero, and leaves the running means of
    the magnetometer alone.  So does the second of two accepted
    accelerometer readings in a row. *)
Theorem X13_magnetometer_data_is_used_once (r r2 : QSensorReading.t) (s : t) :
  accAccepted r s ->
  let s' := accReadingChanged r s in
  let zero_block (r : QSensorReading.t) (s s' : t) :=
    observation s'
    = colvec [QSensorReading.x r; QSensorReading.y r; QSensorReading.z r; 0; 0; 0]
    /\ skipn 3 (predictedObservation s') = colvec [0; 0; 0]
    /\ skipn 3 (observationModel s') = [ [0; 0; 0; 0]; [0; 0; 0; 0]; [0; 0; 0; 0] ]
    /\ m_norm_mean s' = m_norm_mean s
    /\ m_dip_angle_mean s' = m_dip_angle_mean s in
  magDataReady s' = false
  /\ (magDataReady s = false -> zero_block r s s')
  /\ (accAccepted r2 s' -> zero_block r2 s' (accReadingChanged r2 s')).
Proof.
  intros H. cbv beta zeta. split; [|split].
  - apply accReadingChanged_means. exact H.
  - intros Hm. apply accReadingChanged_stale; assumption.
  - intros H2. apply accReadingChanged_stale; [exact H2|].
    apply accReadingChanged_means. exact H.
Qed.

Lemma gyroReadingChanged_mag (r : QSensorReading.t) (s : t) :
  magDataReady (gyroReadingChanged r s) = magDataReady s
  /\ m (gyroReadingChanged r s) = m s
  /\ m_norm (gyroReadingChanged r s) = m_norm s
  /\ m_norm_mean (gyroReadingChanged r s) = m_norm_mean s
  /\ m_dip_angle_mean (gyroReadingChanged r s) = m_dip_angle_mean s
  /\ m_mean_alpha (gyroReadingChanged r s) = m_mean_alpha s.
Proof.
  destruct (gyroAccepted_dec r s) as [H|H].
  - rewrite gyroReadingChanged_accepted by exact H.
    split; [|split; [|split; [|split; [|split]]]].
    + unstamp magDataReady. do 4 kept magDataReady. reflexivity.
    + unstamp m. do 4 kept m. reflexivity.
    + unstamp m_norm. do 4 kept m_norm. reflexivity.
    + unstamp m_norm_mean. do 4 kept m_norm_mean. reflexivity.
    + unstamp m_dip_angle_mean. do 4 kept m_dip_angle_mean. reflexivity.
    + unstamp m_mean_alpha. do 4 kept m_mean_alpha. reflexivity.
  - destruct (gyroReadingChanged_dropped r s H) as [dT ->].
    repeat (split; [reflexivity|]). reflexivity.
Qed.

Lemma accReadingChanged_mag (r : QSensorReading.t) (s : t) :
  m (accReadingChanged r s) = m s
  /\ m_norm (accReadingChanged r s) = m_norm s
  /\ m_mean_alpha (accReadingChanged r s) = m_mean_alpha s.
Proof.
  destruct (accAccepted_dec r s) as [H|H].
  - rewrite accReadingChanged_stages by exact H. split; [|split].
    + unstamp m. do 3 kept m. reflexivity.
    + unstamp m_norm. do 3 kept m_norm. reflexivity.
    + unstamp m_mean_alpha. do 3 kept m_mean_alpha. reflexivity.
  - rewrite accReadingChanged_dropped by exact H.
    repeat (split; [reflexivity|]). reflexivity.
Qed.

Lemma m_dip_angle_range (s : t) : 0 <= m_dip_angle s <= PI.
Proof.
  pose proof PI_RGT_0. unfold m_dip_angle.
  destruct (Req_dec_T (m_norm s) 0); [lra|].
  destruct (Rlt_dec 1 _); [lra | apply acos_bound].
Qed.

Lemma step_mag_invariant (s : t) (e : Event) :
  (magDataReady s = true -> m_norm s = QVector3D.length (m s))
  /\ (m_norm_mean s = -1 \/ 0 <= m_norm_mean s)
  /\ (m_dip_angle_mean s = -1 \/ 0 <= m_dip_angle_mean s <= PI)
  /\ m_mean_alpha s = 0.99 ->
  (magDataReady (step s e) = true ->
   m_norm (step s e) = QVector3D.length (m (step s e)))
  /\ (m_norm_mean (step s e) = -1 \/ 0 <= m_norm_mean (step s e))
  /\ (m_dip_angle_mean (step s e) = -1 \/ 0 <= m_dip_angle_mean (step s e) <= PI)
  /\ m_mean_alpha (step s e) = 0.99.
Proof.
  intros (I1 & I2 & I3 & I4). destruct e as [r|r|r]; cbn [step].
  - destruct (gyroReadingChanged_mag r s) as (-> & -> & -> & -> & -> & ->).
    repeat (split; [assumption|]). assumption.
  - destruct (accReadingChanged_mag r s) as (-> & -> & ->).
    destruct (accAccepted_dec r s) as [H|H].
    + destruct (accReadingChanged_means r s H) as (-> & -> & ->).
      destruct (calculateObservation_means (accInputs r s)) as [-> ->].
      split; [discriminate|].
      change (magDataReady (accInputs r s)) with (magDataReady s).
      change (m_norm_mean (accInputs r s)) with (m_norm_mean s).
      change (m_dip_angle_mean (accInputs r s)) with (m_dip_angle_mean s).
      destruct (magDataReady s) eqn:Hm;
        [|split; [assumption| split; assumption]].
      pose proof (m_dip_angle_range (accInputs r s)) as Hd.
      assert (Hn : 0 <= m_norm s).
      { rewrite I1 by reflexivity. apply sqrt_pos. }
      unfold next_m_norm_mean, next_m_dip_angle_mean.
      change (m_norm_mean (accInputs r s)) with (m_norm_mean s).
      change (m_dip_angle_mean (accInputs r s)) with (m_dip_angle_mean s).
      change (m_mean_alpha (accInputs r s)) with (m_mean_alpha s).
      change (m_norm (accInputs r s)) with (m_norm s).
      rewrite I4.
      split; [|split; [|reflexivity]].
      * right. destruct (Rlt_dec (m_norm_mean s) 0); lra.
      * right. destruct (Rlt_dec (m_dip_angle_mean s) 0); lra.
    + rewrite accReadingChanged_dropped by exact H.
      repeat (split; [assumption|]). assumption.
  - destruct (magAccepted_dec r s) as [H|H].
    + rewrite magReadingChanged_accepted by exact H.
      split; [intros _; reflexivity|]. split; [exact I2|]. split; [exact I3|exact I4].
    + rewrite magReadingChanged_dropped by exact H.
      repeat (split; [assumption|]). assumption.
Qed.

(** X14.  From the constructor on, over any stream of readings, each of
    the two running means of the magnetometer is either still the -1 it
    is constructed with or not negative, the mean dip angle being at most
    pi; and whenever [magDataReady] is set, [m_norm] - which the
    constructor leaves unassigned - is the length of [m], so that
    [calculateObservation] never reads it unassigned. *)
Theorem X14_magnetometer_means
    (gyroId0 accId0 magId0 : string) (filter0 : KalmanFilter.t)
    (wDeltaT0 w_norm0 a_norm0 m_norm0 rotAngle0 : qreal) (events : list Event) :
  let s := run (new gyroId0 accId0 magId0 filter0 wDeltaT0 w_norm0 a_norm0 m_norm0
                 rotAngle0)
               events in
  (magDataReady s = true -> m_norm s = QVector3D.length (m s))
  /\ (m_norm_mean s = -1 \/ 0 <= m_norm_mean s)
  /\ (m_dip_angle_mean s = -1 \/ 0 <= m_dip_angle_mean s <= PI).
Proof.
  cbv zeta.
  assert (H : forall s : t,
    (magDataReady s = true -> m_norm s = QVector3D.length (m s))
    /\ (m_norm_mean s = -1 \/ 0 <= m_norm_mean s)
    /\ (m_dip_angle_mean s = -1 \/ 0 <= m_dip_angle_mean s <= PI)
    /\ m_mean_alpha s = 0.99 ->
    (magDataReady (run s events) = true ->
     m_norm (run s events) = QVector3D.length (m (run s events)))
    /\ (m_norm_mean (run s events) = -1 \/ 0 <= m_norm_mean (run s events))
    /\ (m_dip_angle_mean (run s events) = -1
        \/ 0 <= m_dip_angle_mean (run s events) <= PI)
    /\ m_mean_alpha (run s events) = 0.99).
  { apply (run_invariant (fun s =>
      (magDataReady s = true -> m_norm s = QVector3D.length (m s))
      /\ (m_norm_mean s = -1 \/ 0 <= m_norm_mean s)
      /\ (m_dip_angle_mean s = -1 \/ 0 <= m_dip_angle_mean s <= PI)
      /\ m_mean_alpha s = 0.99)).
    intros s e. apply step_mag_invariant. }
  match goal with |- context [run ?s0 events] =>
    destruct (H s0) as (H1 & H2 & H3 & _) end.
  - split; [intros E; discriminate E|].
    split; [left; reflexivity|]. split; [left; reflexivity | reflexivity].
  - split; [exact H1|]. split; [exact H2 | exact H3].
Qed.

(** X15.  With fresh magnetometer data and outside startup, the noise
    that [calculateObservation] sets for the magnetic rows measures the
    deviation of the sample from the running means after they have taken
    the sample in: the deviation is zero for the first sample, and
    [m_mean_alpha] times the deviation from the previous mean for every
    later one. *)
Theorem X15_magnetic_noise_deviation (s : t) :
  magDataReady s = true -> ~ 0 < startupTime s ->
  let s' := calculateObservation s in
  observationNoise s' =
    noiseDiagonal (observationNoise s)
      (R_g_k_0 s + R_g_k_w s * w_norm s + R_g_k_g s * Rabs (9.81 - a_norm s))
      (R_y_k_0 s + R_y_k_w s * w_norm s + R_y_k_g s * Rabs (9.81 - a_norm s)
       + R_y_k_n s * Rabs (m_norm s - m_norm_mean s')
       + R_y_k_d s * Rabs (m_dip_angle s - m_dip_angle_mean s'))
  /\ Rabs (m_norm s - m_norm_mean s') =
     (if Rlt_dec (m_norm_mean s) 0 then 0
      else Rabs (m_mean_alpha s) * Rabs (m_norm s - m_norm_mean s))
  /\ Rabs (m_dip_angle s - m_dip_angle_mean s') =
     (if Rlt_dec (m_dip_angle_mean s) 0 then 0
      else Rabs (m_mean_alpha s) * Rabs (m_dip_angle s - m_dip_angle_mean s)).
Proof.
  intros Hm Hs. cbv zeta. rewrite calculateObservation_noise.
  destruct (calculateObservation_means s) as [-> ->]. rewrite Hm.
  destruct (Rlt_dec 0 (startupTime s)) as [Hc|_]; [contradiction|].
  split; [reflexivity|].
  unfold next_m_norm_mean, next_m_dip_angle_mean. split.
  - destruct (Rlt_dec (m_norm_mean s) 0).
    + unfold Rminus. rewrite Rplus_opp_r. apply Rabs_R0.
    + rewrite <- Rabs_mult. f_equal. ring.
  - destruct (Rlt_dec (m_dip_angle_mean s) 0).
    + unfold Rminus. rewrite Rplus_opp_r. apply Rabs_R0.
    + rewrite <- Rabs_mult. f_equal. ring.
Qed.

(** *** The silent-cycle counters *)

Lemma calculateOutputRotation_counters (s : t) :
  gyroId s <> ""%string ->
  gyroSilentCycles (calculateOutputRotation s) = (gyroSilentCycles s + 1)%Z
  /\ accSilentCycles (calculateOutputRotation s) =
     (if String.eqb (accId s) "" then accSilentCycles s
      else accSilentCycles s + 1)%Z
  /\ magSilentCycles (calculateOutputRotation s) =
     (if String.eqb (magId s) "" then magSilentCycles s
      else magSilentCycles s + 1)%Z.
Proof.
  intros Hg. destruct (Rlt_dec 0 (startupTime s)) as [Hs|Hs].
  - rewrite calculateOutputRotation_suppressed by assumption.
    apply countSilentCycles_counters.
  - rewrite calculateOutputRotation_published by assumption.
    change (gyroSilentCycles (emit ?o ?x)) with (gyroSilentCycles x).
    change (accSilentCycles (emit ?o ?x)) with (accSilentCycles x).
    change (magSilentCycles (emit ?o ?x)) with (magSilentCycles x).
    kept gyroSilentCycles. kept accSilentCycles. kept magSilentCycles.
    apply countSilentCycles_counters.
Qed.

Lemma gyroInputs_gyroSilentCycles (r : QSensorReading.t) (s : t) :
  gyroSilentCycles (gyroInputs r s) = 0%Z.
Proof. paths gyroInputs; reflexivity. Qed.

Lemma gyroInputs_counters (r : QSensorReading.t) (s : t) :
  accSilentCycles (gyroInputs r s) = accSilentCycles s
  /\ magSilentCycles (gyroInputs r s) = magSilentCycles s.
Proof. split; [kept accSilentCycles | kept magSilentCycles]; reflexivity. Qed.

(** X16.  With a gyroscope open, each silent-cycle counter counts the
    publishes since the last accepted reading of its own stream, that
    reading's own publish included: an accepted gyroscope reading leaves
    its counter at one and adds one to those of the other open streams,
    an accepted accelerometer reading does the same from its side, and
    an accepted magnetometer reading, which does not publish, leaves its
    counter at zero and the others alone. *)
Theorem X16_silent_cycles (r : QSensorReading.t) (s : t) :
  gyroId s <> ""%string ->
  (gyroAccepted r s ->
   gyroSilentCycles (gyroReadingChanged r s) = 1%Z
   /\ accSilentCycles (gyroReadingChanged r s) =
      (if String.eqb (accId s) "" then accSilentCycles s
       else accSilentCycles s + 1)%Z
   /\ magSilentCycles (gyroReadingChanged r s) =
      (if String.eqb (magId s) "" then magSilentCycles s
       else magSilentCycles s + 1)%Z)
  /\ (accAccepted r s ->
      gyroSilentCycles (accReadingChanged r s) = (gyroSilentCycles s + 1)%Z
      /\ accSilentCycles (accReadingChanged r s) =
         (if String.eqb (accId s) "" then 0 else 1)%Z
      /\ magSilentCycles (accReadingChanged r s) =
         (if String.eqb (magId s) "" then magSilentCycles s
          else magSilentCycles s + 1)%Z)
  /\ (magAccepted r s ->
      gyroSilentCycles (magReadingChanged r s) = gyroSilentCycles s
      /\ accSilentCycles (magReadingChanged r s) = accSilentCycles s
      /\ magSilentCycles (magReadingChanged r s) = 0%Z).
Proof.
  intros Hg. split; [|split].
  - intros H. rewrite gyroReadingChanged_accepted by exact H.
    set (x := gyroInputs _ _).
    assert (Hx : gyroSilentCycles x = 0%Z
                 /\ accSilentCycles x = accSilentCycles s
                 /\ magSilentCycles x = magSilentCycles s).
    { subst x. split; [apply gyroInputs_gyroSilentCycles|].
      destruct (gyroInputs_counters r
        (set_wDeltaT (elapsed (QSensorReading.timestamp r) (lastGyroTimestamp s)) s))
        as [-> ->].
      split; reflexivity. }
    destruct Hx as (Hx1 & Hx2 & Hx3).
    set (y := gyroPredict _).
    assert (Hy : gyroId y = gyroId s /\ accId y = accId s /\ magId y = magId s
                 /\ gyroSilentCycles y = gyroSilentCycles x
                 /\ accSilentCycles y = accSilentCycles x
                 /\ magSilentCycles y = magSilentCycles x).
    { subst y x. split; [|split; [|split; [|split; [|split]]]].
      - do 3 kept gyroId. reflexivity.
      - do 3 kept accId. reflexivity.
      - do 3 kept magId. reflexivity.
      - do 2 kept gyroSilentCycles. reflexivity.
      - do 2 kept accSilentCycles. reflexivity.
      - do 2 kept magSilentCycles. reflexivity. }
    destruct Hy as (Hy1 & Hy2 & Hy3 & Hy4 & Hy5 & Hy6).
    unstamp gyroSilentCycles. unstamp accSilentCycles. unstamp magSilentCycles.
    destruct (calculateOutputRotation_counters y) as (-> & -> & ->);
      [congruence|].
    rewrite Hy2, Hy3, Hy4, Hy5, Hy6, Hx1, Hx2, Hx3.
    split; [reflexivity|]. split; reflexivity.
  - intros H. rewrite accReadingChanged_stages by exact H.
    set (y := accCorrect _).
    assert (Hy : gyroId y = gyroId s /\ accId y = accId s /\ magId y = magId s
                 /\ gyroSilentCycles y = gyroSilentCycles s
                 /\ accSilentCycles y = 0%Z
                 /\ magSilentCycles y = magSilentCycles s).
    { subst y. split; [|split; [|split; [|split; [|split]]]].
      - do 2 kept gyroId. reflexivity.
      - do 2 kept accId. reflexivity.
      - do 2 kept magId. reflexivity.
      - do 2 kept gyroSilentCycles. reflexivity.
      - do 2 kept accSilentCycles. reflexivity.
      - do 2 kept magSilentCycles. reflexivity. }
    destruct Hy as (Hy1 & Hy2 & Hy3 & Hy4 & Hy5 & Hy6).
    unstamp gyroSilentCycles. unstamp accSilentCycles. unstamp magSilentCycles.
    destruct (calculateOutputRotation_counters y) as (-> & -> & ->);
      [congruence|].
    rewrite Hy2, Hy3, Hy4, Hy5, Hy6.
    split; [reflexivity|]. split; [|reflexivity].
    destruct (String.eqb (accId s) ""); reflexivity.
  - intros H. rewrite magReadingChanged_accepted by exact H.
    split; [reflexivity|]. split; reflexivity.
Qed.

(** *** Between two gyroscope readings *)

Lemma step_gyro_quiet_kernel (s : t) (e : Event) :
  match e with GyroReading r => ~ gyroAccepted r s | _ => True end ->
  prior (step s e) = prior s
  /\ priorCov (step s e) = priorCov s
  /\ process (step s e) = process s
  /\ transition (step s e) = transition s
  /\ processNoise (step s e) = processNoise s.
Proof.
  destruct e as [r|r|r]; cbn [step]; intros H.
  - destruct (gyroReadingChanged_dropped r s H) as [dT ->].
    repeat (split; [reflexivity|]). reflexivity.
  - destruct (accAccepted_dec r s) as [Ha|Ha].
    + rewrite accReadingChanged_stages by exact Ha.
      split; [|split; [|split; [|split]]].
      * unstamp prior. do 3 kept prior. reflexivity.
      * unstamp priorCov. do 3 kept priorCov. reflexivity.
      * unstamp process. do 3 kept process. reflexivity.
      * unstamp transition. do 3 kept transition. reflexivity.
      * unstamp processNoise. do 3 kept processNoise. reflexivity.
    + rewrite accReadingChanged_dropped by exact Ha.
      repeat (split; [reflexivity|]). reflexivity.
  - destruct (magAccepted_dec r s) as [Ha|Ha].
    + rewrite magReadingChanged_accepted by exact Ha.
      repeat (split; [reflexivity|]). reflexivity.
    + rewrite magReadingChanged_dropped by exact Ha.
      repeat (split; [reflexivity|]). reflexivity.
Qed.

(** X17.  Over a stream in which no gyroscope reading is accepted, the
    a priori quaternion, its covariance, the process vector, the
    transition matrix and the process noise stay as they were:
    accelerometer and magnetometer readings never write them, so each
    accelerometer correction between two gyroscope readings starts from
    the same prior.  (With the kernel's correction leaving the prior and
    its covariance alone.) *)
Theorem X17_same_prior_between_gyro_readings (s : t) (events : list Event) :
  gyroQuiet s events ->
  prior (run s events) = prior s
  /\ priorCov (run s events) = priorCov s
  /\ process (run s events) = process s
  /\ transition (run s events) = transition s
  /\ processNoise (run s events) = processNoise s.
Proof.
  revert s. induction events as [|e events IH]; intros s H.
  - repeat (split; [reflexivity|]). reflexivity.
  - destruct H as [He Hq]. rewrite run_cons.
    destruct (IH _ Hq) as (-> & -> & -> & -> & ->).
    apply step_gyro_quiet_kernel. exact He.
Qed.

(** *** The example device again *)

Lemma exampleFlat_accepted : accAccepted (reading 2000 0 0 9.81) exampleFlat.
Proof.
  unfold accAccepted, exampleFlat. rewrite accReadingChanged_lastAccTimestamp.
  change (QSensorReading.timestamp (reading 2000 0 0 9.81)) with 2000%Z.
  change (QSensorReading.timestamp (reading 1000 0 0 9.81)) with 1000%Z.
  split; [lia|]. unfold elapsed.
  change ((2000 - 1000) mod 2 ^ 64)%Z with 1000%Z. lra.
Qed.

Lemma exampleDevice_unit :
  quatNorm (prior exampleDevice) = 1 /\ quatNorm (posterior exampleDevice) = 1.
Proof.
  change (prior exampleDevice) with (colvec [1; 0; 0; 0]).
  change (posterior exampleDevice) with (colvec [1; 0; 0; 0]).
  split; apply quatNorm_identity.
Qed.

(** *** The observation noise *)

Lemma step_coefficients (s : t) (e : Event) :
  coefficients (step s e) = coefficients s.
Proof.
  destruct e as [r|r|r]; cbn [step].
  - destruct (gyroAccepted_dec r s) as [H|H].
    + rewrite gyroReadingChanged_accepted by exact H.
      unstamp coefficients. do 4 kept coefficients. reflexivity.
    + destruct (gyroReadingChanged_dropped r s H) as [dT ->]. reflexivity.
  - destruct (accAccepted_dec r s) as [H|H].
    + rewrite accReadingChanged_stages by exact H.
      unstamp coefficients. do 3 kept coefficients. reflexivity.
    + rewrite accReadingChanged_dropped by exact H. reflexivity.
  - destruct (magAccepted_dec r s) as [H|H].
    + rewrite magReadingChanged_accepted by exact H. reflexivity.
    + rewrite magReadingChanged_dropped by exact H. reflexivity.
Qed.

Lemma gyroInputs_w_norm (r : QSensorReading.t) (s : t) :
  w_norm (gyroInputs r s) = QVector3D.length (w (gyroInputs r s)).
Proof. paths gyroInputs; reflexivity. Qed.

Lemma step_w_norm (s : t) (e : Event) :
  (~ 0 < startupTime s -> 0 <= w_norm s) ->
  ~ 0 < startupTime (step s e) -> 0 <= w_norm (step s e).
Proof.
  intros I. destruct e as [r|r|r]; cbn [step].
  - destruct (gyroAccepted_dec r s) as [H|H].
    + intros _. rewrite gyroReadingChanged_accepted by exact H.
      unstamp w_norm. do 3 kept w_norm. rewrite gyroInputs_w_norm.
      apply sqrt_pos.
    + destruct (gyroReadingChanged_dropped r s H) as [dT ->]. exact I.
  - destruct (accAccepted_dec r s) as [H|H].
    + rewrite accReadingChanged_stages by exact H.
      unstamp startupTime. unstamp w_norm.
      do 3 kept startupTime. do 3 kept w_norm. exact I.
    + rewrite accReadingChanged_dropped by exact H. exact I.
  - destruct (magAccepted_dec r s) as [H|H].
    + rewrite magReadingChanged_accepted by exact H. exact I.
    + rewrite magReadingChanged_dropped by exact H. exact I.
Qed.

Lemma run_noise_inputs
    (gyroId0 accId0 magId0 : string) (filter0 : KalmanFilter.t)
    (wDeltaT0 w_norm0 a_norm0 m_norm0 rotAngle0 : qreal) (events : list Event) :
  let s := run (new gyroId0 accId0 magId0 filter0 wDeltaT0 w_norm0 a_norm0 m_norm0
                 rotAngle0)
               events in
  coefficients s = [1e-1; 1e-3; 1; 7.5; 10; 10; 7.5; 10; 20; 15]
  /\ (~ 0 < startupTime s -> 0 <= w_norm s).
Proof.
  cbv zeta.
  apply (run_invariant (fun s =>
    coefficients s = [1e-1; 1e-3; 1; 7.5; 10; 10; 7.5; 10; 20; 15]
    /\ (~ 0 < startupTime s -> 0 <= w_norm s))).
  - intros s e [H1 H2]. split.
    + rewrite step_coefficients. exact H1.
    + apply step_w_norm. exact H2.
  - split; [reflexivity|].
    change (~ 0 < 1 -> 0 <= w_norm0). intros H. exfalso. apply H. lra.
Qed.

(** X18.  From the constructor on, every accepted accelerometer reading
    writes positive entries on the diagonal of the observation noise: at
    least 0.1 and 0.001 during startup, and at least 1 afterwards.  The
    entries outside startup depend on [w_norm], which the constructor
    leaves unassigned; but startup ends only through an accepted
    gyroscope reading, which assigns it. *)
Theorem X18_observation_noise_is_positive
    (gyroId0 accId0 magId0 : string) (filter0 : KalmanFilter.t)
    (wDeltaT0 w_norm0 a_norm0 m_norm0 rotAngle0 : qreal) (events : list Event)
    (r : QSensorReading.t) :
  let s := run (new gyroId0 accId0 magId0 filter0 wDeltaT0 w_norm0 a_norm0 m_norm0
                 rotAngle0)
               events in
  (~ 0 < startupTime s -> 0 <= w_norm s)
  /\ (accAccepted r s ->
      exists r_g r_y : qreal,
        observationNoise (accReadingChanged r s)
        = noiseDiagonal (observationNoise s) r_g r_y
        /\ (if Rlt_dec 0 (startupTime s)
            then r_g = 0.1 /\ r_y = 0.001
            else 1 <= r_g /\ 1 <= r_y)).
Proof.
  cbv zeta.
  destruct (run_noise_inputs gyroId0 accId0 magId0 filter0 wDeltaT0 w_norm0
              a_norm0 m_norm0 rotAngle0 events) as [Hc Hw].
  cbv zeta in Hc, Hw. set (s := run _ events) in *.
  split; [exact Hw|].
  intros H.
  destruct (accReadingChanged_observation r s H) as (_ & _ & _ & ->).
  rewrite calculateObservation_noise.
  change (startupTime (accInputs r s)) with (startupTime s).
  change (observationNoise (accInputs r s)) with (observationNoise s).
  change (R_g_startup (accInputs r s)) with (R_g_startup s).
  change (R_y_startup (accInputs r s)) with (R_y_startup s).
  unfold coefficients in Hc.
  injection Hc as C1 C2 C3 C4 C5 C6 C7 C8 C9 C10.
  destruct (Rlt_dec 0 (startupTime s)) as [Hs|Hs].
  - exists (R_g_startup s), (R_y_startup s).
    split; [reflexivity|]. split; lra.
  - eexists _, _. split; [reflexivity|].
    pose proof (Hw Hs) as Hn.
    unfold R_g, R_y.
    change (R_g_k_0 (accInputs r s)) with (R_g_k_0 s).
    change (R_g_k_w (accInputs r s)) with (R_g_k_w s).
    change (R_g_k_g (accInputs r s)) with (R_g_k_g s).
    change (R_y_k_0 (accInputs r s)) with (R_y_k_0 s).
    change (R_y_k_w (accInputs r s)) with (R_y_k_w s).
    change (R_y_k_g (accInputs r s)) with (R_y_k_g s).
    change (R_y_k_n (accInputs r s)) with (R_y_k_n s).
    change (R_y_k_d (accInputs r s)) with (R_y_k_d s).
    change (w_norm (accInputs r s)) with (w_norm s).
    rewrite C3, C4, C5, C6, C7, C8, C9, C10.
    pose proof (Rabs_pos (gravity - a_norm (accInputs r s))).
    pose proof (Rabs_pos (m_norm (accInputs r s)
                          - next_m_norm_mean (accInputs r s))).
    pose proof (Rabs_pos (m_dip_angle (accInputs r s)
                          - next_m_dip_angle_mean (accInputs r s))).
    split; [nra|].
    destruct (magDataReady (accInputs r s)); [nra | lra].
Qed.

(** *** Opening the gyroscope *)

Lemma openGyro_connected (backend : Backend) (id : string) (d : Device) :
  connectToBackend backend id = true ->
  openGyro backend id d =
  match gyro d with
  | deleted _ => None
  | _ =>
      if start backend id then
        Some (true, mkDevice (set_gyroId id (imu d)) (sensor id)
                      (OpenedGyroscope id :: gyroIdChanged :: opening d))
      else
        Some (false, mkDevice (set_gyroId id (imu d)) (deleted id)
                       (CouldNotOpenGyroscope id :: gyroIdChanged :: opening d))
  end.
Proof.
  intros E. unfold openGyro. rewrite E. cbn [imu gyro opening].
  destruct (gyro d); cbn [delete]; [| |reflexivity];
    destruct (start backend id); reflexivity.
Qed.

Lemma openGyro_refused (backend : Backend) (id : string) (d : Device) :
  connectToBackend backend id = false ->
  openGyro backend id d =
  Some (false, mkDevice (imu d) (gyro d) (CouldNotOpenGyroscope id :: opening d)).
Proof. intros E. unfold openGyro. rewrite E. reflexivity. Qed.

(** X19.  [openGyro] answers true exactly when the sensor connects and
    starts, but takes the identifier as soon as the sensor connects: for
    a sensor that connects and does not start it answers false, having
    set [gyroId] to the identifier and emitted [gyroIdChanged], and it
    leaves [gyro] pointing to the sensor it has just deleted.  When the
    sensor does not connect, nothing changes but the log. *)
Theorem X19_openGyro (backend : Backend) (id : string) (d : Device) :
  (forall id', gyro d <> deleted id') ->
  exists (success : bool) (d' : Device),
    openGyro backend id d = Some (success, d')
    /\ success = (connectToBackend backend id && start backend id)%bool
    /\ getGyroId d' = (if connectToBackend backend id then id else getGyroId d)
    /\ gyro d' =
       (if connectToBackend backend id
        then if start backend id then sensor id else deleted id
        else gyro d)
    /\ (In gyroIdChanged (opening d') <->
        connectToBackend backend id = true \/ In gyroIdChanged (opening d))
    /\ (connectToBackend backend id = false -> imu d' = imu d).
Proof.
  intros Hd. destruct (connectToBackend backend id) eqn:Ec.
  - rewrite (openGyro_connected backend id d Ec).
    destruct (gyro d) as [|id'|id'] eqn:Eg; [| |exfalso; exact (Hd id' eq_refl)];
      destruct (start backend id); eexists _, _;
      (split; [reflexivity|]); cbn [getGyroId imu gyro opening andb];
      repeat (split; [reflexivity|]);
      (split; [|intros E; discriminate E]);
      cbn [In]; (split; [intros _; left; reflexivity|]);
      intros _; right; left; reflexivity.
  - rewrite (openGyro_refused backend id d Ec). eexists _, _.
    split; [reflexivity|]. cbn [getGyroId imu gyro opening andb].
    repeat (split; [reflexivity|]). split; [|reflexivity].
    cbn [In]. split.
    + intros [E|E]; [discriminate E | right; exact E].
    + intros [E|E]; [discriminate E | right; exact E].
Qed.

(** X20.  After an [openGyro] whose sensor connected and did not start,
    the gyroscope cannot be opened again: [setGyroId] with the same
    identifier returns at once, since [gyroId] already holds it, and
    every [openGyro] whose sensor connects deletes the deleted sensor a
    second time, which is undefined. *)
Theorem X20_failed_start_cannot_be_retried
    (backend backend' : Backend) (sensors : list string) (id id' : string)
    (d d' : Device) :
  connectToBackend backend id = true -> start backend id = false ->
  openGyro backend id d = Some (false, d') ->
  setGyroId backend' sensors id d' = Some d'
  /\ (connectToBackend backend' id' = true -> openGyro backend' id' d' = None)
  /\ (id' <> id -> In id' sensors -> connectToBackend backend' id' = true ->
      setGyroId backend' sensors id' d' = None).
Proof.
  intros Ec Es. rewrite (openGyro_connected backend id d Ec), Es.
  destruct (gyro d); intros E; try discriminate E;
    injection E as <-; (split; [|split]).
  1,4: unfold setGyroId; cbn [imu]; change (gyroId (set_gyroId id ?x)) with id;
       rewrite String.eqb_refl; reflexivity.
  1,3: intros Ec'; rewrite (openGyro_connected backend' id' _ Ec'); reflexivity.
  all: intros Hn Hi Ec'; unfold setGyroId; cbn [imu];
       change (gyroId (set_gyroId id ?x)) with id;
       (destruct (String.eqb id' id) eqn:Ee;
          [apply String.eqb_eq in Ee; contradiction|]);
       (destruct (List.find (fun i => String.eqb i id') sensors) as [i|] eqn:Ef;
          [apply List.find_some in Ef; destruct Ef as [_ Ef];
           apply String.eqb_eq in Ef; subst i;
           rewrite (openGyro_connected backend' id' _ Ec'); reflexivity
          |exfalso; pose proof (List.find_none _ _ Ef id' Hi) as Hx;
           cbv beta in Hx; rewrite String.eqb_refl in Hx; discriminate Hx]).
Qed.


(** *** Reading the quaternion back from what is published *)

Lemma cos_atan2 (y x : R) :
  0 <= y -> x <> 0 \/ 0 < y ->
  cos (atan2 y x) = x / sqrt (x * x + y * y).
Proof.
  intros Hy Hxy. unfold atan2.
  assert (Hpos : 0 < sqrt (x * x + y * y)) by (apply sqrt_lt_R0; nra).
  destruct (Rlt_dec 0 x) as [Hx|Hx].
  - rewrite cos_atan, sqrt_ratio by lra.
    rewrite Rabs_pos_eq by lra. field. lra.
  - destruct (Rlt_dec x 0) as [Hx'|Hx'].
    + destruct (Rle_dec 0 y) as [_|Hc]; [|lra].
      rewrite neg_cos, cos_atan, sqrt_ratio by lra.
      rewrite Rabs_left by lra. field. lra.
    + assert (x = 0) by lra. subst x.
      destruct (Rlt_dec 0 y) as [Hy'|Hy']; [|lra].
      rewrite cos_PI2. unfold Rdiv. ring.
Qed.

Lemma cos_half_angleOf (q : Mat) :
  0 < quatNorm q ->
  cos (angleOf q / 2) = at_ q 0 0 / quatNorm q.
Proof.
  intros Hn. unfold angleOf.
  replace (2 * atan2 (vectorNorm q) (at_ q 0 0) / 2)
    with (atan2 (vectorNorm q) (at_ q 0 0)) by field.
  assert (Hd : quatDot q q =
               at_ q 0 0 * at_ q 0 0 + vectorNorm q * vectorNorm q).
  { rewrite vectorNorm_sqr. unfold quatDot. ring. }
  assert (Hv : 0 <= vectorNorm q) by apply sqrt_pos.
  rewrite cos_atan2.
  - unfold quatNorm. rewrite Hd. reflexivity.
  - exact Hv.
  - destruct (Req_dec (at_ q 0 0) 0) as [E|E]; [right | left; exact E].
    destruct (Req_dec (vectorNorm q) 0) as [E'|E']; [|lra].
    exfalso. unfold quatNorm in Hn. rewrite Hd, E, E' in Hn.
    replace (0 * 0 + 0 * 0) with 0 in Hn by ring.
    rewrite sqrt_0 in Hn. lra.
Qed.

Lemma qDegreesToRadians_qRadiansToDegrees (x : qreal) :
  qDegreesToRadians (qRadiansToDegrees x) = x.
Proof.
  unfold qDegreesToRadians, qRadiansToDegrees. pose proof PI_RGT_0.
  field. lra.
Qed.

(** X22.  What a publish leaves can be read back: over a posterior [q]
    of norm one whose angle is not below the machine epsilon, with
    [theta] the published angle taken back to radians, [q0] is
    [cos (theta/2)], [sin (theta/2)] is the length of [(q1, q2, q3)], and
    [(q1, q2, q3)] is the published axis over [sin (theta/2)] - or zero
    when that sine is zero. *)
Theorem X22_rotation_reads_back (s : t) :
  gyroId s <> ""%string ->
  ~ 0 < startupTime s ->
  quatNorm (posterior s) = 1 ->
  ~ angleOf (posterior s) < EPSILON ->
  let q := posterior s in
  let s' := calculateOutputRotation s in
  let half := qDegreesToRadians (getRotAngle s') / 2 in
  at_ q 0 0 = cos half
  /\ sin half = vectorNorm q
  /\ (sin half <> 0 ->
      at_ q 1 0 = QVector3D.x (getRotAxis s') / sin half
      /\ at_ q 2 0 = QVector3D.y (getRotAxis s') / sin half
      /\ at_ q 3 0 = QVector3D.z (getRotAxis s') / sin half)
  /\ (sin half = 0 -> at_ q 1 0 = 0 /\ at_ q 2 0 = 0 /\ at_ q 3 0 = 0).
Proof.
  intros Hg Hs Hn Ha. cbv zeta.
  destruct (calculateOutputRotation_unit s Hg Hs Hn) as (_ & _ & Hu).
  cbv zeta in Hu. destruct (Hu Ha) as (-> & _ & ->).
  fold (qRadiansToDegrees (angleOf (posterior s))).
  rewrite qDegreesToRadians_qRadiansToDegrees.
  assert (Hp : 0 < quatNorm (posterior s)) by lra.
  rewrite (cos_half_angleOf _ Hp), (sin_half_angleOf _ Hp), Hn.
  cbn [QVector3D.x QVector3D.y QVector3D.z].
  split; [field|]. split; [field|]. split.
  - intros Hv. repeat split; field; lra.
  - intros Hv.
    assert (E : vectorNorm (posterior s) = 0) by lra.
    pose proof (vectorNorm_sqr (posterior s)) as Hq. rewrite E in Hq.
    repeat split; nra.
Qed.

(** *** A reading delivered twice *)

Lemma stamp_twice (ts : quint64) (x : t) :
  set_lastGyroTimestamp ts (set_wDeltaT 0 (set_lastGyroTimestamp ts x))
  = set_wDeltaT 0 (set_lastGyroTimestamp ts x)
  /\ set_lastGyroTimestamp ts (set_lastGyroTimestamp ts x)
     = set_lastGyroTimestamp ts x
  /\ set_lastAccTimestamp ts (set_lastAccTimestamp ts x)
     = set_lastAccTimestamp ts x
  /\ set_lastMagTimestamp ts (set_lastMagTimestamp ts x)
     = set_lastMagTimestamp ts x.
Proof. repeat split. Qed.

Lemma readingChanged_stamped (r : QSensorReading.t) (s : t) :
  (exists y, gyroReadingChanged r s
             = set_lastGyroTimestamp (QSensorReading.timestamp r) y)
  /\ (exists y, accReadingChanged r s
                = set_lastAccTimestamp (QSensorReading.timestamp r) y)
  /\ (exists y, magReadingChanged r s
                = set_lastMagTimestamp (QSensorReading.timestamp r) y).
Proof.
  split; [|split].
  - destruct (gyroAccepted_dec r s) as [H|H].
    + rewrite gyroReadingChanged_accepted by exact H. eexists. reflexivity.
    + destruct (gyroReadingChanged_dropped r s H) as [dT ->]. eexists. reflexivity.
  - destruct (accAccepted_dec r s) as [H|H].
    + rewrite accReadingChanged_accepted by exact H. eexists. reflexivity.
    + rewrite accReadingChanged_dropped by exact H. eexists. reflexivity.
  - destruct (magAccepted_dec r s) as [H|H].
    + rewrite magReadingChanged_accepted by exact H. eexists. reflexivity.
    + rewrite magReadingChanged_dropped by exact H. eexists. reflexivity.
Qed.

(** X23.  Delivering a reading a second time changes nothing more: the
    accelerometer and the magnetometer handler leave the state as the
    first delivery left it, and so does the gyroscope handler, except
    that it sets the time step [wDeltaT] to zero when the time stamp is
    positive. *)
Theorem X23_reading_delivered_twice (r : QSensorReading.t) (s : t) :
  accReadingChanged r (accReadingChanged r s) = accReadingChanged r s
  /\ magReadingChanged r (magReadingChanged r s) = magReadingChanged r s
  /\ gyroReadingChanged r (gyroReadingChanged r s) =
     (if (0 <? QSensorReading.timestamp r)%Z
      then set_wDeltaT 0 (gyroReadingChanged r s)
      else gyroReadingChanged r s).
Proof.
  destruct (readingChanged_stamped r s) as ([yg Eg] & [ya Ea] & [ym Em]).
  split; [|split].
  - rewrite accReadingChanged_dropped.
    + rewrite Ea. apply stamp_twice.
    + intros [_ H]. rewrite accReadingChanged_lastAccTimestamp, elapsed_same in H.
      lra.
  - rewrite magReadingChanged_dropped.
    + rewrite Em. apply stamp_twice.
    + intros [_ H]. rewrite magReadingChanged_lastMagTimestamp, elapsed_same in H.
      lra.
  - destruct (0 <? QSensorReading.timestamp r)%Z eqn:E.
    + apply Z.ltb_lt in E. rewrite gyroReadingChanged_stale.
      * rewrite gyroReadingChanged_lastGyroTimestamp, elapsed_same, Eg.
        apply stamp_twice.
      * rewrite gyroReadingChanged_lastGyroTimestamp. exact E.
      * rewrite gyroReadingChanged_lastGyroTimestamp, elapsed_same. lra.
    + apply Z.ltb_ge in E. rewrite gyroReadingChanged_first.
      * rewrite Eg. apply stamp_twice.
      * rewrite gyroReadingChanged_lastGyroTimestamp. exact E.
Qed.

(** *** The streams do not see each other's time stamps *)

Lemma other_stamps (ts : quint64) (x : t) :
  (lastAccTimestamp (set_lastGyroTimestamp ts x) = lastAccTimestamp x
   /\ lastMagTimestamp (set_lastGyroTimestamp ts x) = lastMagTimestamp x)
  /\ (lastGyroTimestamp (set_lastAccTimestamp ts x) = lastGyroTimestamp x
      /\ lastMagTimestamp (set_lastAccTimestamp ts x) = lastMagTimestamp x)
  /\ (lastGyroTimestamp (set_lastMagTimestamp ts x) = lastGyroTimestamp x
      /\ lastAccTimestamp (set_lastMagTimestamp ts x) = lastAccTimestamp x).
Proof. repeat split. Qed.

Lemma gyroReadingChanged_other_stamps (r : QSensorReading.t) (s : t) :
  lastAccTimestamp (gyroReadingChanged r s) = lastAccTimestamp s
  /\ lastMagTimestamp (gyroReadingChanged r s) = lastMagTimestamp s.
Proof.
  destruct (gyroAccepted_dec r s) as [H|H].
  - rewrite gyroReadingChanged_accepted by exact H.
    destruct (other_stamps (QSensorReading.timestamp r)
      (calculateOutputRotation (gyroPredict (calculateProcess (gyroInputs r
        (set_wDeltaT (elapsed (QSensorReading.timestamp r) (lastGyroTimestamp s))
           s)))))) as ((-> & ->) & _).
    split.
    + do 4 kept lastAccTimestamp. reflexivity.
    + do 4 kept lastMagTimestamp. reflexivity.
  - destruct (gyroReadingChanged_dropped r s H) as [dT ->]. split; reflexivity.
Qed.

Lemma accReadingChanged_other_stamps (r : QSensorReading.t) (s : t) :
  lastGyroTimestamp (accReadingChanged r s) = lastGyroTimestamp s
  /\ lastMagTimestamp (accReadingChanged r s) = lastMagTimestamp s.
Proof.
  destruct (accAccepted_dec r s) as [H|H].
  - rewrite accReadingChanged_stages by exact H.
    destruct (other_stamps (QSensorReading.timestamp r)
      (calculateOutputRotation (accCorrect (calculateObservation (accInputs r s)))))
      as (_ & (-> & ->) & _).
    split.
    + do 3 kept lastGyroTimestamp. reflexivity.
    + do 3 kept lastMagTimestamp. reflexivity.
  - rewrite accReadingChanged_dropped by exact H. split; reflexivity.
Qed.

Lemma magReadingChanged_other_stamps (r : QSensorReading.t) (s : t) :
  lastGyroTimestamp (magReadingChanged r s) = lastGyroTimestamp s
  /\ lastAccTimestamp (magReadingChanged r s) = lastAccTimestamp s.
Proof.
  destruct (magAccepted_dec r s) as [H|H].
  - rewrite magReadingChanged_accepted by exact H. split; reflexivity.
  - rewrite magReadingChanged_dropped by exact H. split; reflexivity.
Qed.

(** X24.  Each handler writes the time stamp of its own stream only, so
    whether a reading passes the guard of its handler does not depend on
    what the other two sensors delivered in between: a reading of one
    sensor is accepted after a reading of another sensor exactly when it
    would have been accepted before it. *)
Theorem X24_streams_are_gated_independently (r r' : QSensorReading.t) (s : t) :
  (gyroAccepted r (accReadingChanged r' s) <-> gyroAccepted r s)
  /\ (gyroAccepted r (magReadingChanged r' s) <-> gyroAccepted r s)
  /\ (accAccepted r (gyroReadingChanged r' s) <-> accAccepted r s)
  /\ (accAccepted r (magReadingChanged r' s) <-> accAccepted r s)
  /\ (magAccepted r (gyroReadingChanged r' s) <-> magAccepted r s)
  /\ (magAccepted r (accReadingChanged r' s) <-> magAccepted r s).
Proof.
  unfold gyroAccepted, accAccepted, magAccepted.
  destruct (gyroReadingChanged_other_stamps r' s) as [-> ->].
  destruct (accReadingChanged_other_stamps r' s) as [-> ->].
  destruct (magReadingChanged_other_stamps r' s) as [-> ->].
  repeat (split; [reflexivity|]). reflexivity.
Qed.

End Handlers.

(** ** The claims on the example device

    The build is the one with [qreal] a [double]; where the correction
    step needs a matrix inverse, the identity stands in for it (no
    statement below depends on what it computes). *)



(** C2 on the state in which the second reading of the example
    publishes: the axis that is left has length [1 - q0^2]. *)
Lemma C2_witness :
  let q := posterior (exampleTurning true) in
  let s' := calculateOutputRotation true (exampleTurning true) in
  getRotAxis s' =
    QVector3D.mk (at_ q 1 0 * vectorNorm q) (at_ q 2 0 * vectorNorm q)
      (at_ q 3 0 * vectorNorm q)
  /\ QVector3D.length (getRotAxis s') = 1 - at_ q 0 0 * at_ q 0 0
  /\ getRotAngle s' = angleOf q * (180 / PI).
Proof.
  refine (proj2 (proj2 (C2_axis_and_angle true (exampleTurning true) _ _ _)) _).
  - exact (proj1 (exampleTurning_startup true)).
  - rewrite (proj1 (proj2 (exampleTurning_startup true))). lra.
  - exact (proj1 (exampleTurning_posterior true)).
  - exact (proj2 (proj2 (exampleTurning_posterior true))).
Defined.

(** C2 as it was claimed fails after that publish: the angle is not
    zero and the axis is not a unit vector. *)
Lemma C2_counterexample :
  emitted (exampleTurned true) = 1%nat
  /\ getRotAngle (exampleTurned true) <> 0
  /\ QVector3D.length (getRotAxis (exampleTurned true)) <> 1.
Proof.
  destruct (exampleTurned_rotation true) as (Hl & Ha & He).
  split; [exact He|]. split; lra.
Qed.

(** C3: the example device saw a reading at 2000 us and is given one
    stamped 1000 us; it accepts it, with a step of about 2^64 us. *)
Lemma C3_witness :
  gyroAccepted (reading 1000 0 0 0) (exampleLate true)
  /\ wDeltaT (gyroReadingChanged true (reading 1000 0 0 0) (exampleLate true))
     = IZR (2 ^ 64 - (2000 - 1000)) / 1000000
  /\ (0 < startupTime (exampleLate true) ->
      startupTime (gyroReadingChanged true (reading 1000 0 0 0) (exampleLate true))
      < startupTime (exampleLate true)).
Proof.
  apply (C3_late_reading_accepted true (reading 1000 0 0 0) (exampleLate true)).
  - change (0 <= 1000 < 2000)%Z. lia.
  - change (2000 < 2 ^ 64)%Z. lia.
Defined.

(** C4: the gyroscope delivers its first reading, which is held back,
    and the accelerometer and the magnetometer deliver two readings
    each, the second of which is accepted; [getRotAngle] then returns
    the 90 that the member held at construction. *)
Lemma C4_witness :
  let events := [GyroReading (reading 1000 0 0 0);
                 AccReading (reading 500 0 0 9.81);
                 AccReading (reading 1500 0 0 9.81);
                 MagReading (reading 700 0.00002 0 0);
                 MagReading (reading 1700 0.00002 0 0)] in
  getRotAxis (run true (fun S => S) exampleUnassigned events) = QVector3D.mk 0 0 0
  /\ getRotAngle (run true (fun S => S) exampleUnassigned events) = 90
  /\ emitted (run true (fun S => S) exampleUnassigned events) = 0%nat
  /\ ~ In rotationChanged (out (run true (fun S => S) exampleUnassigned events)).
Proof.
  intros events.
  apply (C4_before_the_gyroscope true (fun S => S) "gyroscope" "accelerometer" ""
           exampleKernel 0 0 0 0 90 events).
  split; [intros [H _]; revert H; change (~ (0 < 0)%Z); lia|].
  repeat (split; [exact I|]). exact I.
Defined.

(** C5 at the second gyroscope reading of the example. *)
Lemma C5_witness :
  let s' := calculateProcess true
              (gyroInputs (reading 1001000 90 0 0)
                 (set_wDeltaT (elapsed 1001000 1000) (exampleStarted true))) in
  let dT := elapsed 1001000 1000 in
  processNoiseCov (filter s') =
  [ [1e-4 * dT; 0; 0; 0];
    [0; 1e-4 * dT; 0; 0];
    [0; 0; 1e-4 * dT; 0];
    [0; 0; 0; 1e-4 * dT] ].
Proof.
  intros s' dT.
  refine (proj2 (proj2 (proj2
    (C5_process_model true (fun S => S) "gyroscope" "accelerometer" ""
       exampleKernel 0 0 0 0 0 [GyroReading (reading 1000 0 0 0)]
       (reading 1001000 90 0 0) _ _)))).
  - repeat split.
  - exact (example_accepted true).
Defined.

(** C6 on the quaternion (3, 0, 4, 0), of norm 5. *)
Lemma C6_witness :
  quatNorm (normalizeQuat true (colvec [3; 0; 4; 0])) = 1.
Proof.
  refine (proj2 (proj1 (proj2 (C6_normalizeQuat true 3 0 4 0)) _)).
  replace (3 * 3 + 0 * 0 + 4 * 4 + 0 * 0) with (5 * 5) by ring.
  rewrite sqrt_square by lra.
  pose proof (EPSILON_lt_1 true). lra.
Defined.

(** C7 on the example: the prior after a third gyroscope reading against
    the prior after the second. *)
Lemma C7_witness :
  0 <= quatDot
         (prior (gyroReadingChanged true (reading 2001000 0 90 0)
                   (exampleTurned true)))
         (prior (exampleTurned true)).
Proof.
  refine (proj1 (proj2 (C7_sign_alignment true (fun S => S)))
            (exampleStarted true) (reading 1001000 90 0 0)
            (reading 2001000 0 90 0) [] _ _ _).
  - exact (example_accepted true).
  - exact I.
  - split.
    + change (0 < 1001000)%Z. lia.
    + apply elapsed_pos.
      change ((2001000 - 1001000) mod 2 ^ 64 <> 0)%Z. discriminate.
Defined.

(** C8 on the second magnetometer reading of the example device. *)
Lemma C8_witness :
  magDataReady
    (magReadingChanged (reading 2500 0.00002 0 0)
       (magReadingChanged (reading 1500 0.00002 0 0) exampleDevice)) = true.
Proof.
  refine (proj1 (proj2 (proj2 (proj1
    (C8_magReadingChanged (reading 2500 0.00002 0 0)
       (magReadingChanged (reading 1500 0.00002 0 0) exampleDevice)) _)))).
  split.
  - change (0 < 1500)%Z. lia.
  - apply elapsed_pos. change ((2500 - 1500) mod 2 ^ 64 <> 0)%Z. discriminate.
Defined.

(** C8 as it was claimed fails on the first magnetometer reading: it is
    neither stored nor marked as fresh. *)
Lemma C8_counterexample :
  let s' := magReadingChanged (reading 1500 0.00002 0 0) exampleDevice in
  magDataReady s' = false
  /\ QVector3D.x (m s') <> 0.00002 * 1000000.
Proof.
  split.
  - reflexivity.
  - change (0 <> 0.00002 * 1000000). lra.
Qed.

(** C9 on the example: the second gyroscope reading ends the startup
    second and emits. *)
Lemma C9_witness :
  emitted (exampleTurned true) = S (emitted (exampleStarted true)).
Proof.
  refine (proj1 (proj2 (proj2 (proj2
    (C9_startup true (fun S => S) (exampleStarted true)
       (reading 1001000 90 0 0) [])))) _ _ _).
  - change ("gyroscope"%string <> ""%string). discriminate.
  - exact (example_accepted true).
  - change (~ 0 < startupTime (exampleTurned true)).
    rewrite exampleTurned_startupTime. lra.
Defined.


(** ** The further properties on the example device *)


(** X6 at the second gyroscope reading of the example. *)
Lemma X6_witness :
  let s' := gyroReadingChanged true (reading 1001000 90 0 0) (exampleStarted true) in
  quatNorm (prior s') = 1
  /\ posterior s' = prior s'
  /\ statePreHistory s' = prior s'.
Proof.
  exact (X6_gyro_reading_leaves_unit_state true (reading 1001000 90 0 0)
           (exampleStarted true) (example_accepted true)).
Defined.

(** X7 and X13 at a second accelerometer reading of the device lying
    flat. *)
Lemma X7_witness :
  let s' := accReadingChanged true (fun S => S) (reading 2000 0 0 9.81)
              (exampleFlat true (fun S => S)) in
  (quatNorm (posterior s') = 1 \/ quatNorm (posterior s') = 2)
  /\ statePostHistory s' = posterior s'
  /\ prior s' = prior (exampleFlat true (fun S => S)).
Proof.
  exact (X7_acc_reading_leaves_unit_or_fallback true (fun S => S)
           (reading 2000 0 0 9.81) (exampleFlat true (fun S => S))
           (exampleFlat_accepted true (fun S => S))).
Defined.

Lemma X13_witness :
  magDataReady
    (accReadingChanged true (fun S => S) (reading 2000 0 0 9.81)
       (exampleFlat true (fun S => S))) = false.
Proof.
  exact (proj1 (X13_magnetometer_data_is_used_once true (fun S => S)
                  (reading 2000 0 0 9.81) (reading 3000 0 0 9.81)
                  (exampleFlat true (fun S => S))
                  (exampleFlat_accepted true (fun S => S)))).
Defined.

(** X9 and X10 on the device turning about x at a quarter turn a
    second, over a time step of one second. *)
Lemma X9_witness :
  quatNorm (process (calculateProcess true
    (set_w (QVector3D.mk (PI / 2) 0 0) (set_wDeltaT 1 exampleDevice)))) = 1.
Proof.
  refine (proj2 (proj2 (X9_process_vector true
    (set_w (QVector3D.mk (PI / 2) 0 0) (set_wDeltaT 1 exampleDevice)) _))).
  change (EPSILON true < quatNorm (posterior exampleDevice)).
  rewrite (proj2 exampleDevice_unit). apply EPSILON_lt_1.
Defined.

Lemma X10_witness :
  mmul (transition (calculateProcess true
          (set_w (QVector3D.mk (PI / 2) 0 0) (set_wDeltaT 1 exampleDevice))))
       (colvec [1; 0; 0; 0])
  = colvec [ 1 + 0.5 * 1 * (- 0 * (PI / 2) - 0 * 0 - 0 * 0);
             0 + 0.5 * 1 * (1 * (PI / 2) - 0 * 0 + 0 * 0);
             0 + 0.5 * 1 * (0 * (PI / 2) + 1 * 0 - 0 * 0);
             0 + 0.5 * 1 * (- 0 * (PI / 2) + 0 * 0 + 1 * 0) ].
Proof.
  refine (proj1 (X10_transition_matrix_is_the_step true
    (set_w (QVector3D.mk (PI / 2) 0 0) (set_wDeltaT 1 exampleDevice)) _)).
  change (unitDiagonal (eye 4)). repeat split; reflexivity.
Defined.

(** X12 on the device with a magnetometer sample waiting, pointing
    along y. *)
Lemma X12_witness :
  let s := set_magDataReady true
             (set_m_norm 1 (set_m (QVector3D.mk 0 1 0) exampleDevice)) in
  let p := predictedObservation (calculateObservation true s) in
  let o := observation (calculateObservation true s) in
  let p_g := QVector3D.mk (at_ p 0 0) (at_ p 1 0) (at_ p 2 0) in
  let p_y := QVector3D.mk (at_ p 3 0) (at_ p 4 0) (at_ p 5 0) in
  let o_y := QVector3D.mk (at_ o 3 0) (at_ o 4 0) (at_ o 5 0) in
  QVector3D.length p_y = 1
  /\ dot3 p_g p_y = 0
  /\ dot3 o_y p_g = 0
  /\ (QVector3D.length o_y = 1 \/ QVector3D.length o_y <= EPSILON true).
Proof.
  intros s.
  refine (proj2 (X12_observation_geometry true s _) _).
  - change (quatNorm (prior exampleDevice) = 1). exact (proj1 exampleDevice_unit).
  - reflexivity.
Defined.

(** X15 on the device past its startup, with a magnetometer sample
    waiting. *)
Lemma X15_witness :
  let s := set_magDataReady true (set_startupTime 0 exampleDevice) in
  Rabs (m_norm s - m_norm_mean (calculateObservation true s)) =
  (if Rlt_dec (m_norm_mean s) 0 then 0
   else Rabs (m_mean_alpha s) * Rabs (m_norm s - m_norm_mean s)).
Proof.
  intros s.
  refine (proj1 (proj2 (X15_magnetic_noise_deviation true s _ _))).
  - reflexivity.
  - change (~ 0 < 0). lra.
Defined.

(** X16 at the second gyroscope reading of the example. *)
Lemma X16_witness :
  gyroSilentCycles
    (gyroReadingChanged true (reading 1001000 90 0 0) (exampleStarted true)) = 1%Z.
Proof.
  refine (proj1 (proj1 (X16_silent_cycles true (fun S => S)
                          (reading 1001000 90 0 0) (exampleStarted true) _)
                   (example_accepted true))).
  rewrite (exampleStarted_eq true).
  change ("gyroscope"%string <> ""%string). discriminate.
Defined.

(** X17 over two accelerometer and two magnetometer readings, the
    second of each being accepted. *)
Lemma X17_witness :
  let events := [AccReading (reading 500 0 0 9.81);
                 MagReading (reading 700 0.00002 0 0);
                 MagReading (reading 1700 0.00002 0 0);
                 AccReading (reading 1500 0 0 9.81)] in
  prior (run true (fun S => S) exampleDevice events) = prior exampleDevice
  /\ priorCov (run true (fun S => S) exampleDevice events) = priorCov exampleDevice
  /\ process (run true (fun S => S) exampleDevice events) = process exampleDevice
  /\ transition (run true (fun S => S) exampleDevice events)
     = transition exampleDevice
  /\ processNoise (run true (fun S => S) exampleDevice events)
     = processNoise exampleDevice.
Proof.
  intros events.
  apply (X17_same_prior_between_gyro_readings true (fun S => S) exampleDevice events).
  repeat (split; [exact I|]). exact I.
Defined.

(** X19, X20 and X21 on a sensor that connects and does not start. *)
Lemma X19_witness :
  exists (success : bool) (d' : Device),
    openGyro exampleBackend "gyro" examplePhone = Some (success, d')
    /\ success = (connectToBackend exampleBackend "gyro"
                  && start exampleBackend "gyro")%bool
    /\ getGyroId d' =
       (if connectToBackend exampleBackend "gyro" then "gyro"%string
        else getGyroId examplePhone)
    /\ gyro d' =
       (if connectToBackend exampleBackend "gyro"
        then if start exampleBackend "gyro" then sensor "gyro" else deleted "gyro"
        else gyro examplePhone)
    /\ (In gyroIdChanged (opening d') <->
        connectToBackend exampleBackend "gyro" = true
        \/ In gyroIdChanged (opening examplePhone))
    /\ (connectToBackend exampleBackend "gyro" = false ->
        imu d' = imu examplePhone).
Proof.
  apply (X19_openGyro exampleBackend "gyro" examplePhone).
  intros id' E. discriminate E.
Defined.

Lemma X20_witness :
  openGyro exampleBackend "other" exampleFailed = None.
Proof.
  refine (proj1 (proj2 (X20_failed_start_cannot_be_retried
                          exampleBackend exampleBackend ["gyro"%string; "other"%string]
                          "gyro" "other" examplePhone exampleFailed _ _ _)) _);
    reflexivity.
Defined.


(** X22 on the state in which the second reading of the example
    publishes. *)
Lemma X22_witness :
  at_ (posterior (exampleTurning true)) 0 0
  = cos (qDegreesToRadians
           (getRotAngle (calculateOutputRotation true (exampleTurning true))) / 2).
Proof.
  refine (proj1 (X22_rotation_reads_back true (exampleTurning true) _ _ _ _)).
  - exact (proj1 (exampleTurning_startup true)).
  - rewrite (proj1 (proj2 (exampleTurning_startup true))). lra.
  - exact (proj1 (exampleTurning_posterior true)).
  - exact (proj2 (proj2 (exampleTurning_posterior true))).
Defined.

(** X2 and X3 from the state in which the second reading of the example
    publishes, where the startup second is over, over two accelerometer
    readings, the second of which is accepted, and a magnetometer
    reading. *)
Lemma X2_witness :
  let events := [AccReading (reading 500 0 0 9.81);
                 AccReading (reading 1500 0 0 9.81);
                 MagReading (reading 1700 0.00002 0 0)] in
  emitted (run true (fun S => S) (exampleTurning true) events)
  = (emitted (exampleTurning true)
     + publishes true (fun S => S) (exampleTurning true) events)%nat.
Proof.
  intros events.
  refine (proj1 (X2_one_signal_per_accepted_reading true (fun S => S)
                   (exampleTurning true) events) _ _).
  - exact (proj1 (exampleTurning_startup true)).
  - rewrite (proj1 (proj2 (exampleTurning_startup true))). lra.
Defined.

Lemma X3_witness :
  let events := [AccReading (reading 500 0 0 9.81);
                 AccReading (reading 1500 0 0 9.81);
                 GyroReading (reading 2001000 0 0 45)] in
  startupTime (run true (fun S => S) (exampleTurning true) events)
  = startupTime (exampleTurning true)
  /\ startupLines (run true (fun S => S) (exampleTurning true) events)
     = startupLines (exampleTurning true).
Proof.
  intros events.
  refine (proj1 (X3_startup_ends_once true (fun S => S)
                   (exampleTurning true) events) _).
  rewrite (proj1 (proj2 (exampleTurning_startup true))). lra.
Defined.

(** X4 at the publish of the second reading of the example. *)
Lemma X4_witness :
  0 <= getRotAngle (calculateOutputRotation true (exampleTurning true)) <= 360.
Proof.
  refine (proj1 (X4_angle_range true (fun S => S) (exampleTurning true) []) _ _).
  - exact (proj1 (exampleTurning_startup true)).
  - rewrite (proj1 (proj2 (exampleTurning_startup true))). lra.
Defined.

(** X5 on the identity quaternion and its opposite. *)
Lemma X5_witness :
  snd (shortestPathQuat (colvec [1; 0; 0; 0]) (colvec [- 1; - 0; - 0; - 0]))
  = snd (shortestPathQuat (colvec [1; 0; 0; 0]) (colvec [1; 0; 0; 0])).
Proof.
  refine (proj1 (proj2 (X5_shortestPathQuat_canonical (colvec [1; 0; 0; 0])
                          1 0 0 0)) _).
  rewrite quatDot_colvec. lra.
Defined.

End IMU.
